(** * gulp-static-html: the template compiler of [src/index.ts]

    The compiler turns a template text into the source of a JavaScript
    function ([parseTemplate], [getTemplate], [compileTemplate]); rendering
    runs that function.  This file embeds

    - the string primitives of the host language the compiler calls
      ([slice], [substring], [indexOf], [split], [trim]);
    - the option handling ([handleOptions]) and the compiler itself, with the
      cursor [i] and the accumulator [parsed] threaded as in the source;
    - the helper [escape];
    - an interpreter for the fragment of JavaScript the generated code is
      written in, so that a compiled template can be rendered;
    - the gulp plugin [Template], on files that are null or a buffer.

    JavaScript strings are sequences of UTF-16 code units.  They are
    represented by [string]; the compiler compares code units only with the
    delimiters and with three ASCII characters, so nothing depends on the
    width of a code unit. *)

From Stdlib Require Import ZArith Lia List Bool Ascii String.
From Stdlib Require Import Numbers.DecimalString.
Import ListNotations.

Local Open Scope string_scope.
Local Open Scope Z_scope.

(** ** Outcomes of a computation that may throw or not return *)

Inductive outcome (A : Type) : Type :=
| Ok (a : A)
| Throw (message : string)   (* [throw new Error(message)], a rejected promise *)
| OutOfFuel                  (* the fuel of the model ran out *)
| Unsupported.               (* outside the modelled fragment of the host language *)

Arguments Ok {A} a.
Arguments Throw {A} message.
Arguments OutOfFuel {A}.
Arguments Unsupported {A}.

Definition bind {A B : Type} (m : outcome A) (k : A -> outcome B) : outcome B :=
  match m with
  | Ok a => k a
  | Throw e => Throw e
  | OutOfFuel => OutOfFuel
  | Unsupported => Unsupported
  end.

Notation "'do' x <- m ; k" := (bind m (fun x => k))
  (at level 10, x pattern, m at level 100, k at level 200).

(** ** String primitives of the host language *)

Module JS.

Definition len (s : string) : Z := Z.of_nat (String.length s).

Fixpoint drop (n : nat) (s : string) : string :=
  match n, s with
  | O, _ => s
  | S n', String _ s' => drop n' s'
  | S _, EmptyString => EmptyString
  end.

Fixpoint take (n : nat) (s : string) : string :=
  match n, s with
  | O, _ => EmptyString
  | S n', String c s' => String c (take n' s')
  | S _, EmptyString => EmptyString
  end.

Definition clamp (s : string) (k : Z) : nat :=
  Z.to_nat (Z.min (Z.max k 0) (len s)).

(** [s[i]]: the code unit at [i], [undefined] ([None]) out of range. *)
Definition charAt (s : string) (i : Z) : option ascii :=
  if i <? 0 then None else String.get (Z.to_nat i) s.

(** [s.slice(a, b)]: a negative index counts from the end. *)
Definition slice (s : string) (a b : Z) : string :=
  let rel k := if k <? 0 then Z.max (len s + k) 0 else Z.min k (len s) in
  let from := Z.to_nat (rel a) in
  let to := Z.to_nat (rel b) in
  take (to - from) (drop from s).

(** [s.substring(a, b)]: both ends clamped, swapped when out of order. *)
Definition substring (s : string) (a b : Z) : string :=
  let a' := clamp s a in
  let b' := clamp s b in
  take (Nat.max a' b' - Nat.min a' b') (drop (Nat.min a' b') s).

(** First position [k] of [rest], counted from [pos], where [pat] starts. *)
Fixpoint search (pat rest : string) (pos : nat) : option nat :=
  if String.prefix pat rest then Some pos
  else match rest with
       | EmptyString => None
       | String _ rest' => search pat rest' (S pos)
       end.

(** [s.indexOf(pat, from)], [-1] when there is no occurrence. *)
Definition indexOf (s pat : string) (from : Z) : Z :=
  let k := clamp s from in
  match search pat (drop k s) k with
  | Some e => Z.of_nat e
  | None => -1
  end.

(** [s.split(sep)] for a separator of one code unit. *)
Fixpoint splitAcc (sep : ascii) (s : string) (piece : string) : list string :=
  match s with
  | EmptyString => [piece]
  | String c s' =>
      if Ascii.eqb c sep then piece :: splitAcc sep s' EmptyString
      else splitAcc sep s' (piece ++ String c EmptyString)
  end.

Definition split (sep : ascii) (s : string) : list string :=
  splitAcc sep s EmptyString.

(** White space and line terminators removed by [trim], in the 8-bit range. *)
Definition isSpace (c : ascii) : bool :=
  let n := nat_of_ascii c in
  ((9 <=? n) && (n <=? 13) || (n =? 32) || (n =? 160))%nat.

Fixpoint trimStart (s : string) : string :=
  match s with
  | String c s' => if isSpace c then trimStart s' else s
  | EmptyString => EmptyString
  end.

Fixpoint trimEnd (s : string) : string :=
  match s with
  | EmptyString => EmptyString
  | String c s' =>
      match trimEnd s' with
      | EmptyString => if isSpace c then EmptyString else String c EmptyString
      | t => String c t
      end
  end.

Definition trim (s : string) : string := trimEnd (trimStart s).

(** [s.includes(pat)] *)
Definition includes (s pat : string) : bool := 0 <=? indexOf s pat 0.

(** [s[0]] of a text that may be empty. *)
Definition head (s : string) : option ascii :=
  match s with
  | String c _ => Some c
  | EmptyString => None
  end.

End JS.

(** ** Values of the host language

    A location names a cell of the store: one the caller of the running code
    made ([Given]), or one the running code allocated ([Fresh]). *)

Inductive loc : Type :=
| Given (n : nat)
| Fresh (n : nat).

Inductive value : Type :=
| VUndef
| VNull
| VBool (b : bool)
| VNum (n : Z)          (* integer-valued numbers *)
| VStr (s : string)
| VRef (l : loc)        (* an object or an array of the store *)
| VEscape.              (* the function [escape], bound to [$xml] *)

(** The truthiness tested by [if (v)], [v && w] and [v || w]. *)
Definition truthy (v : value) : bool :=
  match v with
  | VUndef | VNull => false
  | VBool b => b
  | VNum n => negb (n =? 0)
  | VStr s => negb (String.eqb s EmptyString)
  | VRef _ | VEscape => true
  end.

(** The integers a number holds exactly, [Number.MAX_SAFE_INTEGER] being the
    largest. *)
Definition MAX_SAFE_INTEGER : Z := 9007199254740991.

(** The decimal digits of an integer, after a minus sign when it is
    negative. *)
Definition Z_to_string (n : Z) : string :=
  NilZero.string_of_int (Z.to_int n).

(** [String(v)] on the values whose conversion does not run user code.  The
    text of a number is its decimal digits for an integer a number holds
    exactly; a larger number is written with an exponent from [1e21] on, and
    an integer that is no double is no number at all: both are outside the
    fragment. *)
Definition String_ (v : value) : option string :=
  match v with
  | VUndef => Some "undefined"
  | VNull => Some "null"
  | VBool true => Some "true"
  | VBool false => Some "false"
  | VNum n =>
      if MAX_SAFE_INTEGER <? Z.abs n then None else Some (Z_to_string n)
  | VStr s => Some s
  | VRef _ | VEscape => None
  end.

(** ** Helper functions *)

(** The callback given to [replace], called on each of the five characters
    of the character class. *)
Definition escapeChar (c : ascii) : string :=
  match c with
  | "<"%char => "&lt;"
  | ">"%char => "&gt;"
  | "&"%char => "&amp;"
  | "'"%char => "&apos;"
  | "034"%char => "&quot;"
  | _ => String c EmptyString
  end.

Fixpoint replaceEach (f : ascii -> string) (s : string) : string :=
  match s with
  | EmptyString => EmptyString
  | String c s' => f c ++ replaceEach f s'
  end.

(** [escape(unsafe)]; [None] where [String(unsafe)] is outside the fragment. *)
Definition escape (unsafe : value) : option string :=
  match unsafe with
  | VUndef | VNull => Some EmptyString
  | _ => option_map (replaceEach escapeChar) (String_ unsafe)
  end.

(** ** Options *)

Module DelimiterOptions.
Record t : Type := mk {
  open : string;
  close : string;
  escape : string;
  unescape : string;
  import : string;
  comment : string }.
End DelimiterOptions.

(** [Partial<DelimiterOptions>]: [None] is an absent property. *)
Module PartialDelimiters.
Record t : Type := mk {
  open : option string;
  close : option string;
  escape : option string;
  unescape : option string;
  import : option string;
  comment : option string }.
End PartialDelimiters.

Definition MinifyOptions : Type := list (string * bool).

Inductive Minify : Type :=
| MinifyBool (b : bool)
| MinifyObject (o : MinifyOptions).

(** The loader closes over the file system; a rejected promise is a [Throw].
    It is a function of the template name: the options the source gives it
    as well, of which the default loader reads [base] and [ext], are not an
    argument of it here, so a statement that compares two sets of options
    keeps what a loader may read of them equal. *)
Definition Loader : Type := string -> outcome string.

Module Options.
Record t : Type := mk {
  base : string;
  ext : string;
  delimiters : DelimiterOptions.t;
  escape : value -> option string;
  loadFile : Loader;
  cache : value;
  minify : Minify }.
End Options.

Module PartialOptions.
Record t : Type := mk {
  base : option string;
  ext : option string;
  delimiters : option PartialDelimiters.t;
  escape : option (value -> option string);
  loadFile : option Loader;
  cache : option value;
  minify : option Minify }.
End PartialOptions.

Definition DEFAULT_DELIMITERS : DelimiterOptions.t :=
  DelimiterOptions.mk "<%" "%>" "=" "-" "+" "!".

Definition DEFAULT_MINIFY : MinifyOptions :=
  [ ("collapseBooleanAttributes", true);
    ("collapseInlineTagWhitespace", true);
    ("collapseWhitespace", true);
    ("minifyCSS", true);
    ("minifyJS", true);
    ("removeComments", true);
    ("removeRedundantAttributes", true);
    ("removeScriptTypeAttributes", true);
    ("removeStyleLinkTypeAttributes", true);
    ("useShortDoctype", true) ].

Section Defaults.

(** The default loader reads the file system; it is a parameter here. *)
Variable loadFile : Loader.

Definition DEFAULT_OPTIONS : Options.t :=
  Options.mk EmptyString EmptyString DEFAULT_DELIMITERS escape loadFile VNull (MinifyBool false).

Definition orDefault {A : Type} (given : option A) (default : A) : A :=
  match given with
  | Some a => a
  | None => default
  end.

(** [Object.assign({}, DEFAULT_DELIMITERS, delimiters)] *)
Definition assignDelimiters (d : PartialDelimiters.t) : DelimiterOptions.t :=
  DelimiterOptions.mk
    (orDefault (PartialDelimiters.open d) (DelimiterOptions.open DEFAULT_DELIMITERS))
    (orDefault (PartialDelimiters.close d) (DelimiterOptions.close DEFAULT_DELIMITERS))
    (orDefault (PartialDelimiters.escape d) (DelimiterOptions.escape DEFAULT_DELIMITERS))
    (orDefault (PartialDelimiters.unescape d) (DelimiterOptions.unescape DEFAULT_DELIMITERS))
    (orDefault (PartialDelimiters.import d) (DelimiterOptions.import DEFAULT_DELIMITERS))
    (orDefault (PartialDelimiters.comment d) (DelimiterOptions.comment DEFAULT_DELIMITERS)).

Definition minifyTruthy (m : Minify) : bool :=
  match m with
  | MinifyBool b => b
  | MinifyObject _ => true
  end.

(** [handleOptions]: the defaults, overridden by what the caller gave.  No
    branch of it throws. *)
Definition handleOptions (options : option PartialOptions.t) : Options.t :=
  match options with
  | None => DEFAULT_OPTIONS
  | Some o =>
      let delimiters :=
        match PartialOptions.delimiters o with
        | Some d => assignDelimiters d
        | None => Options.delimiters DEFAULT_OPTIONS
        end in
      let minify :=
        match PartialOptions.minify o with
        | Some (MinifyBool true) => MinifyObject DEFAULT_MINIFY
        | Some m => m
        | None => Options.minify DEFAULT_OPTIONS
        end in
      Options.mk
        (orDefault (PartialOptions.base o) (Options.base DEFAULT_OPTIONS))
        (orDefault (PartialOptions.ext o) (Options.ext DEFAULT_OPTIONS))
        delimiters
        (orDefault (PartialOptions.escape o) (Options.escape DEFAULT_OPTIONS))
        (orDefault (PartialOptions.loadFile o) (Options.loadFile DEFAULT_OPTIONS))
        (orDefault (PartialOptions.cache o) (Options.cache DEFAULT_OPTIONS))
        minify
  end.

End Defaults.

(** ** The template compiler *)

(** [case MARKER:] of the [switch (unparsed[i])]: strict equality of a code
    unit, or [undefined], with the marker string. *)
Definition isCase (c : option ascii) (marker : string) : bool :=
  match c with
  | Some a => String.eqb (String a EmptyString) marker
  | None => false
  end.

(** [tagContents(endTag)]: the tag body and the new cursor. *)
Definition tagContents (unparsed : string) (i : Z) (endTag : string)
  : outcome (string * Z) :=
  let end_ := JS.indexOf unparsed endTag i in
  if end_ <? 0 then
    Throw ("Could not find matching close tag '" ++ endTag ++ "'.")
  else
    Ok (JS.substring unparsed i end_, end_ + JS.len endTag - 1).

Definition HEADER : string := "with($locals||{}){$buffer.push(`".
Definition FOOTER : string := "`);}".

(** [importContents[1] && importContents[1].trim() || $locals], the last
    operand being the text of that identifier. *)
Definition importLocals (importContents : list string) : string :=
  match nth_error importContents 1 with
  | Some s =>
      if String.eqb s EmptyString then "$locals"
      else if String.eqb (JS.trim s) EmptyString then "$locals"
      else JS.trim s
  | None => "$locals"
  end.

(** The [for] loop of [parseTemplate] from cursor [i] with [parsed] built so
    far, and [getTemplate]; one unit of fuel per iteration and per load. *)
Fixpoint parseFrom (fuel : nat) (options : Options.t) (unparsed : string)
    (i : Z) (parsed : string) {struct fuel} : outcome string :=
  let OPEN := DelimiterOptions.open (Options.delimiters options) in
  let CLOSE := DelimiterOptions.close (Options.delimiters options) in
  let COMMENT := DelimiterOptions.comment (Options.delimiters options) in
  let ESCAPE := DelimiterOptions.escape (Options.delimiters options) in
  let UNESCAPE := DelimiterOptions.unescape (Options.delimiters options) in
  let IMPORT := DelimiterOptions.import (Options.delimiters options) in
  match fuel with
  | O => OutOfFuel
  | S fuel' =>
      if negb (i <? JS.len unparsed) then Ok (parsed ++ FOOTER)
      else
        let c := JS.charAt unparsed i in
        if String.eqb (JS.slice unparsed i (i + JS.len OPEN)) OPEN then
          let i := i + JS.len OPEN in
          let d := JS.charAt unparsed i in
          if isCase d COMMENT then
            do (_, i) <- tagContents unparsed i (COMMENT ++ CLOSE);
            parseFrom fuel' options unparsed (i + 1) parsed
          else if isCase d ESCAPE then
            let i := i + 1 in
            let parsed := parsed ++ "`,$xml(" in
            do (body, i) <- tagContents unparsed i CLOSE;
            parseFrom fuel' options unparsed (i + 1) (parsed ++ body ++ "),`")
          else if isCase d UNESCAPE then
            let i := i + 1 in
            let parsed := parsed ++ "`,(" in
            do (body, i) <- tagContents unparsed i CLOSE;
            parseFrom fuel' options unparsed (i + 1) (parsed ++ body ++ "),`")
          else if isCase d IMPORT then
            let i := i + 1 in
            let parsed := parsed ++ "`,`" in
            do (body, i) <- tagContents unparsed i CLOSE;
            let importContents := JS.split "|" body in
            let templateName := JS.trim (nth 0 importContents EmptyString) in
            let locals := importLocals importContents in
            do unparsedImport <- getTemplate fuel' options templateName;
            parseFrom fuel' options unparsed (i + 1)
              (parsed ++ "`);(function($buffer,$locals){" ++ unparsedImport
                      ++ "})($buffer," ++ locals ++ ");$buffer.push(`")
          else
            let parsed := parsed ++ "`);" in
            do (body, i) <- tagContents unparsed i CLOSE;
            parseFrom fuel' options unparsed (i + 1)
              (parsed ++ body ++ ";$buffer.push(`")
        else
          match c with
          | Some "\"%char => parseFrom fuel' options unparsed (i + 1) (parsed ++ "\\")
          | Some "`"%char => parseFrom fuel' options unparsed (i + 1) (parsed ++ "\`")
          | Some "$"%char => parseFrom fuel' options unparsed (i + 1) (parsed ++ "\$")
          | Some c => parseFrom fuel' options unparsed (i + 1) (parsed ++ String c EmptyString)
          | None => parseFrom fuel' options unparsed (i + 1) (parsed ++ "undefined")
          end
  end

with getTemplate (fuel : nat) (options : Options.t) (templateName : string)
    {struct fuel} : outcome string :=
  if truthy (Options.cache options) then
    Throw "The template cache is unimplemented"
  else
    match fuel with
    | O => OutOfFuel
    | S fuel' =>
        do unparsed <- Options.loadFile options templateName;
        parseFrom fuel' options unparsed 0 HEADER
    end.

Definition parseTemplate (fuel : nat) (unparsed : string) (options : Options.t)
  : outcome string :=
  parseFrom fuel options unparsed 0 HEADER.

(** ** The host language: lexical structure

    [new Function(..., wrapped)] parses the generated text.  The lexer reads
    one code unit at a time; a construct outside the fragment makes it give
    up ([None]). *)

Inductive token : Type :=
| TIdent (x : string)
| TNum (n : Z)
| TStr (s : string)          (* a quoted string literal, cooked *)
| TTemplate (s : string)     (* a template literal without substitution, cooked *)
| TLParen | TRParen | TLBrace | TRBrace | TLBracket | TRBracket
| TSemi | TComma | TDot | TColon | TAssign | TOrOr.

Inductive lexmode : Type :=
| LNormal
| LIdent (acc : string)
| LAfterReturn                 (* no line terminator may follow [return] *)
| LNum (n : Z)
| LStr (quote : ascii) (acc : string)
| LStrEsc (quote : ascii) (acc : string)
| LTpl (acc : string)
| LTplEsc (acc : string)
| LTplDollar (acc : string)
| LTplSkipLF (acc : string)
| LEq
| LBar.

Definition LF : ascii := "010"%char.
Definition CR : ascii := "013"%char.

Definition snoc (s : string) (c : ascii) : string := s ++ String c EmptyString.

Definition isIdentStart (c : ascii) : bool :=
  let n := nat_of_ascii c in
  ((65 <=? n) && (n <=? 90) || (97 <=? n) && (n <=? 122)
   || (n =? 36) || (n =? 95))%nat.

Definition isDigit (c : ascii) : bool :=
  let n := nat_of_ascii c in ((48 <=? n) && (n <=? 57))%nat.

Definition digitValue (c : ascii) : Z := Z.of_nat (nat_of_ascii c) - 48.

Definition isLineTerminator (c : ascii) : bool :=
  Ascii.eqb c LF || Ascii.eqb c CR.

(** The value of the code unit after a backslash: a single-character escape,
    or the character itself; hexadecimal, unicode and digit escapes are
    outside the fragment. *)
Definition escapeSequence (c : ascii) : option ascii :=
  match c with
  | "b"%char => Some "008"%char
  | "t"%char => Some "009"%char
  | "n"%char => Some "010"%char
  | "v"%char => Some "011"%char
  | "f"%char => Some "012"%char
  | "r"%char => Some "013"%char
  | "x"%char | "u"%char => None
  | _ => if isDigit c then None else Some c
  end.

(** A code unit read outside any literal. *)
Definition normalStep (c : ascii) : option (list token * lexmode) :=
  if JS.isSpace c then Some ([], LNormal)
  else if isIdentStart c then Some ([], LIdent (String c EmptyString))
  else if isDigit c then Some ([], LNum (digitValue c))
  else match c with
       | "034"%char | "'"%char => Some ([], LStr c EmptyString)
       | "`"%char => Some ([], LTpl EmptyString)
       | "("%char => Some ([TLParen], LNormal)
       | ")"%char => Some ([TRParen], LNormal)
       | "{"%char => Some ([TLBrace], LNormal)
       | "}"%char => Some ([TRBrace], LNormal)
       | "["%char => Some ([TLBracket], LNormal)
       | "]"%char => Some ([TRBracket], LNormal)
       | ";"%char => Some ([TSemi], LNormal)
       | ","%char => Some ([TComma], LNormal)
       | "."%char => Some ([TDot], LNormal)
       | ":"%char => Some ([TColon], LNormal)
       | "="%char => Some ([], LEq)
       | "|"%char => Some ([], LBar)
       | _ => None
       end.

Definition after (ts : list token) (r : option (list token * lexmode))
  : option (list token * lexmode) :=
  match r with
  | Some (ts', m) => Some ((ts ++ ts')%list, m)
  | None => None
  end.

(** A code unit read inside a template literal, outside an escape.  A line
    terminator sequence CR or CR LF is the single code unit LF of the
    template value. *)
Definition templateStep (acc : string) (c : ascii) : option (list token * lexmode) :=
  match c with
  | "`"%char => Some ([TTemplate acc], LNormal)
  | "\"%char => Some ([], LTplEsc acc)
  | "$"%char => Some ([], LTplDollar acc)
  | "013"%char => Some ([], LTplSkipLF (snoc acc LF))
  | _ => Some ([], LTpl (snoc acc c))
  end.

Definition lexStep (m : lexmode) (c : ascii) : option (list token * lexmode) :=
  match m with
  | LNormal => normalStep c
  | LIdent acc =>
      if isIdentStart c || isDigit c then Some ([], LIdent (snoc acc c))
      else if String.eqb acc "return" then
        if isLineTerminator c then None
        else if JS.isSpace c then Some ([TIdent acc], LAfterReturn)
        else after [TIdent acc] (normalStep c)
      else after [TIdent acc] (normalStep c)
  | LAfterReturn =>
      if isLineTerminator c then None else normalStep c
  | LNum n =>
      if isDigit c then
        (* no legacy octal literal, and integers a number holds exactly *)
        if (n =? 0) || (MAX_SAFE_INTEGER <? 10 * n + digitValue c) then None
        else Some ([], LNum (10 * n + digitValue c))
      else if isIdentStart c then None
      else after [TNum n] (normalStep c)
  | LStr q acc =>
      if Ascii.eqb c q then Some ([TStr acc], LNormal)
      else if Ascii.eqb c "\" then Some ([], LStrEsc q acc)
      else if isLineTerminator c then None
      else Some ([], LStr q (snoc acc c))
  | LStrEsc q acc =>
      if Ascii.eqb c LF then Some ([], LStr q acc)
      else if Ascii.eqb c CR then None
      else match escapeSequence c with
           | Some c' => Some ([], LStr q (snoc acc c'))
           | None => None
           end
  | LTpl acc => templateStep acc c
  | LTplEsc acc =>
      if Ascii.eqb c LF then Some ([], LTpl acc)
      else if Ascii.eqb c CR then Some ([], LTplSkipLF acc)
      else match escapeSequence c with
           | Some c' => Some ([], LTpl (snoc acc c'))
           | None => None
           end
  | LTplDollar acc =>
      if Ascii.eqb c "{" then None else templateStep (snoc acc "$") c
  | LTplSkipLF acc =>
      if Ascii.eqb c LF then Some ([], LTpl acc) else templateStep acc c
  | LEq =>
      if Ascii.eqb c "=" then None else after [TAssign] (normalStep c)
  | LBar =>
      if Ascii.eqb c "|" then Some ([TOrOr], LNormal) else None
  end.

(** What the end of the text leaves, when it may end in mode [m]. *)
Definition lexEnd (m : lexmode) : option (list token) :=
  match m with
  | LNormal | LAfterReturn => Some []
  | LIdent acc => Some [TIdent acc]
  | LNum n => Some [TNum n]
  | LEq => Some [TAssign]
  | _ => None
  end.

Fixpoint lex (m : lexmode) (s : string) : option (list token) :=
  match s with
  | EmptyString => lexEnd m
  | String c s' =>
      match lexStep m c with
      | Some (ts, m') =>
          match lex m' s' with
          | Some l => Some (ts ++ l)%list
          | None => None
          end
      | None => None
      end
  end.

(** ** The host language: syntax *)

#[local] Set Warnings "-register-all".

Inductive expr : Type :=
| EIdent (x : string)
| EThis
| ENull
| EBool (b : bool)
| ENum (n : Z)
| EStr (s : string)
| EObject (props : list (string * expr))
| EArray (elems : list expr)
| EMember (e : expr) (name : string)
| ECall (f : expr) (args : list expr)
| EFunction (params : list string) (body : list stmt)
| EOr (a b : expr)
| EAssign (target e : expr)
with stmt : Type :=
| SEmpty
| SExpr (e : expr)
| SVar (x : string) (init : option expr)
| SReturn (e : option expr)
| SWith (e : expr) (body : stmt)
| SBlock (body : list stmt)
| SIf (e : expr) (s1 : stmt) (s2 : option stmt).

(** Reserved words the fragment gives no meaning to. *)
Definition reserved : list string :=
  [ "break"; "case"; "catch"; "class"; "const"; "continue"; "debugger";
    "default"; "delete"; "do"; "else"; "enum"; "export"; "extends";
    "finally"; "for"; "function"; "if"; "import"; "in"; "instanceof"; "let";
    "new"; "return"; "super"; "switch"; "throw"; "try"; "typeof"; "var";
    "void"; "while"; "with"; "yield"; "async"; "await"; "static" ].

Definition inList (x : string) (l : list string) : bool :=
  existsb (String.eqb x) l.

Definition isTarget (e : expr) : bool :=
  match e with
  | EIdent _ | EMember _ _ => true
  | _ => false
  end.

Inductive closer : Type := CloseParen | CloseBracket.

Definition closes (k : closer) (t : token) : bool :=
  match k, t with
  | CloseParen, TRParen => true
  | CloseBracket, TRBracket => true
  | _, _ => false
  end.

Definition parsed_ (A : Type) : Type := option (A * list token).

Definition pbind {A B : Type} (m : parsed_ A) (k : A -> list token -> parsed_ B)
  : parsed_ B :=
  match m with
  | Some (a, ts) => k a ts
  | None => None
  end.

(** The formal parameters of a function, up to the closing parenthesis. *)
Fixpoint parseParams (ts : list token) : parsed_ (list string) :=
  match ts with
  | TRParen :: r => Some ([], r)
  | TIdent x :: TRParen :: r =>
      if inList x reserved then None else Some ([x], r)
  | TIdent x :: TComma :: r =>
      if inList x reserved then None
      else match parseParams r with
           | Some (x' :: xs, r') => Some (x :: x' :: xs, r')
           | _ => None
           end
  | _ => None
  end.

Fixpoint parseExpr (fuel : nat) (ts : list token) {struct fuel} : parsed_ expr :=
  match fuel with
  | O => None
  | S fuel' =>
      pbind (parseOr fuel' ts) (fun a r =>
        match r with
        | TAssign :: r' =>
            if isTarget a then
              pbind (parseExpr fuel' r') (fun b r'' => Some (EAssign a b, r''))
            else None
        | _ => Some (a, r)
        end)
  end

with parseOr (fuel : nat) (ts : list token) {struct fuel} : parsed_ expr :=
  match fuel with
  | O => None
  | S fuel' =>
      pbind (parsePrimary fuel' ts) (fun a r =>
      pbind (parsePostfix fuel' a r) (fun a r =>
        parseOrRest fuel' a r))
  end

with parseOrRest (fuel : nat) (a : expr) (ts : list token) {struct fuel}
  : parsed_ expr :=
  match fuel with
  | O => None
  | S fuel' =>
      match ts with
      | TOrOr :: r =>
          pbind (parsePrimary fuel' r) (fun b r =>
          pbind (parsePostfix fuel' b r) (fun b r =>
            parseOrRest fuel' (EOr a b) r))
      | _ => Some (a, ts)
      end
  end

with parsePrimary (fuel : nat) (ts : list token) {struct fuel} : parsed_ expr :=
  match fuel with
  | O => None
  | S fuel' =>
      match ts with
      | TIdent x :: r =>
          if String.eqb x "this" then Some (EThis, r)
          else if String.eqb x "null" then Some (ENull, r)
          else if String.eqb x "true" then Some (EBool true, r)
          else if String.eqb x "false" then Some (EBool false, r)
          else if String.eqb x "function" then
            match r with
            | TLParen :: r1 =>
                pbind (parseParams r1) (fun ps r2 =>
                  match r2 with
                  | TLBrace :: r3 =>
                      pbind (parseStmts fuel' r3) (fun body r4 =>
                        match r4 with
                        | TRBrace :: r5 => Some (EFunction ps body, r5)
                        | _ => None
                        end)
                  | _ => None
                  end)
            | _ => None
            end
          else if inList x reserved then None
          else Some (EIdent x, r)
      | TNum n :: r => Some (ENum n, r)
      | TStr s :: r => Some (EStr s, r)
      | TTemplate s :: r => Some (EStr s, r)
      | TLParen :: r =>
          pbind (parseExpr fuel' r) (fun e r1 =>
            match r1 with
            | TRParen :: r2 => Some (e, r2)
            | _ => None
            end)
      | TLBrace :: r =>
          pbind (parseProps fuel' r) (fun ps r1 => Some (EObject ps, r1))
      | TLBracket :: r =>
          pbind (parseList fuel' CloseBracket r) (fun es r1 => Some (EArray es, r1))
      | _ => None
      end
  end

with parsePostfix (fuel : nat) (e : expr) (ts : list token) {struct fuel}
  : parsed_ expr :=
  match fuel with
  | O => None
  | S fuel' =>
      match ts with
      | TDot :: TIdent x :: r => parsePostfix fuel' (EMember e x) r
      | TDot :: _ => None
      | TLParen :: r =>
          pbind (parseList fuel' CloseParen r) (fun args r1 =>
            parsePostfix fuel' (ECall e args) r1)
      | TTemplate _ :: _ => None        (* a tagged template *)
      | TLBracket :: _ => None          (* a computed member *)
      | _ => Some (e, ts)
      end
  end

with parseList (fuel : nat) (k : closer) (ts : list token) {struct fuel}
  : parsed_ (list expr) :=
  match fuel with
  | O => None
  | S fuel' =>
      match ts with
      | [] => None
      | t :: r =>
          if closes k t then Some ([], r)
          else
            pbind (parseExpr fuel' ts) (fun e r1 =>
              match r1 with
              | TComma :: r2 =>
                  match parseList fuel' k r2 with
                  | Some (e' :: es, r3) => Some (e :: e' :: es, r3)
                  | _ => None
                  end
              | t' :: r2 => if closes k t' then Some ([e], r2) else None
              | [] => None
              end)
      end
  end

with parseProps (fuel : nat) (ts : list token) {struct fuel}
  : parsed_ (list (string * expr)) :=
  match fuel with
  | O => None
  | S fuel' =>
      let property (key : string) (r : list token) :=
        pbind (parseExpr fuel' r) (fun e r1 =>
          match r1 with
          | TRBrace :: r2 => Some ([(key, e)], r2)
          | TComma :: r2 =>
              match parseProps fuel' r2 with
              | Some (p :: ps, r3) => Some ((key, e) :: p :: ps, r3)
              | _ => None
              end
          | _ => None
          end) in
      match ts with
      | TRBrace :: r => Some ([], r)
      | TIdent x :: TColon :: r => property x r
      | TStr s :: TColon :: r => property s r
      | TNum n :: TColon :: r => property (Z_to_string n) r
      | _ => None
      end
  end

with parseStmt (fuel : nat) (ts : list token) {struct fuel} : parsed_ stmt :=
  match fuel with
  | O => None
  | S fuel' =>
      (* the end of an expression statement: a semicolon, or one inserted
         before a closing brace and at the end of the text *)
      let terminated (s : stmt) (r : list token) : parsed_ stmt :=
        match r with
        | TSemi :: r' => Some (s, r')
        | TRBrace :: _ => Some (s, r)
        | [] => Some (s, r)
        | _ => None
        end in
      match ts with
      | TSemi :: r => Some (SEmpty, r)
      | TLBrace :: r =>
          pbind (parseStmts fuel' r) (fun body r1 =>
            match r1 with
            | TRBrace :: r2 => Some (SBlock body, r2)
            | _ => None
            end)
      | TIdent x :: r =>
          if String.eqb x "with" then
            match r with
            | TLParen :: r1 =>
                pbind (parseExpr fuel' r1) (fun e r2 =>
                  match r2 with
                  | TRParen :: r3 =>
                      pbind (parseStmt fuel' r3) (fun body r4 =>
                        Some (SWith e body, r4))
                  | _ => None
                  end)
            | _ => None
            end
          else if String.eqb x "if" then
            match r with
            | TLParen :: r1 =>
                pbind (parseExpr fuel' r1) (fun e r2 =>
                  match r2 with
                  | TRParen :: r3 =>
                      pbind (parseStmt fuel' r3) (fun s1 r4 =>
                        match r4 with
                        | TIdent y :: r5 =>
                            if String.eqb y "else" then
                              pbind (parseStmt fuel' r5) (fun s2 r6 =>
                                Some (SIf e s1 (Some s2), r6))
                            else Some (SIf e s1 None, r4)
                        | _ => Some (SIf e s1 None, r4)
                        end)
                  | _ => None
                  end)
            | _ => None
            end
          else if String.eqb x "var" then
            match r with
            | TIdent y :: TAssign :: r1 =>
                if inList y reserved then None
                else pbind (parseExpr fuel' r1) (fun e r2 =>
                       terminated (SVar y (Some e)) r2)
            | TIdent y :: r1 =>
                if inList y reserved then None
                else terminated (SVar y None) r1
            | _ => None
            end
          else if String.eqb x "return" then
            match r with
            | TSemi :: r1 => Some (SReturn None, r1)
            | TRBrace :: _ => Some (SReturn None, r)
            | [] => Some (SReturn None, r)
            | _ => pbind (parseExpr fuel' r) (fun e r1 =>
                     terminated (SReturn (Some e)) r1)
            end
          else if String.eqb x "function" then None   (* a declaration *)
          else pbind (parseExpr fuel' ts) (fun e r1 => terminated (SExpr e) r1)
      | _ => pbind (parseExpr fuel' ts) (fun e r1 => terminated (SExpr e) r1)
      end
  end

with parseStmts (fuel : nat) (ts : list token) {struct fuel}
  : parsed_ (list stmt) :=
  match fuel with
  | O => None
  | S fuel' =>
      match ts with
      | [] => Some ([], ts)
      | TRBrace :: _ => Some ([], ts)
      | _ =>
          pbind (parseStmt fuel' ts) (fun s r =>
          pbind (parseStmts fuel' r) (fun ss r' => Some (s :: ss, r')))
      end
  end.

(** The body of a function given as text: all of the text must be read. *)
Definition parseFunctionBody (source : string) : option (list stmt) :=
  match lex LNormal source with
  | Some ts =>
      match parseStmts (8 * List.length ts + 8) ts with
      | Some (body, []) => Some body
      | _ => None
      end
  | None => None
  end.

(** ** The host language: evaluation

    The store holds the objects and arrays, in the cells that were given to
    the running code and the cells it allocated since; the first given cell
    is the global object.  A scope chain lists the environment records from
    the innermost outwards: the object of a [with] statement or the
    activation record of a function, both cells of the store.  Objects have
    data properties only. *)

Inductive cell : Type :=
| CObject (props : list (string * value))
| CArray (elems : list value).

Record store : Type := mkStore {
  given : list cell;
  fresh : list cell }.

Inductive scope : Type :=
| ScopeWith (l : loc)
| ScopeFunction (l : loc).

Definition scopeCell (sc : scope) : loc :=
  match sc with
  | ScopeWith l | ScopeFunction l => l
  end.

Inductive completion : Type :=
| Normal
| Return (v : value).

Definition GLOBAL : loc := Given 0.

Fixpoint getProp (props : list (string * value)) (x : string) : option value :=
  match props with
  | [] => None
  | (y, v) :: props' => if String.eqb x y then Some v else getProp props' x
  end.

Fixpoint setProp (props : list (string * value)) (x : string) (v : value)
  : list (string * value) :=
  match props with
  | [] => [(x, v)]
  | (y, w) :: props' =>
      if String.eqb x y then (y, v) :: props' else (y, w) :: setProp props' x v
  end.

Fixpoint replaceNth (cells : list cell) (n : nat) (c : cell) : list cell :=
  match cells, n with
  | [], _ => []
  | _ :: cells', O => c :: cells'
  | c' :: cells', S n' => c' :: replaceNth cells' n' c
  end.

Definition cellAt (st : store) (l : loc) : option cell :=
  match l with
  | Given n => nth_error (given st) n
  | Fresh n => nth_error (fresh st) n
  end.

Definition update (st : store) (l : loc) (c : cell) : store :=
  match l with
  | Given n => mkStore (replaceNth (given st) n c) (fresh st)
  | Fresh n => mkStore (given st) (replaceNth (fresh st) n c)
  end.

Definition alloc (st : store) (c : cell) : loc * store :=
  (Fresh (List.length (fresh st)), mkStore (given st) (fresh st ++ [c])).

Definition objectAt (st : store) (l : loc) : option (list (string * value)) :=
  match cellAt st l with
  | Some (CObject props) => Some props
  | _ => None
  end.

(** Names every object or every activation record binds without a data
    property of its own: they resolve outside the fragment. *)
Definition implicitNames : list string :=
  [ "arguments"; "constructor"; "hasOwnProperty"; "isPrototypeOf";
    "propertyIsEnumerable"; "toLocaleString"; "toString"; "valueOf";
    "__proto__"; "__defineGetter__"; "__defineSetter__";
    "__lookupGetter__"; "__lookupSetter__" ].

(** The environment record of the chain that binds [x], if one does. *)
Fixpoint resolve (env : list scope) (st : store) (x : string) : option loc :=
  match env with
  | [] => None
  | sc :: env' =>
      match objectAt st (scopeCell sc) with
      | Some props =>
          match getProp props x with
          | Some _ => Some (scopeCell sc)
          | None => resolve env' st x
          end
      | None => resolve env' st x
      end
  end.

Definition getVar (env : list scope) (st : store) (x : string) : outcome value :=
  let l := match resolve env st x with Some l => l | None => GLOBAL end in
  match objectAt st l with
  | Some props =>
      match getProp props x with
      | Some v => Ok v
      | None =>
          if String.eqb x "undefined" then Ok VUndef
          else Throw (x ++ " is not defined")
      end
  | None => Unsupported
  end.

(** Assignment through a resolved reference; an unresolved one creates a
    property of the global object. *)
Definition putAt (target : option loc) (st : store) (x : string) (v : value)
  : outcome store :=
  let l := match target with Some l => l | None => GLOBAL end in
  match objectAt st l with
  | Some props => Ok (update st l (CObject (setProp props x v)))
  | None => Unsupported
  end.

(** The element texts [join] concatenates: nothing for [undefined] and
    [null], [String(v)] otherwise. *)
Definition joinElement (v : value) : option string :=
  match v with
  | VUndef | VNull => Some EmptyString
  | _ => String_ v
  end.

Fixpoint join (sep : string) (elems : list value) : option string :=
  match elems with
  | [] => Some EmptyString
  | [v] => joinElement v
  | v :: elems' =>
      match joinElement v, join sep elems' with
      | Some s, Some r => Some (s ++ sep ++ r)
      | _, _ => None
      end
  end.

(** A call of a value that is not a function expression of the text. *)
Definition applyValue (f : value) (args : list value) : outcome value :=
  match f with
  | VEscape =>
      match escape (hd VUndef args) with
      | Some s => Ok (VStr s)
      | None => Unsupported
      end
  | VRef _ => Unsupported
  | _ => Throw "not a function"
  end.

Fixpoint bindParams (params : list string) (args : list value)
  : list (string * value) :=
  match params with
  | [] => []
  | x :: params' =>
      setProp (bindParams params' (tl args)) x (hd VUndef args)
  end.

(** The names declared by [var] in a function body, nested functions apart. *)
Fixpoint varNames (s : stmt) : list string :=
  match s with
  | SVar x _ => [x]
  | SWith _ body => varNames body
  | SBlock body =>
      (fix all (l : list stmt) : list string :=
         match l with
         | [] => []
         | s' :: l' => (varNames s' ++ all l')%list
         end) body
  | SIf _ s1 s2 =>
      (varNames s1 ++ match s2 with Some s2' => varNames s2' | None => [] end)%list
  | _ => []
  end.

Definition declare (record : list (string * value)) (x : string)
  : list (string * value) :=
  match getProp record x with
  | Some _ => record
  | None => setProp record x VUndef
  end.

Definition activation (params : list string) (args : list value)
    (body : list stmt) : cell :=
  CObject (fold_left declare (flat_map varNames body) (bindParams params args)).

Fixpoint evalExpr (e : expr) (env : list scope) (st : store) {struct e}
  : outcome (value * store) :=
  let evalArgs :=
    fix evalArgs (args : list expr) (st : store) {struct args}
      : outcome (list value * store) :=
      match args with
      | [] => Ok ([], st)
      | a :: args' =>
          do (v, st) <- evalExpr a env st;
          do (vs, st) <- evalArgs args' st;
          Ok (v :: vs, st)
      end in
  match e with
  | EIdent x =>
      if inList x implicitNames then Unsupported
      else do v <- getVar env st x; Ok (v, st)
  | EThis => Ok (VRef GLOBAL, st)
  | ENull => Ok (VNull, st)
  | EBool b => Ok (VBool b, st)
  | ENum n => Ok (VNum n, st)
  | EStr s => Ok (VStr s, st)
  | EObject props =>
      do (record, st) <-
        (fix evalProps (ps : list (string * expr)) (record : list (string * value))
             (st : store) {struct ps} : outcome (list (string * value) * store) :=
           match ps with
           | [] => Ok (record, st)
           | (x, a) :: ps' =>
               if inList x implicitNames then Unsupported
               else do (v, st) <- evalExpr a env st;
                    evalProps ps' (setProp record x v) st
           end) props [] st;
      let (l, st) := alloc st (CObject record) in
      Ok (VRef l, st)
  | EArray elems =>
      do (vs, st) <- evalArgs elems st;
      let (l, st) := alloc st (CArray vs) in
      Ok (VRef l, st)
  | EMember a name =>
      do (v, st) <- evalExpr a env st;
      match v with
      | VRef l =>
          match objectAt st l with
          | Some props =>
              if inList name implicitNames then Unsupported
              else Ok (match getProp props name with Some w => w | None => VUndef end, st)
          | None => Unsupported
          end
      | VUndef | VNull => Throw ("Cannot read property '" ++ name ++ "'")
      | _ => Unsupported
      end
  | ECall (EFunction params body) args =>
      do (vs, st) <- evalArgs args st;
      let (l, st) := alloc st (activation params vs body) in
      do (c, st) <-
        (fix run (body : list stmt) (st : store) {struct body}
           : outcome (completion * store) :=
           match body with
           | [] => Ok (Normal, st)
           | s :: body' =>
               do (c, st) <- evalStmt s (ScopeFunction l :: env) st;
               match c with
               | Normal => run body' st
               | Return v => Ok (Return v, st)
               end
           end) body st;
      Ok (match c with Return v => v | Normal => VUndef end, st)
  | ECall (EMember a name) args =>
      do (v, st) <- evalExpr a env st;
      match v with
      | VRef l =>
          match cellAt st l with
          | Some (CArray _) =>
              if String.eqb name "push" then
                do (vs, st) <- evalArgs args st;
                match cellAt st l with
                | Some (CArray elems) =>
                    Ok (VNum (Z.of_nat (List.length (elems ++ vs))),
                        update st l (CArray (elems ++ vs)))
                | _ => Unsupported
                end
              else if String.eqb name "join" then
                do (vs, st) <- evalArgs args st;
                match cellAt st l, vs with
                | Some (CArray elems), [VStr sep] =>
                    match join sep elems with
                    | Some s => Ok (VStr s, st)
                    | None => Unsupported
                    end
                | _, _ => Unsupported
                end
              else Unsupported
          | Some (CObject props) =>
              if inList name implicitNames then Unsupported
              else
                let f := match getProp props name with Some w => w | None => VUndef end in
                do (vs, st) <- evalArgs args st;
                do r <- applyValue f vs;
                Ok (r, st)
          | None => Unsupported
          end
      | VUndef | VNull => Throw ("Cannot read property '" ++ name ++ "'")
      | _ => Unsupported
      end
  | ECall f args =>
      do (fv, st) <- evalExpr f env st;
      do (vs, st) <- evalArgs args st;
      do r <- applyValue fv vs;
      Ok (r, st)
  | EFunction _ _ => Unsupported
  | EOr a b =>
      do (v, st) <- evalExpr a env st;
      if truthy v then Ok (v, st) else evalExpr b env st
  | EAssign (EIdent x) b =>
      if inList x implicitNames || String.eqb x "undefined" then Unsupported
      else
        let target := resolve env st x in
        do (v, st) <- evalExpr b env st;
        do st <- putAt target st x v;
        Ok (v, st)
  | EAssign (EMember a name) b =>
      do (o, st) <- evalExpr a env st;
      do (v, st) <- evalExpr b env st;
      match o with
      | VRef l =>
          if inList name implicitNames then Unsupported
          else do st <- putAt (Some l) st name v; Ok (v, st)
      | VUndef | VNull => Throw ("Cannot set property '" ++ name ++ "'")
      | _ => Unsupported
      end
  | EAssign _ _ => Unsupported
  end

with evalStmt (s : stmt) (env : list scope) (st : store) {struct s}
  : outcome (completion * store) :=
  match s with
  | SEmpty => Ok (Normal, st)
  | SExpr e => do (_, st) <- evalExpr e env st; Ok (Normal, st)
  | SVar x None => Ok (Normal, st)
  | SVar x (Some e) =>           (* the initialiser is the assignment [x = e] *)
      if inList x implicitNames || String.eqb x "undefined" then Unsupported
      else
        let target := resolve env st x in
        do (v, st) <- evalExpr e env st;
        do st <- putAt target st x v;
        Ok (Normal, st)
  | SReturn None => Ok (Return VUndef, st)
  | SReturn (Some e) => do (v, st) <- evalExpr e env st; Ok (Return v, st)
  | SWith e body =>
      do (v, st) <- evalExpr e env st;
      match v with
      | VRef l =>
          match objectAt st l with
          | Some _ => evalStmt body (ScopeWith l :: env) st
          | None => Unsupported
          end
      | VUndef | VNull => Throw "Cannot convert undefined or null to object"
      | _ => Unsupported
      end
  | SBlock body =>
      (fix run (body : list stmt) (st : store) {struct body}
         : outcome (completion * store) :=
         match body with
         | [] => Ok (Normal, st)
         | s' :: body' =>
             do (c, st) <- evalStmt s' env st;
             match c with
             | Normal => run body' st
             | Return v => Ok (Return v, st)
             end
         end) body st
  | SIf e s1 s2 =>
      do (v, st) <- evalExpr e env st;
      if truthy v then evalStmt s1 env st
      else match s2 with
           | Some s2' => evalStmt s2' env st
           | None => Ok (Normal, st)
           end
  end.

(** ** Compiling and rendering *)

(** The source given to [new Function]. *)
Definition wrap (parsed : string) : string :=
  "var $buffer=[];(function($buffer,$locals){" ++ parsed
    ++ "})($buffer,$locals);return $buffer.join(``);".

(** A function made by [new Function(params, source)]: its body must parse. *)
Record CompiledTemplate : Type := mkTemplate {
  params : list string;
  source : string;
  body : list stmt }.

Definition newFunction (params : list string) (source : string)
  : outcome CompiledTemplate :=
  match parseFunctionBody source with
  | Some body => Ok (mkTemplate params source body)
  | None => Unsupported
  end.

Section Compile.

Variable loadFile : Loader.

(** [compileTemplate(unparsed, options)]; the result is the function, to
    which [escape] is bound when it is called ([callTemplate]). *)
Definition compileTemplate (fuel : nat) (unparsed : string)
    (options : option PartialOptions.t) : outcome CompiledTemplate :=
  let options := handleOptions loadFile options in
  do parsed <- parseTemplate fuel unparsed options;
  newFunction ["$xml"; "$locals"] (wrap parsed).

Definition loadAndCompileTemplate (fuel : nat) (templateName : string)
    (options : option PartialOptions.t) : outcome CompiledTemplate :=
  let options := handleOptions loadFile options in
  do parsed <- getTemplate fuel options templateName;
  newFunction ["$xml"; "$locals"] (wrap parsed).

End Compile.

(** A call [f(args)] of a function made by [new Function], in the global
    scope. *)
Definition callFunction (f : CompiledTemplate) (args : list value) (st : store)
  : outcome (value * store) :=
  let (l, st) := alloc st (activation (params f) args (body f)) in
  do (c, st) <- evalStmt (SBlock (body f)) [ScopeFunction l] st;
  Ok (match c with Return v => v | Normal => VUndef end, st).

(** [template(locals)] where [template] is the compiled function with
    [escape] bound to its first parameter. *)
Definition callTemplate (template : CompiledTemplate) (locals : value) (st : store)
  : outcome (value * store) :=
  callFunction template [VEscape; locals] st.

(** The rendered text alone. *)
Definition render (template : CompiledTemplate) (locals : value) (st : store)
  : outcome string :=
  do (v, _) <- callTemplate template locals st;
  match v with
  | VStr s => Ok s
  | _ => Unsupported
  end.

(** The store of a program with no global variable and no object. *)
Definition emptyStore : store := mkStore [CObject []] [].

(** ** Notions the statements below are written with *)

(** The text the literal branches of the loop of [parseTemplate] append for
    one code unit. *)
Definition literalChar (c : ascii) : string :=
  match c with
  | "\"%char => "\\"
  | "`"%char => "\`"
  | "$"%char => "\$"
  | _ => String c EmptyString
  end.

Definition escapeLiteral (s : string) : string := replaceEach literalChar s.

(** The value of a template literal whose characters are those of [s]: the
    line terminator sequences CR LF and CR are the code unit LF. *)
Fixpoint cooked (afterCR : bool) (s : string) : string :=
  match s with
  | EmptyString => EmptyString
  | String c s' =>
      if Ascii.eqb c CR then String LF (cooked true s')
      else if Ascii.eqb c LF then
        if afterCR then cooked false s' else String LF (cooked false s')
      else String c (cooked false s')
  end.

Fixpoint mentions (c : ascii) (s : string) : bool :=
  match s with
  | EmptyString => false
  | String c' s' => Ascii.eqb c c' || mentions c s'
  end.

(** The kinds of tag the [switch] of [parseTemplate] tells apart, in the
    order of its cases. *)
Inductive kind : Type := KComment | KEscape | KUnescape | KImport | KCode.

Definition tagKind (d : DelimiterOptions.t) (c : option ascii) : kind :=
  if isCase c (DelimiterOptions.comment d) then KComment
  else if isCase c (DelimiterOptions.escape d) then KEscape
  else if isCase c (DelimiterOptions.unescape d) then KUnescape
  else if isCase c (DelimiterOptions.import d) then KImport
  else KCode.

(** The close marker [tagContents] is asked to find for a tag. *)
Definition closeMarker (d : DelimiterOptions.t) (k : kind) : string :=
  match k with
  | KComment => DelimiterOptions.comment d ++ DelimiterOptions.close d
  | _ => DelimiterOptions.close d
  end.

(** How far the cursor moves past the open delimiter before the search. *)
Definition markerWidth (k : kind) : nat :=
  match k with
  | KComment | KCode => 0
  | KEscape | KUnescape | KImport => 1
  end.

Definition unterminated (endTag : string) : string :=
  "Could not find matching close tag '" ++ endTag ++ "'.".

(** The statements of the generated code. *)
Definition push (args : list expr) : stmt :=
  SExpr (ECall (EMember (EIdent "$buffer") "push") args).

Definition scoped (body : list stmt) : expr :=
  EFunction ["$buffer"; "$locals"]
    [SWith (EOr (EIdent "$locals") (EObject [])) (SBlock body)].

(** The body of the function [compileTemplate] makes, around the statements
    of the template. *)
Definition wrapped (body : list stmt) : list stmt :=
  [ SVar "$buffer" (Some (EArray []));
    SExpr (ECall (scoped body) [EIdent "$buffer"; EIdent "$locals"]);
    SReturn (Some (ECall (EMember (EIdent "$buffer") "join") [EStr EmptyString])) ].

(** The lexer run over a prefix of the text: the tokens completed and the
    mode reached. *)
Fixpoint lexRun (m : lexmode) (s : string) : option (list token * lexmode) :=
  match s with
  | EmptyString => Some ([], m)
  | String c s' =>
      match lexStep m c with
      | Some (ts, m') => after ts (lexRun m' s')
      | None => None
      end
  end.

(** Locals a template can be called with: none (a falsy value), or an
    object of the store that binds no property named as the output buffer. *)
Definition usable (st : store) (locals : value) : Prop :=
  truthy locals = false
  \/ exists l props, locals = VRef l /\ objectAt st l = Some props
                     /\ getProp props "$buffer" = None.

(** ** Generated code, piece by piece *)

(** What a tag of kind [k] with body [body] adds to [parsed], given the code
    of the imported template for an import tag. *)
Definition tagCode (k : kind) (body child : string) : string :=
  match k with
  | KComment => EmptyString
  | KEscape => "`,$xml(" ++ body ++ "),`"
  | KUnescape => "`,(" ++ body ++ "),`"
  | KImport =>
      "`,`" ++ "`);(function($buffer,$locals){" ++ child ++ "})($buffer,"
        ++ importLocals (JS.split "|" body) ++ ");$buffer.push(`"
  | KCode => "`);" ++ body ++ ";$buffer.push(`"
  end.

Definition importName (body : string) : string :=
  JS.trim (nth 0 (JS.split "|" body) EmptyString).

(** The code generated for an import tag: a function of its own, called at
    once, within the [with] block of the importer, on the importer's buffer
    and on the locals expression, or on the importer's locals when the tag
    gives none. *)
Definition importCode (child locals : string) : string :=
  "`,``);(function($buffer,$locals){" ++ child ++ "})($buffer," ++ locals
    ++ ");$buffer.push(`".

(** The text of the function around the first template literal. *)
Definition BEFORE : string :=
  "var $buffer=[];(function($buffer,$locals){" ++ HEADER.

Definition AFTER : string :=
  ");}" ++ "})($buffer,$locals);return $buffer.join(``);".

(** Two calls in a row of a compiled template with the same locals: the
    second is made in the store the first left. *)
Definition renderTwice (template : CompiledTemplate) (locals : value) (st : store)
  : outcome (value * value) :=
  do (first, st) <- callTemplate template locals st;
  do (second, _) <- callTemplate template locals st;
  Ok (first, second).

(** ** Inputs of the examples *)

(** A loader that finds no file. *)
Definition noFile : Loader := fun name => Throw ("ENOENT: " ++ name).

(** A loader for the examples. *)
Definition exampleLoader : Loader :=
  fun name =>
    if String.eqb name "world" then Ok "World"
    else if String.eqb name "child" then Ok "[<%- x %>]"
    else if String.eqb name "rename" then Ok "<% x = 'new' %>"
    else Throw ("ENOENT: " ++ name).

(** Options with one property set. *)
Definition withDelimiters (d : PartialDelimiters.t) : PartialOptions.t :=
  PartialOptions.mk None None (Some d) None None None None.

Definition withCache (c : value) : PartialOptions.t :=
  PartialOptions.mk None None None None None (Some c) None.

Definition percentBoth : PartialDelimiters.t :=
  PartialDelimiters.mk (Some "%") (Some "%") None None None None.

Definition CACHE_UNIMPLEMENTED : string := "The template cache is unimplemented".

(** The characters [escape] replaces. *)
Definition entityChars : list ascii := ["<"; ">"; "&"; "'"; "034"]%char.

(** ** Expressions that only read *)

(** Expressions that read variables and data properties and write nothing:
    no assignment, no object or array made, no call but of [$xml] on one
    argument, and no mention of the output buffer. *)
Fixpoint readOnly (e : expr) : bool :=
  match e with
  | EIdent x => negb (String.eqb x "$buffer")
  | EThis | ENull | EBool _ | ENum _ | EStr _ => true
  | EMember a _ => readOnly a
  | EOr a b => readOnly a && readOnly b
  | ECall (EIdent f) [a] => String.eqb f "$xml" && readOnly a
  | _ => false
  end.

(** Values and cells that hold no reference to a cell allocated by running
    code. *)
Definition closedValue (v : value) : bool :=
  match v with
  | VRef (Fresh _) => false
  | _ => true
  end.

Definition closedCell (c : cell) : bool :=
  match c with
  | CObject props => forallb (fun p => closedValue (snd p)) props
  | CArray elems => forallb closedValue elems
  end.

(** The value of a read-only expression, from the values [lookup] gives to
    the variables and from the given cells. *)
Fixpoint readValue (cells : list cell) (lookup : string -> outcome value)
    (e : expr) : outcome value :=
  match e with
  | EIdent x => if inList x implicitNames then Unsupported else lookup x
  | EThis => Ok (VRef GLOBAL)
  | ENull => Ok VNull
  | EBool b => Ok (VBool b)
  | ENum n => Ok (VNum n)
  | EStr s => Ok (VStr s)
  | EMember a name =>
      do v <- readValue cells lookup a;
      match v with
      | VRef (Given l) =>
          match nth_error cells l with
          | Some (CObject props) =>
              if inList name implicitNames then Unsupported
              else Ok (match getProp props name with Some w => w | None => VUndef end)
          | _ => Unsupported
          end
      | VRef (Fresh _) => Unsupported
      | VUndef | VNull => Throw ("Cannot read property '" ++ name ++ "'")
      | _ => Unsupported
      end
  | EOr a b =>
      do v <- readValue cells lookup a;
      if truthy v then Ok v else readValue cells lookup b
  | ECall (EIdent f) [a] =>
      do fv <- (if inList f implicitNames then Unsupported else lookup f);
      do v <- readValue cells lookup a;
      applyValue fv [v]
  | _ => Unsupported
  end.

Fixpoint readValues (cells : list cell) (lookup : string -> outcome value)
    (args : list expr) : outcome (list value) :=
  match args with
  | [] => Ok []
  | a :: args' =>
      do v <- readValue cells lookup a;
      do vs <- readValues cells lookup args';
      Ok (v :: vs)
  end.

(** The arguments of a call, evaluated from left to right, as [evalExpr]
    does. *)
Definition evalList (env : list scope)
  : list expr -> store -> outcome (list value * store) :=
  fix evalArgs (args : list expr) (st : store) {struct args}
    : outcome (list value * store) :=
    match args with
    | [] => Ok ([], st)
    | a :: args' =>
        do (v, st) <- evalExpr a env st;
        do (vs, st) <- evalArgs args' st;
        Ok (v :: vs, st)
    end.

(** The scope chain [env] in the store [st] gives the variables the values
    [lookup] gives them, over the given cells [cells]. *)
Definition agrees (cells : list cell) (lookup : string -> outcome value)
    (env : list scope) (st : store) : Prop :=
  given st = cells
  /\ forall x, x <> "$buffer" -> inList x implicitNames = false ->
               getVar env st x = lookup x.

(** The properties of the locals object, when the locals are an object the
    caller made. *)
Definition ownProps (cells : list cell) (locals : value) : list (string * value) :=
  match locals with
  | VRef (Given l) =>
      match nth_error cells l with
      | Some (CObject props) => props
      | _ => []
      end
  | _ => []
  end.

(** What a variable other than the output buffer denotes in the code of a
    template, where it is not assigned: a property of the locals, else a
    parameter of the compiled function, else a global variable. *)
Definition templateLookup (cells : list cell) (locals : value) (x : string)
  : outcome value :=
  match getProp (ownProps cells locals) x with
  | Some v => Ok v
  | None =>
      if String.eqb x "$locals" then Ok locals
      else if String.eqb x "$xml" then Ok VEscape
      else match nth_error cells 0 with
           | Some (CObject globals) =>
               match getProp globals x with
               | Some v => Ok v
               | None =>
                   if String.eqb x "undefined" then Ok VUndef
                   else Throw (x ++ " is not defined")
               end
           | _ => Unsupported
           end
  end.

(** ** Notions of the further properties *)

Definition markupChars : list ascii := ["<"; ">"; "'"; "034"]%char.

Definition entities : list string := ["&lt;"; "&gt;"; "&amp;"; "&apos;"; "&quot;"].

(** An [Options] object given where [Partial<Options>] is expected, as
    [Template] gives its own to [compileTemplate]: every property is
    present. *)
Definition allDelimiters (d : DelimiterOptions.t) : PartialDelimiters.t :=
  PartialDelimiters.mk
    (Some (DelimiterOptions.open d)) (Some (DelimiterOptions.close d))
    (Some (DelimiterOptions.escape d)) (Some (DelimiterOptions.unescape d))
    (Some (DelimiterOptions.import d)) (Some (DelimiterOptions.comment d)).

Definition allOptions (o : Options.t) : PartialOptions.t :=
  PartialOptions.mk
    (Some (Options.base o)) (Some (Options.ext o))
    (Some (allDelimiters (Options.delimiters o)))
    (Some (Options.escape o)) (Some (Options.loadFile o))
    (Some (Options.cache o)) (Some (Options.minify o)).

Definition withMinify (m : Minify) : PartialOptions.t :=
  PartialOptions.mk None None None None None None (Some m).

(** ** Templates as sequences of segments *)

(** A template as its author reads it: runs of literal text and tags.  The
    body of a tag is the text [tagContents] returns for it; [child] is the
    code of the imported template, for an import tag. *)
Inductive segment : Type :=
| Literal (text : string)
| Tag (k : kind) (body child : string).

(** What stands between the open delimiter and the body of a tag.  The
    comment delimiter that opens a comment is part of what [tagContents]
    searches, and so of the body. *)
Definition marker (d : DelimiterOptions.t) (k : kind) : string :=
  match k with
  | KComment | KCode => EmptyString
  | KEscape => DelimiterOptions.escape d
  | KUnescape => DelimiterOptions.unescape d
  | KImport => DelimiterOptions.import d
  end.

Definition segmentText (d : DelimiterOptions.t) (s : segment) : string :=
  match s with
  | Literal text => text
  | Tag k body _ =>
      DelimiterOptions.open d ++ marker d k ++ body ++ closeMarker d k
  end.

Definition segmentCode (s : segment) : string :=
  match s with
  | Literal text => escapeLiteral text
  | Tag k body child => tagCode k body child
  end.

Fixpoint templateText (d : DelimiterOptions.t) (l : list segment) : string :=
  match l with
  | [] => EmptyString
  | s :: l' => segmentText d s ++ templateText d l'
  end.

Fixpoint templateCode (l : list segment) : string :=
  match l with
  | [] => EmptyString
  | s :: l' => segmentCode s ++ templateCode l'
  end.

(** No occurrence of [pat] starts at one of the first [n] positions of [s]. *)
Fixpoint startsNone (pat : string) (n : nat) (s : string) : bool :=
  match n with
  | O => true
  | S n' =>
      negb (String.prefix pat s)
      && match s with
         | String _ s' => startsNone pat n' s'
         | EmptyString => true
         end
  end.

(** The segments are the ones the scanner finds in their text: no open
    delimiter starts within a literal run; the character after the open
    delimiter of a tag selects its kind; the close marker of a tag first
    occurs at the end of its body; a tag is not empty text; and the loader
    gives the imported template, whose code is [child], with fuel [f]. *)
Fixpoint wellFormed (f : nat) (options : Options.t) (l : list segment) : Prop :=
  let d := Options.delimiters options in
  match l with
  | [] => True
  | Literal text :: l' =>
      startsNone (DelimiterOptions.open d) (String.length text)
        (text ++ templateText d l') = true
      /\ wellFormed f options l'
  | Tag k body child :: l' =>
      tagKind d (JS.head (marker d k ++ body ++ closeMarker d k ++ templateText d l')) = k
      /\ JS.search (closeMarker d k) (body ++ closeMarker d k) 0
         = Some (String.length body)
      /\ segmentText d (Tag k body child) <> EmptyString
      /\ (k = KImport -> getTemplate f options (importName body) = Ok child)
      /\ wellFormed f options l'
  end.

(** Two delimiters of a tag kind that the [switch] of [parseTemplate] cannot
    tell apart: the same string, or two strings that are not one code unit
    long, which no [unparsed[i]] equals. *)
Definition sameMarker (m1 m2 : string) : Prop :=
  m1 = m2 \/ (String.length m1 <> 1%nat /\ String.length m2 <> 1%nat).

(** Options between which the scanner sees no difference. *)
Definition sameScan (o1 o2 : Options.t) : Prop :=
  let d1 := Options.delimiters o1 in
  let d2 := Options.delimiters o2 in
  DelimiterOptions.open d1 = DelimiterOptions.open d2
  /\ DelimiterOptions.close d1 = DelimiterOptions.close d2
  /\ sameMarker (DelimiterOptions.comment d1) (DelimiterOptions.comment d2)
  /\ sameMarker (DelimiterOptions.escape d1) (DelimiterOptions.escape d2)
  /\ sameMarker (DelimiterOptions.unescape d1) (DelimiterOptions.unescape d2)
  /\ sameMarker (DelimiterOptions.import d1) (DelimiterOptions.import d2)
  /\ Options.loadFile o1 = Options.loadFile o2
  /\ truthy (Options.cache o1) = truthy (Options.cache o2).

(** Options that differ at most in delimiters of tag kinds that the [switch]
    of [parseTemplate] cannot tell apart; every other property, [base] and
    [ext] that the default loader reads included, is the same. *)
Definition sameButUnmatchedMarkers (o1 o2 : Options.t) : Prop :=
  let d1 := Options.delimiters o1 in
  let d2 := Options.delimiters o2 in
  Options.base o1 = Options.base o2
  /\ Options.ext o1 = Options.ext o2
  /\ Options.escape o1 = Options.escape o2
  /\ Options.loadFile o1 = Options.loadFile o2
  /\ Options.cache o1 = Options.cache o2
  /\ Options.minify o1 = Options.minify o2
  /\ DelimiterOptions.open d1 = DelimiterOptions.open d2
  /\ DelimiterOptions.close d1 = DelimiterOptions.close d2
  /\ sameMarker (DelimiterOptions.comment d1) (DelimiterOptions.comment d2)
  /\ sameMarker (DelimiterOptions.escape d1) (DelimiterOptions.escape d2)
  /\ sameMarker (DelimiterOptions.unescape d1) (DelimiterOptions.unescape d2)
  /\ sameMarker (DelimiterOptions.import d1) (DelimiterOptions.import d2).

(** [n] copies of a string, one after the other. *)
Fixpoint copies (n : nat) (s : string) : string :=
  match n with
  | O => EmptyString
  | S n' => s ++ copies n' s
  end.

(** The caller's options with other [escape] and [minify] properties. *)
Definition withEscapeAndMinify (escape : option (value -> option string))
    (minify : option Minify) (o : PartialOptions.t) : PartialOptions.t :=
  PartialOptions.mk (PartialOptions.base o) (PartialOptions.ext o)
    (PartialOptions.delimiters o) escape (PartialOptions.loadFile o)
    (PartialOptions.cache o) minify.

(** The caller's delimiters with another delimiter for escaped output. *)
Definition withEscapeDelimiter (marker : string) (d : DelimiterOptions.t)
  : DelimiterOptions.t :=
  DelimiterOptions.mk (DelimiterOptions.open d) (DelimiterOptions.close d)
    marker (DelimiterOptions.unescape d) (DelimiterOptions.import d)
    (DelimiterOptions.comment d).

Definition withDelimiterOptions (d : DelimiterOptions.t) (o : Options.t) : Options.t :=
  Options.mk (Options.base o) (Options.ext o) d (Options.escape o)
    (Options.loadFile o) (Options.cache o) (Options.minify o).

(** A loader whose one template imports itself. *)
Definition loopLoader : Loader :=
  fun name =>
    if String.eqb name "loop" then Ok "again <%+ loop %>"
    else Throw ("ENOENT: " ++ name).

(** Options with an empty open and an empty close delimiter. *)
Definition emptyBoth : PartialDelimiters.t :=
  PartialDelimiters.mk (Some EmptyString) (Some EmptyString) None None None None.

(** The segments of a conditional written with code tags around two runs of
    text. *)
Definition conditional (pre yes no post : string) : list segment :=
  [ Literal pre; Tag KCode " if (c) { " EmptyString; Literal yes;
    Tag KCode " } else { " EmptyString; Literal no;
    Tag KCode " } " EmptyString; Literal post ].

(** ** The gulp plugin

    [Template] makes the transform gulp pipes files through.  A file is seen
    through [isNull], [isBuffer] and [isStream], and the contents of a
    buffer as the text they decode to; what the transform does on a stream
    is outside the fragment.  The html-minifier library is a parameter. *)

Definition PLUGIN_NAME : string := "gulp-static-html".

Inductive File : Type :=
| NullFile
| BufferFile (contents : string)
| StreamFile.

(** What the transform gives its callback: the file, or a plugin error. *)
Inductive Callback : Type :=
| Passed (file : File)
| PluginError (plugin message : string).

(** [Partial<Options> & { locals?: any }] *)
Module TemplateOptions.
Record t : Type := mk {
  options : PartialOptions.t;
  locals : option value }.
End TemplateOptions.

Definition TemplatePipe : Type := nat -> File -> store -> outcome Callback.

(** The handler given to [catch]: the error of the promise becomes a plugin
    error with its message. *)
Definition catch (promise : outcome Callback) : outcome Callback :=
  match promise with
  | Throw message => Ok (PluginError PLUGIN_NAME message)
  | r => r
  end.

Section Plugin.

Variable loadFile : Loader.

(** [htmlmin.minify(result, options)] *)
Variable minify : string -> Minify -> outcome string.

Definition renderToBuffer (options : Options.t) (locals : value)
    (fuel : nat) (contents : string) (st : store) : outcome Callback :=
  catch
    (do templateFn <- compileTemplate loadFile fuel contents (Some (allOptions options));
     do result <- render templateFn locals st;
     do result <- (if minifyTruthy (Options.minify options)
                   then minify result (Options.minify options)
                   else Ok result);
     Ok (Passed (BufferFile result))).

Definition impl (options : Options.t) (locals : value) : TemplatePipe :=
  fun fuel file st =>
    match file with
    | NullFile => Ok (Passed file)
    | BufferFile contents => renderToBuffer options locals fuel contents st
    | StreamFile => Unsupported
    end.

(** [Template(options)]: the transform when the options hold truthy locals,
    a function from locals to the transform otherwise. *)
Definition Template (options : option TemplateOptions.t)
  : TemplatePipe + (value -> TemplatePipe) :=
  let locals :=
    match options with
    | Some o =>
        match TemplateOptions.locals o with
        | Some v => if truthy v then Some v else None
        | None => None
        end
    | None => None
    end in
  let options := handleOptions loadFile (option_map TemplateOptions.options options) in
  match locals with
  | Some v => inl (impl options v)
  | None => inr (impl options)
  end.

(** The transform in use, the locals being given to the function
    [Template] returned when the options held none. *)
Definition pipeOf (made : TemplatePipe + (value -> TemplatePipe)) (locals : value)
  : TemplatePipe :=
  match made with
  | inl pipe => pipe
  | inr withLocals => withLocals locals
  end.

End Plugin.

(** A minifier for the examples: it removes the spaces. *)
Fixpoint withoutSpaces (s : string) : string :=
  match s with
  | EmptyString => EmptyString
  | String c s' =>
      if Ascii.eqb c " " then withoutSpaces s' else String c (withoutSpaces s')
  end.

Definition exampleMinify : string -> Minify -> outcome string :=
  fun s _ => Ok (withoutSpaces s).

(** The segments of a template that imports another between two runs of
    text, the imported template being literal text. *)
Definition importing (pre name child post : string) : list segment :=
  [ Literal pre; Tag KImport name (HEADER ++ escapeLiteral child ++ FOOTER);
    Literal post ].

(** The segments of a template that writes [x] between two runs of text. *)
Definition writing (pre post : string) : list segment :=
  [ Literal pre; Tag KUnescape " x " EmptyString; Literal post ].

(** The segments of a template that assigns to [x] between two runs of
    text. *)
Definition assigning (pre post : string) : list segment :=
  [ Literal pre; Tag KCode " x = 'new' " EmptyString; Literal post ].

(** The segments of a template that imports with the tag body [body] a
    template whose code is [child], and then writes [x]. *)
Definition importingThenWriting (pre body child mid post : string) : list segment :=
  [ Literal pre; Tag KImport body child; Literal mid;
    Tag KUnescape " x " EmptyString; Literal post ].

(** A store whose locals bind [a] to [null] and [b] to an object that binds
    [x]. *)
Definition pipeStore : store :=
  mkStore [ CObject [];
            CObject [("a", VNull); ("b", VRef (Given 2))];
            CObject [("x", VNum 1)] ] [].


(** No import tag among the segments. *)
Definition importFree (l : list segment) : bool :=
  forallb (fun s => match s with
                    | Tag KImport _ _ => false
                    | _ => true
                    end) l.

(** Options with another loader and another cache. *)
Definition withLoaderAndCache (loadFile : Loader) (cache : value) (o : Options.t)
  : Options.t :=
  Options.mk (Options.base o) (Options.ext o) (Options.delimiters o)
    (Options.escape o) loadFile cache (Options.minify o).

(** * Theorems *)

(** * Facts about the string primitives *)

Section StringFacts.

Lemma append_assoc (a b c : string) : (a ++ b) ++ c = a ++ (b ++ c).
Proof. induction a as [|x a IH]; simpl; [reflexivity | now rewrite IH]. Qed.

Lemma append_empty_r (a : string) : a ++ EmptyString = a.
Proof. induction a as [|x a IH]; simpl; [reflexivity | now rewrite IH]. Qed.

Lemma length_append (a b : string) :
  String.length (a ++ b) = (String.length a + String.length b)%nat.
Proof. induction a as [|x a IH]; simpl; [reflexivity | now rewrite IH]. Qed.

Lemma len_append (a b : string) : JS.len (a ++ b) = JS.len a + JS.len b.
Proof. unfold JS.len. rewrite length_append. lia. Qed.

Lemma len_nonneg (a : string) : 0 <= JS.len a.
Proof. unfold JS.len. lia. Qed.

Lemma length_drop (n : nat) (s : string) :
  String.length (JS.drop n s) = (String.length s - n)%nat.
Proof.
  revert s; induction n as [|n IH]; intros [|c s]; simpl; try lia.
  apply IH.
Qed.

Lemma length_take (n : nat) (s : string) :
  String.length (JS.take n s) = Nat.min n (String.length s).
Proof.
  revert s; induction n as [|n IH]; intros [|c s]; simpl; try lia.
  now rewrite IH.
Qed.

Lemma take_drop (n : nat) (s : string) : JS.take n s ++ JS.drop n s = s.
Proof.
  revert s; induction n as [|n IH]; intros [|c s]; simpl; try reflexivity.
  now rewrite IH.
Qed.

Lemma take_min (n : nat) (s : string) :
  JS.take (Nat.min n (String.length s)) s = JS.take n s.
Proof.
  revert s; induction n as [|n IH]; intros [|c s]; simpl; try reflexivity.
  now rewrite IH.
Qed.

Lemma drop_all (n : nat) (s : string) :
  (String.length s <= n)%nat -> JS.drop n s = EmptyString.
Proof.
  revert s; induction n as [|n IH]; intros [|c s]; simpl; intros H;
    try reflexivity; try lia.
  apply IH; lia.
Qed.

Lemma drop_drop (n m : nat) (s : string) :
  JS.drop n (JS.drop m s) = JS.drop (m + n) s.
Proof.
  revert s; induction m as [|m IH]; intros s; [reflexivity|].
  destruct s as [|c s]; simpl; [now destruct n | apply IH].
Qed.

Lemma drop_append (a b : string) (k : nat) :
  JS.drop (String.length a + k) (a ++ b) = JS.drop k b.
Proof. induction a as [|x a IH]; simpl; [reflexivity | exact IH]. Qed.

Lemma drop_append_length (a b : string) : JS.drop (String.length a) (a ++ b) = b.
Proof. induction a as [|x a IH]; simpl; [reflexivity | exact IH]. Qed.

Lemma take_append (a b : string) : JS.take (String.length a) (a ++ b) = a.
Proof. induction a as [|x a IH]; simpl; [reflexivity | now rewrite IH]. Qed.

Lemma get_append (a b : string) :
  String.get (String.length a) (a ++ b) = JS.head b.
Proof.
  induction a as [|x a IH]; simpl; [now destruct b | exact IH].
Qed.

Lemma head_drop (n : nat) (s : string) : JS.head (JS.drop n s) = String.get n s.
Proof.
  revert s; induction n as [|n IH]; intros [|c s]; simpl; try reflexivity.
  apply IH.
Qed.

Lemma prefix_take (p s : string) :
  String.prefix p s = true <-> JS.take (String.length p) s = p.
Proof.
  revert p; induction s as [|b s IH]; intros [|a p]; simpl;
    try (split; intro H; first [reflexivity | discriminate H]).
  destruct (ascii_dec a b) as [->|Hne].
  - rewrite IH. split; intros H.
    + now rewrite H.
    + now injection H.
  - split; intros H; [discriminate H | injection H as H1 H2; congruence].
Qed.

Lemma prefix_empty (s : string) : String.prefix EmptyString s = true.
Proof. now destruct s. Qed.

Lemma prefix_append (p s : string) : String.prefix p (p ++ s) = true.
Proof. apply prefix_take, take_append. Qed.

Lemma prefix_length (p s : string) :
  String.prefix p s = true -> (String.length p <= String.length s)%nat.
Proof.
  intros H. apply prefix_take in H.
  rewrite <- H at 1. rewrite length_take. lia.
Qed.

(** A place far enough from the end sees the same text after an append. *)
Lemma prefix_within (p s t : string) (k : nat) :
  (k + String.length p <= String.length s)%nat ->
  String.prefix p (JS.drop k (s ++ t)) = String.prefix p (JS.drop k s).
Proof.
  revert s; induction k as [|k IH]; intros s H.
  - simpl. revert p H. induction s as [|b s IHs]; intros [|a p] H; simpl in *;
      try reflexivity; try lia.
    + now destruct t.
    + destruct (ascii_dec a b); [apply IHs; lia | reflexivity].
  - destruct s as [|b s]; simpl in *; [lia | apply IH; lia].
Qed.

Lemma search_shift (pat s : string) :
  forall pos : nat,
    JS.search pat s pos = option_map (Nat.add pos) (JS.search pat s 0).
Proof.
  induction s as [|c s IH]; intros pos.
  - cbn [JS.search]. destruct (String.prefix pat EmptyString); cbn [option_map];
      [now rewrite Nat.add_0_r | reflexivity].
  - cbn [JS.search]. destruct (String.prefix pat (String c s)); cbn [option_map];
      [now rewrite Nat.add_0_r|].
    rewrite (IH (S pos)), (IH 1%nat).
    destruct (JS.search pat s 0); cbn [option_map]; [f_equal; lia | reflexivity].
Qed.

Lemma search_some (pat s : string) (e : nat) :
  JS.search pat s 0 = Some e ->
  (e + String.length pat <= String.length s)%nat
  /\ String.prefix pat (JS.drop e s) = true
  /\ forall k : nat, (k < e)%nat -> String.prefix pat (JS.drop k s) = false.
Proof.
  revert e; induction s as [|c s IH]; intros e; cbn [JS.search].
  - destruct (String.prefix pat EmptyString) eqn:E; [|discriminate].
    intros [= <-]. repeat split; [|exact E|intros; lia].
    apply prefix_length in E. cbn [JS.drop String.length] in *. lia.
  - destruct (String.prefix pat (String c s)) eqn:E.
    + intros [= <-]. repeat split; [|exact E|intros; lia].
      apply prefix_length in E. cbn [JS.drop String.length] in *. lia.
    + rewrite search_shift. destruct (JS.search pat s 0) as [e'|]; [|discriminate].
      cbn [option_map]. intros [= <-]. destruct (IH e' eq_refl) as (H1 & H2 & H3).
      cbn [Nat.add JS.drop String.length].
      repeat split; [lia | exact H2 |].
      intros [|k] Hk; cbn [JS.drop]; [exact E | apply H3; lia].
Qed.

Lemma search_none (pat s : string) :
  JS.search pat s 0 = None ->
  forall k : nat, String.prefix pat (JS.drop k s) = false.
Proof.
  induction s as [|c s IH]; cbn [JS.search].
  - destruct (String.prefix pat EmptyString) eqn:E; [discriminate|].
    intros _ [|k]; exact E.
  - destruct (String.prefix pat (String c s)) eqn:E; [discriminate|].
    rewrite search_shift. destruct (JS.search pat s 0); [discriminate|].
    intros _ [|k]; cbn [JS.drop]; [exact E | now apply IH].
Qed.

Lemma search_found (pat s : string) (e : nat) :
  String.prefix pat (JS.drop e s) = true ->
  (e <= String.length s)%nat ->
  (forall k : nat, (k < e)%nat -> String.prefix pat (JS.drop k s) = false) ->
  JS.search pat s 0 = Some e.
Proof.
  revert s; induction e as [|e IH]; intros s H1 H2 H3.
  - cbn [JS.drop] in H1. destruct s; cbn [JS.search]; now rewrite H1.
  - destruct s as [|c s]; cbn [JS.drop String.length] in *; [lia|].
    cbn [JS.search]. assert (H0 := H3 0%nat). cbn [JS.drop] in H0.
    rewrite H0 by lia. rewrite search_shift.
    rewrite (IH s); [reflexivity | exact H1 | lia |].
    intros k Hk. apply (H3 (S k)). lia.
Qed.

(** The first occurrence within [s ++ pat] stays the first after an append. *)
Lemma search_append (pat s t : string) (e : nat) :
  JS.search pat s 0 = Some e -> JS.search pat (s ++ t) 0 = Some e.
Proof.
  intros H. destruct (search_some _ _ _ H) as (H1 & H2 & H3).
  apply search_found.
  - rewrite prefix_within by lia. exact H2.
  - rewrite length_append. lia.
  - intros k Hk. rewrite prefix_within by lia. now apply H3.
Qed.

End StringFacts.

(** * The primitives at a cursor: the text is [a ++ b], the cursor [len a] *)

Section Cursor.

Variables a b : string.

Lemma charAt_cursor : JS.charAt (a ++ b) (JS.len a) = JS.head b.
Proof.
  unfold JS.charAt, JS.len.
  destruct (Z.of_nat (String.length a) <? 0) eqn:E; [apply Z.ltb_lt in E; lia|].
  rewrite Nat2Z.id. apply get_append.
Qed.

Lemma slice_cursor (n : nat) :
  JS.slice (a ++ b) (JS.len a) (JS.len a + Z.of_nat n) = JS.take n b.
Proof.
  unfold JS.slice. rewrite len_append. unfold JS.len.
  destruct (Z.of_nat (String.length a) <? 0) eqn:E1; [apply Z.ltb_lt in E1; lia|].
  destruct (Z.of_nat (String.length a) + Z.of_nat n <? 0) eqn:E2;
    [apply Z.ltb_lt in E2; lia|].
  rewrite (Z.min_l (Z.of_nat (String.length a))) by lia. rewrite Nat2Z.id.
  rewrite drop_append_length.
  rewrite <- (take_min n b). f_equal. lia.
Qed.

Lemma indexOf_cursor (pat : string) :
  JS.indexOf (a ++ b) pat (JS.len a)
  = match JS.search pat b 0 with
    | Some e => JS.len a + Z.of_nat e
    | None => -1
    end.
Proof.
  unfold JS.indexOf, JS.clamp. rewrite len_append. unfold JS.len.
  rewrite Z.max_l by lia. rewrite Z.min_l by lia. rewrite Nat2Z.id.
  rewrite drop_append_length.
  rewrite search_shift.
  destruct (JS.search pat b 0); cbn [option_map]; [lia | reflexivity].
Qed.

Lemma substring_cursor (e : nat) :
  JS.substring (a ++ b) (JS.len a) (JS.len a + Z.of_nat e) = JS.take e b.
Proof.
  unfold JS.substring, JS.clamp. rewrite len_append. unfold JS.len.
  replace (Z.to_nat (Z.min (Z.max (Z.of_nat (String.length a)) 0)
                       (Z.of_nat (String.length a) + Z.of_nat (String.length b))))
    with (String.length a) by lia.
  replace (Z.to_nat (Z.min (Z.max (Z.of_nat (String.length a) + Z.of_nat e) 0)
                       (Z.of_nat (String.length a) + Z.of_nat (String.length b))))
    with (String.length a + Nat.min e (String.length b))%nat by lia.
  set (m := Nat.min e (String.length b)).
  rewrite (Nat.min_l (String.length a)), Nat.max_r by lia.
  rewrite drop_append_length.
  rewrite <- (take_min e b). f_equal. lia.
Qed.

End Cursor.

(** * The scanner *)

Lemma literal_branch (A : Type) (c : ascii) (k : string -> A) (parsed : string) :
  match c with
  | "\"%char => k (parsed ++ "\\")
  | "`"%char => k (parsed ++ "\`")
  | "$"%char => k (parsed ++ "\$")
  | c' => k (parsed ++ String c' EmptyString)
  end = k (parsed ++ literalChar c).
Proof.
  destruct c as [[] [] [] [] [] [] [] []]; reflexivity.
Qed.


Lemma tagContents_cursor (a b endTag : string) :
  tagContents (a ++ b) (JS.len a) endTag
  = match JS.search endTag b 0 with
    | Some e => Ok (JS.take e b, JS.len a + Z.of_nat e + JS.len endTag - 1)
    | None => Throw (unterminated endTag)
    end.
Proof.
  unfold tagContents. rewrite indexOf_cursor.
  destruct (JS.search endTag b 0) as [e|]; [|reflexivity].
  assert (H := len_nonneg a).
  destruct (JS.len a + Z.of_nat e <? 0) eqn:E; [apply Z.ltb_lt in E; lia|].
  now rewrite substring_cursor.
Qed.

Section Scanner.

Variable options : Options.t.

Let d := Options.delimiters options.
Let OPEN := DelimiterOptions.open d.

Lemma parseFrom_end (fuel : nat) (unparsed : string) (i : Z) (parsed : string) :
  JS.len unparsed <= i ->
  parseFrom (S fuel) options unparsed i parsed = Ok (parsed ++ FOOTER).
Proof.
  intros H. cbn [parseFrom].
  destruct (i <? JS.len unparsed) eqn:E; [apply Z.ltb_lt in E; lia|].
  reflexivity.
Qed.

(** A run of literal text: no open delimiter starts within [run]. *)
Lemma parseFrom_literal (run : string) :
  forall (a b : string) (fuel : nat) (parsed : string),
    (forall k : nat, (k < String.length run)%nat ->
       String.prefix OPEN (JS.drop k (run ++ b)) = false) ->
    parseFrom (String.length run + fuel) options (a ++ run ++ b) (JS.len a) parsed
    = parseFrom fuel options (a ++ run ++ b) (JS.len (a ++ run))
        (parsed ++ escapeLiteral run).
Proof.
  induction run as [|c run IH]; intros a b fuel parsed Hopen.
  - cbn [String.length Nat.add append]. unfold escapeLiteral. cbn [replaceEach].
    now rewrite !append_empty_r.
  - cbn [String.length Nat.add]. cbn [parseFrom].
    assert (Hlt : JS.len a < JS.len (a ++ String c run ++ b)).
    { rewrite len_append. unfold JS.len at 3. cbn [append String.length]. lia. }
    apply Z.ltb_lt in Hlt. rewrite Hlt. cbn [negb].
    fold d. fold OPEN.
    replace (JS.len OPEN) with (Z.of_nat (String.length OPEN)) by reflexivity.
    rewrite slice_cursor, charAt_cursor.
    assert (H0 := Hopen 0%nat). cbn [JS.drop String.length] in H0.
    destruct (String.eqb_spec (JS.take (String.length OPEN) (String c run ++ b)) OPEN)
      as [Heq|_].
    { apply prefix_take in Heq. rewrite H0 in Heq by lia. discriminate. }
    cbn [append JS.head].
    rewrite (literal_branch _ c
               (fun p => parseFrom (String.length run + fuel) options
                           (a ++ String c (run ++ b)) (JS.len a + 1) p)).
    replace (a ++ String c (run ++ b))
      with ((a ++ String c EmptyString) ++ run ++ b)
      by (now rewrite append_assoc).
    replace (JS.len a + 1) with (JS.len (a ++ String c EmptyString))
      by (rewrite len_append; reflexivity).
    rewrite IH.
    + rewrite !append_assoc. cbn [append].
      unfold escapeLiteral. cbn [replaceEach]. reflexivity.
    + intros k Hk. apply (Hopen (S k)). cbn [String.length]. lia.
Qed.

End Scanner.

(** * Fuel *)

Lemma bind_more {A B : Type} (m m' : outcome A) (k k' : A -> outcome B) :
  (m <> OutOfFuel -> m' = m) ->
  (forall a : A, k a <> OutOfFuel -> k' a = k a) ->
  bind m k <> OutOfFuel -> bind m' k' = bind m k.
Proof.
  intros Hm Hk H. destruct m as [a| | |]; simpl in *;
    try (rewrite Hm by discriminate; simpl; auto; fail).
  contradiction.
Qed.

(** A result reached with some fuel is reached with any more. *)
Lemma more_fuel (options : Options.t) (fuel : nat) :
  (forall (fuel' : nat) (unparsed : string) (i : Z) (parsed : string),
     (fuel <= fuel')%nat ->
     parseFrom fuel options unparsed i parsed <> OutOfFuel ->
     parseFrom fuel' options unparsed i parsed
     = parseFrom fuel options unparsed i parsed)
  /\ (forall (fuel' : nat) (templateName : string),
        (fuel <= fuel')%nat ->
        getTemplate fuel options templateName <> OutOfFuel ->
        getTemplate fuel' options templateName
        = getTemplate fuel options templateName).
Proof.
  induction fuel as [|fuel [IHp IHg]]; split.
  - intros fuel' unparsed i parsed _ H. now contradiction H.
  - intros fuel' name _. destruct fuel'; cbn [getTemplate];
      destruct (truthy (Options.cache options)); auto.
    intros H. now contradiction H.
  - intros [|fuel'] unparsed i parsed Hle; [lia|].
    assert (Hle' : (fuel <= fuel')%nat) by lia.
    cbn [parseFrom].
    repeat match goal with
           | |- context [if ?c then _ else _] => destruct c
           | |- context [match ?c with Some _ => _ | None => _ end] =>
               destruct c
           end;
      try (intros _; reflexivity);
      try (apply IHp; exact Hle');
      try (apply bind_more; [reflexivity|]; intros [body j];
           first [ apply IHp; exact Hle'
                 | apply bind_more; [apply IHg; exact Hle'|];
                   intros child; apply IHp; exact Hle' ]).
    all: repeat match goal with
           | |- context [match ?c with Ascii _ _ _ _ _ _ _ _ => _ end] => destruct c
           | |- context [if ?c then _ else _] => destruct c
           end; apply IHp; exact Hle'.
  - intros [|fuel'] name Hle; [lia|].
    assert (Hle' : (fuel <= fuel')%nat) by lia.
    cbn [getTemplate]. destruct (truthy (Options.cache options)); [reflexivity|].
    apply bind_more; [reflexivity|]. intros unparsed. apply IHp. exact Hle'.
Qed.

Ltac finish :=
  f_equal;
  repeat match goal with H : _ + _ = JS.len _ |- _ => rewrite <- H; clear H end;
  rewrite ?append_assoc, ?append_empty_r;
  solve [reflexivity | cbn [Z.of_nat]; lia].

Section Tag.

Variable options : Options.t.

Let d := Options.delimiters options.
Let OPEN := DelimiterOptions.open d.

(** The loop at a tag: the text is [a ++ OPEN ++ rest], the cursor at the
    open delimiter. *)
Lemma parseFrom_tag (a rest : string) (fuel : nat) (parsed : string) :
  OPEN ++ rest <> EmptyString ->
  let unparsed := a ++ OPEN ++ rest in
  let k := tagKind d (JS.head rest) in
  let inner := JS.drop (markerWidth k) rest in
  parseFrom (S fuel) options unparsed (JS.len a) parsed
  = match JS.search (closeMarker d k) inner 0 with
    | None => Throw (unterminated (closeMarker d k))
    | Some e =>
        let body := JS.take e inner in
        let next := JS.len a + JS.len OPEN + Z.of_nat (markerWidth k)
                    + Z.of_nat e + JS.len (closeMarker d k) in
        match k with
        | KImport =>
            do child <- getTemplate fuel options (importName body);
            parseFrom fuel options unparsed next (parsed ++ tagCode k body child)
        | _ =>
            parseFrom fuel options unparsed next
              (parsed ++ tagCode k body EmptyString)
        end
    end.
Proof.
  intros Hne unparsed k inner.
  assert (Hlt : (JS.len a <? JS.len unparsed) = true).
  { apply Z.ltb_lt. unfold unparsed. rewrite len_append. unfold JS.len at 3.
    destruct (OPEN ++ rest); [contradiction | cbn [String.length]; lia]. }
  cbn [parseFrom]. rewrite Hlt. cbn [negb]. fold d. fold OPEN.
  unfold unparsed at 1.
  replace (JS.len OPEN) with (Z.of_nat (String.length OPEN)) at 1 by reflexivity.
  rewrite slice_cursor, take_append, String.eqb_refl.
  (* the cursor after the open delimiter *)
  assert (U1 : unparsed = (a ++ OPEN) ++ rest)
    by (unfold unparsed; now rewrite append_assoc).
  assert (C1 : JS.len a + JS.len OPEN = JS.len (a ++ OPEN))
    by now rewrite len_append.
  rewrite C1.
  assert (Hc : JS.charAt unparsed (JS.len (a ++ OPEN)) = JS.head rest)
    by (rewrite U1; apply charAt_cursor).
  rewrite !Hc. clear Hc.
  (* the cursor after the marker *)
  assert (W : forall c rest', rest = String c rest' ->
              unparsed = ((a ++ OPEN) ++ String c EmptyString) ++ rest'
              /\ JS.len (a ++ OPEN) + 1
                 = JS.len ((a ++ OPEN) ++ String c EmptyString)).
  { intros c rest' ->. split.
    - rewrite U1.
      now rewrite (append_assoc (a ++ OPEN) (String c EmptyString) rest').
    - rewrite (len_append (a ++ OPEN)). reflexivity. }
  assert (T : forall x y t, unparsed = x ++ y ->
              tagContents unparsed (JS.len x) t
              = match JS.search t y 0 with
                | Some e => Ok (JS.take e y, JS.len x + Z.of_nat e + JS.len t - 1)
                | None => Throw (unterminated t)
                end)
    by (intros x y t ->; apply tagContents_cursor).
  subst k inner. unfold tagKind.
  destruct (isCase (JS.head rest) (DelimiterOptions.comment d)) eqn:E1.
  { cbn [markerWidth closeMarker JS.drop tagCode].
    rewrite (T _ _ _ U1).
    destruct (JS.search _ rest 0) as [e|]; [|reflexivity].
    cbn [bind]. finish. }
  destruct (isCase (JS.head rest) (DelimiterOptions.escape d)) eqn:E2.
  { cbn [markerWidth closeMarker tagCode].
    destruct rest as [|c rest']; [discriminate E2|].
    destruct (W c rest' eq_refl) as [U2 C2]. rewrite C2.
    rewrite (T _ _ _ U2). cbn [JS.drop].
    destruct (JS.search _ rest' 0) as [e|]; [|reflexivity].
    cbn [bind]. rewrite <- C2. finish. }
  destruct (isCase (JS.head rest) (DelimiterOptions.unescape d)) eqn:E3.
  { cbn [markerWidth closeMarker tagCode].
    destruct rest as [|c rest']; [discriminate E3|].
    destruct (W c rest' eq_refl) as [U2 C2]. rewrite C2.
    rewrite (T _ _ _ U2). cbn [JS.drop].
    destruct (JS.search _ rest' 0) as [e|]; [|reflexivity].
    cbn [bind]. rewrite <- C2. finish. }
  destruct (isCase (JS.head rest) (DelimiterOptions.import d)) eqn:E4.
  { cbn [markerWidth closeMarker tagCode].
    destruct rest as [|c rest']; [discriminate E4|].
    destruct (W c rest' eq_refl) as [U2 C2]. rewrite C2.
    rewrite (T _ _ _ U2). cbn [JS.drop].
    destruct (JS.search _ rest' 0) as [e|]; [|reflexivity].
    cbn [bind]. unfold importName.
    destruct (getTemplate fuel options _); cbn [bind]; try reflexivity.
    rewrite <- C2. finish. }
  cbn [markerWidth closeMarker JS.drop tagCode].
  rewrite (T _ _ _ U1).
  destruct (JS.search _ rest 0) as [e|]; [|reflexivity].
  cbn [bind]. finish.
Qed.

End Tag.

Lemma indexOf_start (s pat : string) :
  JS.indexOf s pat 0
  = match JS.search pat s 0 with Some e => Z.of_nat e | None => -1 end.
Proof.
  change s with (EmptyString ++ s) at 1. change 0 with (JS.len EmptyString) at 1.
  rewrite indexOf_cursor. destruct (JS.search pat s 0); reflexivity.
Qed.

(** No occurrence before the first one. *)
Lemma first_occurrence (s pat : string) (n : nat) :
  JS.indexOf s pat 0 = Z.of_nat n ->
  forall k : nat, (k < n)%nat -> String.prefix pat (JS.drop k s) = false.
Proof.
  rewrite indexOf_start. destruct (JS.search pat s 0) as [e|] eqn:E; [|lia].
  intros H k Hk. apply (search_some _ _ _ E). lia.
Qed.

Lemma no_occurrence (s pat : string) :
  JS.includes s pat = false ->
  forall k : nat, String.prefix pat (JS.drop k s) = false.
Proof.
  unfold JS.includes. rewrite indexOf_start.
  destruct (JS.search pat s 0) as [e|] eqn:E.
  - intros H. apply Z.leb_gt in H. lia.
  - intros _. now apply search_none.
Qed.

Section Templates.

Variable options : Options.t.

Let d := Options.delimiters options.
Let OPEN := DelimiterOptions.open d.

(** A template without a tag. *)
Lemma parseTemplate_literal (unparsed : string) (fuel : nat) :
  JS.includes unparsed OPEN = false ->
  (String.length unparsed < fuel)%nat ->
  parseTemplate fuel unparsed options
  = Ok (HEADER ++ escapeLiteral unparsed ++ FOOTER).
Proof.
  intros Hfree Hfuel. unfold parseTemplate.
  assert (E : parseFrom (String.length unparsed + 1) options unparsed 0 HEADER
              = Ok (HEADER ++ escapeLiteral unparsed ++ FOOTER)).
  { assert (L := parseFrom_literal options unparsed EmptyString EmptyString 1 HEADER).
    rewrite append_empty_r in L. cbn [append] in L.
    change (JS.len EmptyString) with 0 in L. rewrite L.
    - rewrite parseFrom_end by lia. now rewrite append_assoc.
    - intros k _. now apply no_occurrence. }
  rewrite <- E. apply more_fuel; [lia | rewrite E; discriminate].
Qed.

(** A template with one tag between two runs of literal text: [pre], the
    open delimiter, then [rest], which holds the tag and the text after
    it. *)
Lemma parseFrom_one_tag (pre rest : string) (e f : nat) :
  let unparsed := pre ++ OPEN ++ rest in
  let k := tagKind d (JS.head rest) in
  let inner := JS.drop (markerWidth k) rest in
  let body := JS.take e inner in
  let post := JS.drop (e + String.length (closeMarker d k)) inner in
  OPEN ++ rest <> EmptyString ->
  JS.indexOf unparsed OPEN 0 = JS.len pre ->
  JS.search (closeMarker d k) inner 0 = Some e ->
  JS.includes post OPEN = false ->
  (String.length post < f)%nat ->
  parseFrom (String.length pre + S f) options unparsed 0 HEADER
  = do child <- match k with
                | KImport => getTemplate f options (importName body)
                | _ => Ok EmptyString
                end;
    Ok (HEADER ++ escapeLiteral pre ++ tagCode k body child
               ++ escapeLiteral post ++ FOOTER).
Proof.
  intros unparsed k inner body post Hne Hfirst Hclose Hfree Hf.
  assert (L := parseFrom_literal options pre EmptyString (OPEN ++ rest) (S f) HEADER).
  cbn [append] in L. change (JS.len EmptyString) with 0 in L.
  fold unparsed in L. rewrite L by (apply first_occurrence; exact Hfirst).
  clear L.
  assert (T := parseFrom_tag options pre rest f (HEADER ++ escapeLiteral pre) Hne).
  cbv zeta in T. fold d OPEN unparsed k inner in T. rewrite T. clear T.
  rewrite Hclose. fold body.
  (* the text after the tag *)
  destruct (search_some _ _ _ Hclose) as (Hlen & _ & _).
  set (w := markerWidth k) in *.
  set (m := String.length (closeMarker d k)) in *.
  assert (Hw : (w <= String.length rest)%nat).
  { subst w k. unfold tagKind.
    destruct rest as [|c rest']; [reflexivity|].
    repeat match goal with |- context [if ?b then _ else _] => destruct b end;
      cbn [markerWidth String.length]; lia. }
  assert (Hin : String.length inner = (String.length rest - w)%nat)
    by (subst inner; apply length_drop).
  set (seen := pre ++ OPEN ++ JS.take (w + e + m) rest).
  assert (U : unparsed = seen ++ post ++ EmptyString).
  { subst seen post inner unparsed. rewrite append_empty_r, drop_drop.
    rewrite !append_assoc. do 2 f_equal.
    replace (w + (e + m))%nat with (w + e + m)%nat by lia.
    now rewrite take_drop. }
  assert (C : JS.len pre + JS.len OPEN + Z.of_nat w + Z.of_nat e
              + JS.len (closeMarker d k) = JS.len seen).
  { subst seen. rewrite !len_append.
    replace (JS.len (JS.take (w + e + m) rest)) with (Z.of_nat (w + e + m))
      by (unfold JS.len; rewrite length_take; lia).
    replace (JS.len (closeMarker d k)) with (Z.of_nat m) by reflexivity.
    lia. }
  rewrite C.
  assert (R : forall parsed,
             parseFrom f options unparsed (JS.len seen) parsed
             = Ok (parsed ++ escapeLiteral post ++ FOOTER)).
  { intros parsed. rewrite U.
    assert (Hsplit : f = (String.length post + S (f - String.length post - 1))%nat)
      by lia.
    rewrite Hsplit at 1.
    rewrite parseFrom_literal.
    - rewrite parseFrom_end.
      + now rewrite append_assoc.
      + rewrite append_empty_r. lia.
    - intros j _. rewrite append_empty_r. now apply no_occurrence. }
  destruct k; cbn [bind]; try (rewrite R; now rewrite !append_assoc).
  destruct (getTemplate f options (importName body)); cbn [bind]; try reflexivity.
  rewrite R. now rewrite !append_assoc.
Qed.

End Templates.

Lemma tagKind_nonempty (d : DelimiterOptions.t) (rest : string) :
  tagKind d (JS.head rest) <> KCode -> rest <> EmptyString.
Proof. intros H ->. now apply H. Qed.

Lemma append_nonempty_r (a b : string) : b <> EmptyString -> a ++ b <> EmptyString.
Proof.
  intros Hb H. apply (f_equal String.length) in H.
  rewrite length_append in H. destruct b; [contradiction | simpl in H; lia].
Qed.

(** * The lexer on generated code *)

Lemma cooked_without_CR (s : string) :
  mentions CR s = false -> cooked false s = s.
Proof.
  induction s as [|c s IH]; [reflexivity|].
  intros H.
  change (Ascii.eqb CR c || mentions CR s = false) in H.
  apply orb_false_iff in H. destruct H as [Hc Hs].
  rewrite Ascii.eqb_sym in Hc.
  change (cooked false (String c s))
    with (if Ascii.eqb c CR then String LF (cooked true s)
          else if Ascii.eqb c LF then String LF (cooked false s)
          else String c (cooked false s)).
  rewrite Hc, (IH Hs).
  destruct (Ascii.eqb_spec c LF) as [->|]; reflexivity.
Qed.

Lemma mentions_append (c : ascii) (s t : string) :
  mentions c (s ++ t) = mentions c s || mentions c t.
Proof.
  induction s as [|x s IH]; [reflexivity|].
  cbn [append mentions]. now rewrite IH, orb_assoc.
Qed.

Lemma lex_silent (m m' : lexmode) (c : ascii) (s : string) :
  lexStep m c = Some ([], m') -> lex m (String c s) = lex m' s.
Proof.
  intros H. cbn [lex]. rewrite H. destruct (lex m' s); reflexivity.
Qed.

Lemma lex_app (p s : string) :
  forall m : lexmode,
    lex m (p ++ s)
    = match lexRun m p with
      | Some (ts, m') => option_map (app ts) (lex m' s)
      | None => None
      end.
Proof.
  induction p as [|c p IH]; intros m.
  - cbn [append lexRun]. destruct (lex m s); reflexivity.
  - cbn [append lex lexRun]. destruct (lexStep m c) as [[ts m']|]; [|reflexivity].
    rewrite IH. destruct (lexRun m' p) as [[ts' m'']|]; cbn [after]; [|reflexivity].
    destruct (lex m'' s); cbn [option_map]; [|reflexivity].
    now rewrite app_assoc.
Qed.

Lemma templateStep_plain (acc : string) (c : ascii) :
  c <> "\"%char -> c <> "`"%char -> c <> "$"%char -> c <> CR ->
  templateStep acc c = Some ([], LTpl (snoc acc c))
  /\ literalChar c = String c EmptyString.
Proof.
  intros H1 H2 H3 H4.
  destruct c as [[] [] [] [] [] [] [] []];
    try (split; reflexivity); exfalso; auto.
Qed.

(** The escaped text of a literal run, up to the closing backtick, is one
    template token whose value is the run, line terminators cooked. *)
Lemma lex_literal (s rest : string) :
  forall acc : string,
    lex (LTpl acc) (escapeLiteral s ++ String "`" rest)
    = option_map (cons (TTemplate (acc ++ cooked false s))) (lex LNormal rest)
    /\ lex (LTplSkipLF acc) (escapeLiteral s ++ String "`" rest)
       = option_map (cons (TTemplate (acc ++ cooked true s))) (lex LNormal rest).
Proof.
  induction s as [|c s IH]; intros acc.
  - simpl. rewrite append_empty_r.
    destruct (lex LNormal rest); split; reflexivity.
  - assert (Snoc : forall x t, snoc acc x ++ t = acc ++ String x t)
      by (intros; unfold snoc; now rewrite append_assoc).
    unfold escapeLiteral in *. simpl replaceEach.
    destruct (ascii_dec c "\") as [->|N1];
      [|destruct (ascii_dec c "`") as [->|N2];
        [|destruct (ascii_dec c "$") as [->|N3];
          [|destruct (ascii_dec c CR) as [->|N4]]]].
    + simpl literalChar. simpl append.
      rewrite (lex_silent (LTplSkipLF acc) (LTplEsc acc)) by reflexivity.
      rewrite (lex_silent (LTpl acc) (LTplEsc acc)) by reflexivity.
      rewrite (lex_silent (LTplEsc acc) (LTpl (snoc acc "\"))) by reflexivity.
      rewrite (proj1 (IH _)). simpl cooked. rewrite Snoc. split; reflexivity.
    + simpl literalChar. simpl append.
      rewrite (lex_silent (LTplSkipLF acc) (LTplEsc acc)) by reflexivity.
      rewrite (lex_silent (LTpl acc) (LTplEsc acc)) by reflexivity.
      rewrite (lex_silent (LTplEsc acc) (LTpl (snoc acc "`"))) by reflexivity.
      rewrite (proj1 (IH _)). simpl cooked. rewrite Snoc. split; reflexivity.
    + simpl literalChar. simpl append.
      rewrite (lex_silent (LTplSkipLF acc) (LTplEsc acc)) by reflexivity.
      rewrite (lex_silent (LTpl acc) (LTplEsc acc)) by reflexivity.
      rewrite (lex_silent (LTplEsc acc) (LTpl (snoc acc "$"))) by reflexivity.
      rewrite (proj1 (IH _)). simpl cooked. rewrite Snoc. split; reflexivity.
    + simpl literalChar. simpl append.
      rewrite (lex_silent (LTplSkipLF acc) (LTplSkipLF (snoc acc LF))) by reflexivity.
      rewrite (lex_silent (LTpl acc) (LTplSkipLF (snoc acc LF))) by reflexivity.
      rewrite (proj2 (IH _)). simpl cooked. rewrite Snoc. split; reflexivity.
    + destruct (templateStep_plain acc c N1 N2 N3 N4) as [Hstep Hlit].
      rewrite Hlit. simpl append.
      rewrite (lex_silent (LTpl acc) (LTpl (snoc acc c))) by exact Hstep.
      rewrite (proj1 (IH _)), Snoc.
      assert (Hcr : Ascii.eqb c CR = false) by now apply Ascii.eqb_neq.
      simpl cooked. rewrite Hcr.
      destruct (Ascii.eqb c LF) eqn:Hlf.
      * apply Ascii.eqb_eq in Hlf. subst c.
        rewrite (lex_silent (LTplSkipLF acc) (LTpl acc)) by reflexivity.
        rewrite (proj1 (IH _)). split; reflexivity.
      * rewrite (lex_silent (LTplSkipLF acc) (LTpl (snoc acc c))).
        -- rewrite (proj1 (IH _)). simpl cooked. rewrite Snoc. split; reflexivity.
        -- simpl. rewrite Hlf. exact Hstep.
Qed.

Ltac evaluate t :=
  let v := eval vm_compute in t in
  change t with v.

(** The generated code of a template: a literal run, the code of a tag,
    which closes the template literal of the run before it and opens the
    next, and a literal run. *)
Lemma lex_generated (before mid after_ pre post : string)
    (ts1 ts2 ts3 : list token) :
  lexRun LNormal before = Some (ts1, LTpl EmptyString) ->
  lexRun LNormal mid = Some (ts2, LTpl EmptyString) ->
  lex LNormal after_ = Some ts3 ->
  lex LNormal (before ++ escapeLiteral pre ++ String "`" mid
                 ++ escapeLiteral post ++ String "`" after_)
  = Some (ts1 ++ TTemplate (cooked false pre) :: ts2
              ++ TTemplate (cooked false post) :: ts3)%list.
Proof.
  intros H1 H2 H3.
  rewrite lex_app, H1.
  change (String "`" mid ++ escapeLiteral post ++ String "`" after_)
    with (String "`" (mid ++ escapeLiteral post ++ String "`" after_)).
  rewrite (proj1 (lex_literal pre _ EmptyString)).
  rewrite lex_app, H2.
  rewrite (proj1 (lex_literal post _ EmptyString)).
  rewrite H3. reflexivity.
Qed.

Lemma lex_generated_literal (before after_ s : string) (ts1 ts3 : list token) :
  lexRun LNormal before = Some (ts1, LTpl EmptyString) ->
  lex LNormal after_ = Some ts3 ->
  lex LNormal (before ++ escapeLiteral s ++ String "`" after_)
  = Some (ts1 ++ TTemplate (cooked false s) :: ts3)%list.
Proof.
  intros H1 H3.
  rewrite lex_app, H1, (proj1 (lex_literal s _ EmptyString)), H3. reflexivity.
Qed.

Lemma wrap_literal (s : string) :
  wrap (HEADER ++ escapeLiteral s ++ FOOTER)
  = BEFORE ++ escapeLiteral s ++ String "`" AFTER.
Proof.
  unfold wrap, BEFORE, AFTER, FOOTER. rewrite !append_assoc. reflexivity.
Qed.

(** [code] is the code of a tag less the backtick it starts with. *)
Lemma wrap_one_tag (pre post code : string) :
  wrap (HEADER ++ escapeLiteral pre ++ String "`" code ++ escapeLiteral post ++ FOOTER)
  = BEFORE ++ escapeLiteral pre ++ String "`" code
      ++ escapeLiteral post ++ String "`" AFTER.
Proof.
  unfold wrap, BEFORE, AFTER, FOOTER. rewrite !append_assoc. cbn [append].
  rewrite ?append_assoc. reflexivity.
Qed.

Lemma parseFunctionBody_literal (s : string) :
  parseFunctionBody (wrap (HEADER ++ escapeLiteral s ++ FOOTER))
  = Some (wrapped [push [EStr (cooked false s)]]).
Proof.
  unfold parseFunctionBody.
  rewrite wrap_literal.
  rewrite (lex_generated_literal BEFORE AFTER s _ _ eq_refl eq_refl).
  generalize (cooked false s). intros v.
  vm_compute. reflexivity.
Qed.

(** * Rendering a template of literal text *)

Lemma falsy_cases (v : value) :
  truthy v = false ->
  v = VUndef \/ v = VNull \/ v = VBool false \/ v = VNum 0 \/ v = VStr EmptyString.
Proof.
  destruct v as [| |[]|n|s| |]; simpl; intros H; try discriminate; auto.
  - apply negb_false_iff, Z.eqb_eq in H. subst. auto.
  - apply negb_false_iff, String.eqb_eq in H. subst. auto 6.
Qed.

Ltac run_store :=
  repeat (progress (cbn; unfold objectAt, getVar, putAt; cbn;
                    repeat match goal with
                           | H : nth_error _ _ = _ |- _ => rewrite H
                           | H : getProp _ _ = _ |- _ => rewrite H
                           end)).

(** A call of the function compiled from literal text, with the cells
    [fresh] already allocated. *)
Lemma callTemplate_literal (src v : string) (cells : list cell) (locals : value) :
  usable (mkStore cells []) locals ->
  exists added,
    callTemplate (mkTemplate ["$xml"; "$locals"] src (wrapped [push [EStr v]]))
      locals (mkStore cells [])
    = Ok (VStr v, mkStore cells added).
Proof.
  intros [H | (l & props & -> & Hobj & Hbuf)].
  - destruct (falsy_cases _ H) as [->|[->|[->|[->| ->]]]];
      eexists; vm_compute; reflexivity.
  - destruct l as [n|n]; [|destruct n; discriminate Hobj].
    unfold objectAt in Hobj. cbn in Hobj.
    destruct (nth_error cells n) as [[props'|]|] eqn:Hcell; try discriminate.
    injection Hobj as ->.
    eexists. unfold callTemplate, callFunction.
    run_store. reflexivity.
Qed.

Section Literal.

Variable loadFile : Loader.
Variable options : option PartialOptions.t.

Let OPEN := DelimiterOptions.open (Options.delimiters (handleOptions loadFile options)).

Lemma compileTemplate_literal (text : string) (fuel : nat) :
  JS.includes text OPEN = false ->
  (String.length text < fuel)%nat ->
  compileTemplate loadFile fuel text options
  = Ok (mkTemplate ["$xml"; "$locals"]
          (wrap (HEADER ++ escapeLiteral text ++ FOOTER))
          (wrapped [push [EStr (cooked false text)]])).
Proof.
  intros Hfree Hfuel. unfold compileTemplate.
  rewrite parseTemplate_literal by assumption. cbn [bind].
  unfold newFunction. now rewrite parseFunctionBody_literal.
Qed.

End Literal.

(** C1 (amended).  A template text with no occurrence of the configured open
    delimiter and no carriage return compiles to the function that pushes
    the text as one template literal, and that function, called with no
    locals or with an object that binds no property [$buffer], returns the
    text unchanged; backslash, backtick and dollar are escaped in the
    generated code and read back as themselves. *)
Theorem C1_literal_text_renders_unchanged
    (loadFile : Loader) (options : option PartialOptions.t)
    (text : string) (fuel : nat) (cells : list cell) (locals : value) :
  JS.includes text
    (DelimiterOptions.open (Options.delimiters (handleOptions loadFile options)))
  = false ->
  mentions CR text = false ->
  (String.length text < fuel)%nat ->
  usable (mkStore cells []) locals ->
  exists template,
    compileTemplate loadFile fuel text options = Ok template
    /\ source template = wrap (HEADER ++ escapeLiteral text ++ FOOTER)
    /\ body template = wrapped [push [EStr text]]
    /\ render template locals (mkStore cells []) = Ok text.
Proof.
  intros Hfree Hcr Hfuel Hlocals.
  eexists. split; [apply compileTemplate_literal; assumption|].
  rewrite (cooked_without_CR _ Hcr). cbn [source body].
  repeat split.
  destruct (callTemplate_literal
              (wrap (HEADER ++ escapeLiteral text ++ FOOTER)) text cells locals Hlocals)
    as [added E].
  unfold render. rewrite E. reflexivity.
Qed.

Lemma C1_literal_text_renders_unchanged_witness :
  exists template,
    compileTemplate noFile 100 "a\b`c$d" None = Ok template
    /\ source template = wrap (HEADER ++ escapeLiteral "a\b`c$d" ++ FOOTER)
    /\ body template = wrapped [push [EStr "a\b`c$d"]]
    /\ render template VUndef (mkStore [CObject []] []) = Ok "a\b`c$d".
Proof.
  apply (C1_literal_text_renders_unchanged noFile None "a\b`c$d" 100 [CObject []] VUndef).
  - reflexivity.
  - reflexivity.
  - simpl. lia.
  - left. reflexivity.
Defined.

(** C1 as stated fails: a locals object with a property [$buffer] shadows
    the output buffer inside [with], and the text is pushed elsewhere. *)
Lemma C1_locals_may_shadow_the_buffer :
  JS.includes "Hello World" "<%" = false
  /\ exists template,
       compileTemplate noFile 100 "Hello World" None = Ok template
       /\ render template (VRef (Given 1))
            (mkStore [CObject []; CObject [("$buffer", VRef (Given 2))]; CArray []] [])
          = Ok EmptyString
       /\ render template (VRef (Given 1))
            (mkStore [CObject []; CObject [("$buffer", VRef (Given 2))]; CArray []] [])
          <> Ok "Hello World".
Proof.
  split; [reflexivity|]. eexists.
  split; [vm_compute; reflexivity|].
  split; [vm_compute; reflexivity|].
  vm_compute. discriminate.
Qed.

(** The template literal of the generated code reads CR LF as LF. *)
Lemma literal_carriage_return_is_cooked :
  let text := String "a" (String CR (String LF "b")) in
  JS.includes text "<%" = false
  /\ exists template,
       compileTemplate noFile 100 text None = Ok template
       /\ render template VUndef emptyStore = Ok (String "a" (String LF "b")).
Proof.
  split; [reflexivity|]. eexists. split; vm_compute; reflexivity.
Qed.

Lemma escapeChar_other (c : ascii) :
  ~ In c entityChars -> escapeChar c = String c EmptyString.
Proof.
  intros H.
  destruct c as [[] [] [] [] [] [] [] []]; try reflexivity;
    exfalso; apply H; cbn; tauto.
Qed.




(** C4.  A tag whose close marker does not occur at or after the cursor
    makes the compilation throw an error naming that marker, whatever was
    generated before the tag: from any position of the scan, and so for the
    whole of [compileTemplate] when the tag is the first of the text. *)
Theorem C4_unterminated_tag_aborts
    (loadFile : Loader) (options : option PartialOptions.t)
    (pre rest : string) (fuel : nat) :
  let opts := handleOptions loadFile options in
  let d := Options.delimiters opts in
  let k := tagKind d (JS.head rest) in
  let unparsed := pre ++ DelimiterOptions.open d ++ rest in
  DelimiterOptions.open d ++ rest <> EmptyString ->
  JS.search (closeMarker d k) (JS.drop (markerWidth k) rest) 0 = None ->
  (forall (parsed : string),
      parseFrom (S fuel) opts unparsed (JS.len pre) parsed
      = Throw (unterminated (closeMarker d k)))
  /\ (JS.indexOf unparsed (DelimiterOptions.open d) 0 = JS.len pre ->
      (String.length pre < fuel)%nat ->
      compileTemplate loadFile fuel unparsed options
      = Throw (unterminated (closeMarker d k))).
Proof.
  intros opts d k unparsed Hne Hclose.
  assert (T : forall f parsed,
             parseFrom (S f) opts unparsed (JS.len pre) parsed
             = Throw (unterminated (closeMarker d k))).
  { intros f parsed.
    assert (T := parseFrom_tag opts pre rest f parsed Hne). cbv zeta in T.
    fold d k unparsed in T. rewrite T, Hclose. reflexivity. }
  split; [apply T|].
  intros Hfirst Hfuel. unfold compileTemplate. fold opts. unfold parseTemplate.
  assert (E : parseFrom (String.length pre + 1) opts unparsed 0 HEADER
              = Throw (unterminated (closeMarker d k))).
  { assert (L := parseFrom_literal opts pre EmptyString
                   (DelimiterOptions.open d ++ rest) 1 HEADER).
    cbn [append] in L. change (JS.len EmptyString) with 0 in L.
    fold unparsed in L. rewrite L by (apply first_occurrence; exact Hfirst).
    apply T. }
  rewrite (proj1 (more_fuel opts (String.length pre + 1)) fuel unparsed 0 HEADER);
    [rewrite E; reflexivity | lia | rewrite E; discriminate].
Qed.

Lemma C4_unterminated_tag_aborts_witness :
  (forall parsed : string,
      parseFrom 100 (handleOptions noFile None) "<%= unterminated" 0 parsed
      = Throw "Could not find matching close tag '%>'.")
  /\ compileTemplate noFile 99 "<%= unterminated" None
     = Throw "Could not find matching close tag '%>'.".
Proof.
  destruct (C4_unterminated_tag_aborts noFile None EmptyString "= unterminated" 99)
    as [Hscan Hcompile].
  - discriminate.
  - reflexivity.
  - split; [exact Hscan | apply Hcompile; [reflexivity | simpl; lia]].
Defined.

(** C5 (where the code departs from it).  The body of an import tag is split
    at every pipe and only the second piece is taken as the locals
    expression: of [a || b] the generated call keeps [a]. *)
Theorem C5_locals_expression_ends_at_second_pipe :
  JS.split "|" " world | a || b " = [" world "; " a "; EmptyString; " b "]
  /\ importLocals (JS.split "|" " world | a || b ") = "a"
  /\ exists template,
       compileTemplate exampleLoader 100 "<%+ world | a || b %>" None = Ok template
       /\ source template
          = wrap (HEADER ++ "`,``);(function($buffer,$locals){"
                    ++ HEADER ++ "World" ++ FOOTER
                    ++ "})($buffer,a);$buffer.push(`" ++ FOOTER).
Proof.
  split; [reflexivity|]. split; [reflexivity|].
  eexists. split; vm_compute; reflexivity.
Qed.

(** The example of the repository's test: the imported text is rendered in
    place of the tag. *)
Lemma import_renders_in_place :
  exists template,
    compileTemplate exampleLoader 100 "Hello <%+ world %>" None = Ok template
    /\ render template VUndef emptyStore = Ok "Hello World".
Proof. eexists. split; vm_compute; reflexivity. Qed.

(** The name given to the loader and the locals expression of an import
    tag, for any tag body. *)
Lemma import_pieces (name locals : string) :
  mentions "|" name = false ->
  mentions "|" locals = false ->
  importName (name ++ String "|" locals) = JS.trim name
  /\ importLocals (JS.split "|" (name ++ String "|" locals))
     = (if String.eqb (JS.trim locals) EmptyString then "$locals" else JS.trim locals)
  /\ importName name = JS.trim name
  /\ importLocals (JS.split "|" name) = "$locals".
Proof.
  intros Hn Hl.
  assert (S1 : forall s piece, mentions "|" s = false ->
                 JS.splitAcc "|" s piece = [piece ++ s]).
  { induction s as [|c s IH]; intros piece H.
    - cbn [JS.splitAcc]. now rewrite append_empty_r.
    - change (Ascii.eqb "|" c || mentions "|" s = false) in H.
      apply orb_false_iff in H. destruct H as [Hc Hs].
      cbn [JS.splitAcc]. rewrite Ascii.eqb_sym, Hc. rewrite IH by exact Hs.
      now rewrite append_assoc. }
  assert (S2 : forall s piece, mentions "|" s = false ->
                 JS.splitAcc "|" (s ++ String "|" locals) piece
                 = [piece ++ s; locals]).
  { induction s as [|c s IH]; intros piece H.
    - cbn [append JS.splitAcc]. rewrite Ascii.eqb_refl, append_empty_r.
      now rewrite (S1 locals EmptyString Hl).
    - change (Ascii.eqb "|" c || mentions "|" s = false) in H.
      apply orb_false_iff in H. destruct H as [Hc Hs].
      cbn [append JS.splitAcc]. rewrite Ascii.eqb_sym, Hc. rewrite IH by exact Hs.
      now rewrite append_assoc. }
  unfold importName, importLocals, JS.split.
  rewrite (S2 name EmptyString Hn), (S1 name EmptyString Hn).
  cbn [nth nth_error append].
  repeat split.
  destruct (String.eqb_spec locals EmptyString) as [->|Hne]; [reflexivity|].
  destruct (JS.trim locals =? EmptyString)%string; reflexivity.
Qed.

(** C7 (amended).  [handleOptions] checks nothing: an open and a close
    delimiter given equal are both kept as given, and a text is then
    compiled with them. *)
Theorem C7_equal_delimiters_are_kept
    (loadFile : Loader) (o : PartialOptions.t) (d : PartialDelimiters.t)
    (x text : string) (fuel : nat) :
  PartialOptions.delimiters o = Some d ->
  PartialDelimiters.open d = Some x ->
  PartialDelimiters.close d = Some x ->
  JS.includes text x = false ->
  (String.length text < fuel)%nat ->
  let merged := Options.delimiters (handleOptions loadFile (Some o)) in
  DelimiterOptions.open merged = x
  /\ DelimiterOptions.close merged = x
  /\ exists template, compileTemplate loadFile fuel text (Some o) = Ok template.
Proof.
  intros Hd Ho Hc Hfree Hfuel merged.
  assert (E : DelimiterOptions.open merged = x).
  { subst merged. unfold handleOptions. rewrite Hd.
    cbn [Options.delimiters]. unfold assignDelimiters.
    cbn [DelimiterOptions.open]. now rewrite Ho. }
  split; [exact E|]. split.
  - subst merged. unfold handleOptions. rewrite Hd.
    cbn [Options.delimiters]. unfold assignDelimiters.
    cbn [DelimiterOptions.close]. now rewrite Hc.
  - eexists. apply compileTemplate_literal; [|exact Hfuel].
    fold merged. now rewrite E.
Qed.

Lemma C7_equal_delimiters_are_kept_witness :
  let merged := Options.delimiters (handleOptions noFile (Some (withDelimiters percentBoth))) in
  DelimiterOptions.open merged = "%"
  /\ DelimiterOptions.close merged = "%"
  /\ exists template,
       compileTemplate noFile 100 "plain text" (Some (withDelimiters percentBoth))
       = Ok template.
Proof.
  apply (C7_equal_delimiters_are_kept noFile (withDelimiters percentBoth) percentBoth
           "%" "plain text" 100).
  - reflexivity.
  - reflexivity.
  - reflexivity.
  - reflexivity.
  - simpl. lia.
Defined.

(** C7 as stated fails: with the open delimiter equal to the close
    delimiter nothing is rejected, the text is scanned, its tag found and
    the template rendered. *)
Lemma C7_equal_delimiters_are_scanned :
  let options := Some (withDelimiters percentBoth) in
  let merged := Options.delimiters (handleOptions noFile options) in
  DelimiterOptions.open merged = DelimiterOptions.close merged
  /\ exists template,
       compileTemplate noFile 100 "a%= 1 %b" options = Ok template
       /\ source template = wrap (HEADER ++ "a`,$xml( 1 ),`b" ++ FOOTER)
       /\ render template VUndef emptyStore = Ok "a1b".
Proof.
  split; [reflexivity|]. eexists. repeat split; vm_compute; reflexivity.
Qed.

(** C8 (amended).  With a truthy [cache] option every load of a template by
    name is rejected with the message that the cache is unimplemented:
    [getTemplate], [loadAndCompileTemplate], and [compileTemplate] when the
    scan reaches an import tag. *)
Theorem C8_cache_rejects_template_loads
    (loadFile : Loader) (options : option PartialOptions.t)
    (templateName pre rest : string) (e fuel : nat) :
  let opts := handleOptions loadFile options in
  let d := Options.delimiters opts in
  let unparsed := pre ++ DelimiterOptions.open d ++ rest in
  truthy (Options.cache opts) = true ->
  tagKind d (JS.head rest) = KImport ->
  JS.indexOf unparsed (DelimiterOptions.open d) 0 = JS.len pre ->
  JS.search (DelimiterOptions.close d) (JS.drop 1 rest) 0 = Some e ->
  (String.length pre + 1 < fuel)%nat ->
  getTemplate fuel opts templateName = Throw CACHE_UNIMPLEMENTED
  /\ loadAndCompileTemplate loadFile fuel templateName options
     = Throw CACHE_UNIMPLEMENTED
  /\ compileTemplate loadFile fuel unparsed options = Throw CACHE_UNIMPLEMENTED.
Proof.
  intros opts d unparsed Hcache Hkind Hfirst Hclose Hfuel.
  assert (G : forall f name, getTemplate f opts name = Throw CACHE_UNIMPLEMENTED).
  { intros f name. destruct f; cbn [getTemplate]; now rewrite Hcache. }
  split; [apply G|]. split.
  - unfold loadAndCompileTemplate. fold opts. now rewrite G.
  - unfold compileTemplate. fold opts. unfold parseTemplate.
    assert (Hne : DelimiterOptions.open d ++ rest <> EmptyString).
    { apply append_nonempty_r, (tagKind_nonempty d). rewrite Hkind. discriminate. }
    assert (E : parseFrom (String.length pre + 2) opts unparsed 0 HEADER
                = Throw CACHE_UNIMPLEMENTED).
    { assert (L := parseFrom_literal opts pre EmptyString
                     (DelimiterOptions.open d ++ rest) 2 HEADER).
      cbn [append] in L. change (JS.len EmptyString) with 0 in L.
      fold unparsed in L. rewrite L by (apply first_occurrence; exact Hfirst).
      assert (T := parseFrom_tag opts pre rest 1 (HEADER ++ escapeLiteral pre) Hne).
      cbv zeta in T. fold d unparsed in T. rewrite Hkind in T.
      cbn [markerWidth closeMarker] in T. rewrite Hclose in T.
      rewrite T, G. reflexivity. }
    rewrite (proj1 (more_fuel opts (String.length pre + 2)) fuel unparsed 0 HEADER);
      [rewrite E; reflexivity | lia | rewrite E; discriminate].
Qed.

Lemma C8_cache_rejects_template_loads_witness :
  let options := Some (withCache (VRef (Given 1))) in
  getTemplate 100 (handleOptions exampleLoader options) "world"
  = Throw CACHE_UNIMPLEMENTED
  /\ loadAndCompileTemplate exampleLoader 100 "world" options
     = Throw CACHE_UNIMPLEMENTED
  /\ compileTemplate exampleLoader 100 "Hello <%+ world %>" options
     = Throw CACHE_UNIMPLEMENTED.
Proof.
  apply (C8_cache_rejects_template_loads exampleLoader
           (Some (withCache (VRef (Given 1)))) "world" "Hello " "+ world %>" 7 100).
  - reflexivity.
  - reflexivity.
  - reflexivity.
  - reflexivity.
  - simpl. lia.
Defined.

(** C8 as stated fails: with a cache supplied, a template that imports
    nothing compiles and renders. *)
Lemma C8_cache_alone_does_not_reject :
  let options := Some (withCache (VRef (Given 1))) in
  truthy (Options.cache (handleOptions noFile options)) = true
  /\ exists template,
       compileTemplate noFile 100 "Hello World" options = Ok template
       /\ render template VUndef emptyStore = Ok "Hello World".
Proof.
  split; [reflexivity|]. eexists. split; vm_compute; reflexivity.
Qed.

(** * Templates whose expressions only read *)

Section ReadOnly.

Variable cells : list cell.
Variable lookup : string -> outcome value.

Hypothesis cells_closed : forallb closedCell cells = true.

Hypothesis lookup_closed :
  forall x v, lookup x = Ok v -> x <> "$buffer" -> closedValue v = true.

Lemma getProp_closed (props : list (string * value)) (x : string) (v : value) :
  forallb (fun p => closedValue (snd p)) props = true ->
  getProp props x = Some v -> closedValue v = true.
Proof.
  induction props as [|[y w] props IH]; cbn [forallb getProp snd]; [discriminate|].
  intros H. apply andb_true_iff in H. destruct H as [Hw Hp].
  destruct (String.eqb x y); [intros [= <-]; exact Hw | now apply IH].
Qed.

Lemma cells_closed_at (l : nat) (props : list (string * value)) :
  nth_error cells l = Some (CObject props) ->
  forallb (fun p => closedValue (snd p)) props = true.
Proof.
  intros H. apply nth_error_In in H.
  rewrite forallb_forall in cells_closed. exact (cells_closed _ H).
Qed.

Lemma applyValue_closed (f : value) (args : list value) (r : value) :
  applyValue f args = Ok r -> closedValue r = true.
Proof.
  destruct f; cbn [applyValue]; try discriminate.
  destruct (escape (hd VUndef args)); [intros [= <-]; reflexivity | discriminate].
Qed.

Lemma xml_is_not_the_buffer (f : string) :
  String.eqb f "$xml" = true -> f <> "$buffer" /\ inList f implicitNames = false.
Proof. intros H. apply String.eqb_eq in H. subst f. split; [discriminate | reflexivity]. Qed.

(** A read-only expression has a value without a reference to a fresh cell. *)
Fixpoint readValue_closed (e : expr) :
  readOnly e = true ->
  forall v, readValue cells lookup e = Ok v -> closedValue v = true.
Proof.
  destruct e as [x| | |b|n|s|props|elems|a name|f args|ps body|a b|t e];
    cbn [readOnly readValue]; intros Hro v; try discriminate;
    try (intros [= <-]; reflexivity).
  - (* a variable *)
    destruct (inList x implicitNames); [discriminate|].
    intros H. apply (lookup_closed x v H).
    intros ->. discriminate Hro.
  - (* a property *)
    destruct (readValue cells lookup a) as [w| | |] eqn:Ea; cbn [bind];
      try discriminate.
    destruct w as [| | | | |[l|l]|]; try discriminate.
    destruct (nth_error cells l) as [[props|]|] eqn:El; try discriminate.
    destruct (inList name implicitNames); [discriminate|].
    intros [= <-]. destruct (getProp props name) as [w|] eqn:Ep; [|reflexivity].
    exact (getProp_closed props name w (cells_closed_at l props El) Ep).
  - (* a call *)
    destruct f as [f| | | | | | | | | | | |]; try discriminate.
    destruct args as [|a [|]]; try discriminate.
    destruct (if inList f implicitNames then Unsupported else lookup f) as [fv| | |];
      cbn [bind]; try discriminate.
    destruct (readValue cells lookup a) as [w| | |]; cbn [bind]; try discriminate.
    apply applyValue_closed.
  - (* a disjunction *)
    apply andb_true_iff in Hro. destruct Hro as [Ha Hb].
    destruct (readValue cells lookup a) as [w| | |] eqn:Ea; cbn [bind];
      try discriminate.
    destruct (truthy w).
    + intros [= <-]. exact (readValue_closed a Ha w Ea).
    + exact (readValue_closed b Hb v).
Qed.

(** Evaluating a read-only expression leaves the store as it is and gives
    the value [readValue] computes. *)
Fixpoint evalExpr_readOnly (e : expr) :
  readOnly e = true ->
  forall env st, agrees cells lookup env st ->
    evalExpr e env st = do v <- readValue cells lookup e; Ok (v, st).
Proof.
  destruct e as [x| | |b|n|s|props|elems|a name|f args|ps body|a b|t e];
    cbn [readOnly readValue]; intros Hro env st Hag; try discriminate;
    try reflexivity.
  - (* a variable *)
    cbn [evalExpr]. destruct (inList x implicitNames) eqn:Ei; [reflexivity|].
    rewrite (proj2 Hag x); [reflexivity | | exact Ei].
    intros ->. discriminate Hro.
  - (* a property *)
    cbn [evalExpr]. rewrite (evalExpr_readOnly a Hro env st Hag).
    destruct (readValue cells lookup a) as [w| | |] eqn:Ea; cbn [bind];
      try reflexivity.
    assert (Hw := readValue_closed a Hro w Ea).
    destruct w as [| | | | |[l|l]|]; try reflexivity; [|discriminate Hw].
    unfold objectAt. cbn [cellAt]. rewrite (proj1 Hag).
    destruct (nth_error cells l) as [[props|]|]; try reflexivity.
    destruct (inList name implicitNames); reflexivity.
  - (* a call *)
    destruct f as [f| | | | | | | | | | | |]; try discriminate.
    destruct args as [|a [|]]; try discriminate.
    apply andb_true_iff in Hro. destruct Hro as [Hf Ha].
    destruct (xml_is_not_the_buffer f Hf) as [Hne Hi].
    cbn [evalExpr]. rewrite Hi. rewrite (proj2 Hag f Hne Hi).
    destruct (lookup f) as [fv| | |]; cbn [bind]; try reflexivity.
    rewrite (evalExpr_readOnly a Ha env st Hag).
    destruct (readValue cells lookup a) as [w| | |]; reflexivity.
  - (* a disjunction *)
    apply andb_true_iff in Hro. destruct Hro as [Ha Hb].
    cbn [evalExpr]. rewrite (evalExpr_readOnly a Ha env st Hag).
    destruct (readValue cells lookup a) as [w| | |]; cbn [bind]; try reflexivity.
    destruct (truthy w); [reflexivity|].
    apply (evalExpr_readOnly b Hb env st Hag).
Qed.

Lemma evalList_readOnly (args : list expr) :
  forallb readOnly args = true ->
  forall env st, agrees cells lookup env st ->
    evalList env args st = do vs <- readValues cells lookup args; Ok (vs, st).
Proof.
  induction args as [|a args IH]; intros Hro env st Hag; [reflexivity|].
  cbn [forallb] in Hro. apply andb_true_iff in Hro. destruct Hro as [Ha Hargs].
  cbn [evalList readValues]. fold (evalList env).
  rewrite (evalExpr_readOnly a Ha env st Hag).
  destruct (readValue cells lookup a) as [w| | |]; cbn [bind]; try reflexivity.
  rewrite (IH Hargs env st Hag).
  destruct (readValues cells lookup args); reflexivity.
Qed.

End ReadOnly.

Section TemplateScope.

Variable cells : list cell.
Variable locals : value.

Hypothesis cells_closed : forallb closedCell cells = true.
Hypothesis locals_closed : closedValue locals = true.

Lemma templateLookup_closed (x : string) (v : value) :
  templateLookup cells locals x = Ok v -> x <> "$buffer" -> closedValue v = true.
Proof.
  unfold templateLookup. intros H _.
  destruct (getProp (ownProps cells locals) x) as [w|] eqn:Eo.
  - injection H as <-. revert Eo. unfold ownProps.
    destruct locals as [| | | | |[l|l]|]; try discriminate.
    destruct (nth_error cells l) as [[props|]|] eqn:El; try discriminate.
    apply getProp_closed. exact (cells_closed_at cells cells_closed l props El).
  - destruct (String.eqb x "$locals"); [injection H as <-; exact locals_closed|].
    destruct (String.eqb x "$xml"); [injection H as <-; reflexivity|].
    destruct (nth_error cells 0) as [[globals|]|] eqn:Eg; try discriminate.
    destruct (getProp globals x) as [w|] eqn:Ew.
    + injection H as <-.
      exact (getProp_closed globals x w (cells_closed_at cells cells_closed 0 globals Eg) Ew).
    + destruct (String.eqb x "undefined"); [injection H as <-; reflexivity | discriminate].
Qed.

(** The scope chain of the statements of a template: the object of [with],
    the activation record of the scoped function, that of the compiled
    function. *)
Lemma agrees_template (st : store) (w inner outer : loc) (b1 b2 : value) :
  given st = cells ->
  objectAt st w = Some (ownProps cells locals) ->
  objectAt st inner = Some [("$locals", locals); ("$buffer", b1)] ->
  objectAt st outer = Some [("$locals", locals); ("$xml", VEscape); ("$buffer", b2)] ->
  agrees cells (templateLookup cells locals)
    [ScopeWith w; ScopeFunction inner; ScopeFunction outer] st.
Proof.
  intros Hg Hw Hi Ho. split; [exact Hg|].
  intros x Hx _.
  assert (Hb : String.eqb x "$buffer" = false) by now apply String.eqb_neq.
  unfold getVar, templateLookup. cbn [resolve scopeCell]. rewrite Hw.
  destruct (getProp (ownProps cells locals) x) as [v|] eqn:Eo.
  - rewrite Hw, Eo. reflexivity.
  - rewrite Hi. cbn [getProp]. rewrite Hb.
    destruct (String.eqb x "$locals") eqn:E1.
    + rewrite Hi. cbn [getProp]. rewrite E1. reflexivity.
    + rewrite Ho. cbn [getProp]. rewrite E1, Hb.
      destruct (String.eqb x "$xml") eqn:E2.
      * rewrite Ho. cbn [getProp]. rewrite E1, E2. reflexivity.
      * unfold objectAt, GLOBAL. cbn [cellAt]. rewrite Hg.
        destruct (nth_error cells 0) as [[globals|]|]; reflexivity.
Qed.

(** The push of read-only arguments onto the buffer. *)
Lemma push_readOnly (env : list scope) (st : store) (b : loc)
    (elems : list value) (args : list expr) :
  agrees cells (templateLookup cells locals) env st ->
  forallb readOnly args = true ->
  getVar env st "$buffer" = Ok (VRef b) ->
  cellAt st b = Some (CArray elems) ->
  evalStmt (push args) env st
  = do vs <- readValues cells (templateLookup cells locals) args;
    Ok (Normal, update st b (CArray (elems ++ vs))).
Proof.
  intros Hag Hro Hbuf Hcell. unfold push.
  cbn [evalStmt evalExpr inList existsb implicitNames String.eqb Ascii.eqb Bool.eqb orb].
  rewrite Hbuf. cbn [bind]. rewrite Hcell.
  cbn [String.eqb Ascii.eqb Bool.eqb].
  fold (evalList env).
  rewrite (evalList_readOnly cells (templateLookup cells locals) cells_closed
             templateLookup_closed args Hro env st Hag).
  destruct (readValues cells (templateLookup cells locals) args) as [vs| | |];
    cbn [bind]; try reflexivity.
  rewrite Hcell. reflexivity.
Qed.

End TemplateScope.

Lemma varNames_push (args : list expr) : varNames (push args) = [].
Proof. reflexivity. Qed.

Section RenderTwice.

#[local] Arguments push : simpl never.

Ltac run_push :=
  repeat (progress (cbn; unfold objectAt, getVar, putAt, activation; cbn;
                    rewrite ?varNames_push; cbn;
                    repeat match goal with
                           | H : nth_error _ _ = _ |- _ => rewrite H
                           | H : getProp _ _ = _ |- _ => rewrite H
                           | H : join _ _ = _ |- _ => rewrite H
                           end)).

Ltac side_store :=
  repeat (progress (unfold getVar, objectAt, ownProps; cbn;
                    repeat match goal with
                           | H : nth_error _ _ = _ |- _ => rewrite H
                           | H : getProp _ _ = _ |- _ => rewrite H
                           end));
  reflexivity.

Ltac push_step cells locals Hcl Hro :=
  match goal with
  | |- context [evalStmt (push ?args) ?env ?st] =>
      erewrite (push_readOnly cells locals Hcl (eq_refl true) env st _ _ args);
      [ | eapply agrees_template; [reflexivity | side_store | reflexivity | reflexivity]
        | exact Hro | side_store | reflexivity ]
  end.

(** Two renders in a row, the arguments of the push being read-only: the
    first, then the second in the store the first left. *)
Ltac twice_readOnly cells locals args Hcl Hro :=
  run_push;
  push_step cells locals Hcl Hro;
  let vs := fresh "vs" in
  let Evs := fresh "Evs" in
  destruct (readValues cells (templateLookup cells locals) args)
    as [vs| | |] eqn:Evs; cbn [bind]; try reflexivity;
  let s := fresh "s" in
  let Ej := fresh "Ej" in
  destruct (join EmptyString vs) as [s|] eqn:Ej;
  run_push; try reflexivity;
  push_step cells locals Hcl Hro;
  rewrite Evs; run_push; reflexivity.

Lemma renderTwice_readOnly (src : string) (args : list expr)
    (cells : list cell) (locals : value) :
  forallb readOnly args = true ->
  forallb closedCell cells = true ->
  usable (mkStore cells []) locals ->
  let template := mkTemplate ["$xml"; "$locals"] src (wrapped [push args]) in
  renderTwice template locals (mkStore cells [])
  = do (v, _) <- callTemplate template locals (mkStore cells []); Ok (v, v).
Proof.
  intros Hro Hcl Hlocals template.
  unfold renderTwice, callTemplate, callFunction, template.
  destruct Hlocals as [Hf | (l & props & -> & Hobj & Hbuf)].
  - destruct (falsy_cases _ Hf) as [->|[->|[->|[->| ->]]]]; clear Hf.
    + twice_readOnly cells VUndef args Hcl Hro.
    + twice_readOnly cells VNull args Hcl Hro.
    + twice_readOnly cells (VBool false) args Hcl Hro.
    + twice_readOnly cells (VNum 0) args Hcl Hro.
    + twice_readOnly cells (VStr EmptyString) args Hcl Hro.
  - destruct l as [n|n]; [|destruct n; discriminate Hobj].
    unfold objectAt in Hobj. cbn in Hobj.
    destruct (nth_error cells n) as [[props'|]|] eqn:Hcell; try discriminate.
    injection Hobj as ->.
    twice_readOnly cells (VRef (Given n)) args Hcl Hro.
Qed.

End RenderTwice.

Lemma renderTwice_literal (src v : string) (cells : list cell) (locals : value) :
  usable (mkStore cells []) locals ->
  renderTwice (mkTemplate ["$xml"; "$locals"] src (wrapped [push [EStr v]]))
    locals (mkStore cells [])
  = Ok (VStr v, VStr v).
Proof.
  intros [H | (l & props & -> & Hobj & Hbuf)].
  - destruct (falsy_cases _ H) as [->|[->|[->|[->| ->]]]];
      vm_compute; reflexivity.
  - destruct l as [n|n]; [|destruct n; discriminate Hobj].
    unfold objectAt in Hobj. cbn in Hobj.
    destruct (nth_error cells n) as [[props'|]|] eqn:Hcell; try discriminate.
    injection Hobj as ->.
    unfold renderTwice, callTemplate, callFunction.
    run_store. reflexivity.
Qed.

(** A template without a tag renders the same text twice. *)
Lemma literal_template_renders_the_same_twice
    (loadFile : Loader) (options : option PartialOptions.t)
    (text : string) (fuel : nat) (cells : list cell) (locals : value) :
  JS.includes text
    (DelimiterOptions.open (Options.delimiters (handleOptions loadFile options)))
  = false ->
  (String.length text < fuel)%nat ->
  usable (mkStore cells []) locals ->
  exists template out,
    compileTemplate loadFile fuel text options = Ok template
    /\ renderTwice template locals (mkStore cells []) = Ok (VStr out, VStr out).
Proof.
  intros Hfree Hfuel Hlocals.
  eexists. exists (cooked false text).
  split; [apply compileTemplate_literal; assumption|].
  now apply renderTwice_literal.
Qed.

Lemma compileTemplate_params
    (loadFile : Loader) (options : option PartialOptions.t)
    (text : string) (fuel : nat) (template : CompiledTemplate) :
  compileTemplate loadFile fuel text options = Ok template ->
  template = mkTemplate ["$xml"; "$locals"] (source template) (body template).
Proof.
  unfold compileTemplate.
  destruct (parseTemplate fuel text (handleOptions loadFile options)) as [parsed| | |];
    cbn [bind]; try discriminate.
  unfold newFunction. destruct (parseFunctionBody (wrap parsed)); [|discriminate].
  intros [= <-]. reflexivity.
Qed.

(** C9 (amended).  A compiled template whose code is one push of literals
    and of read-only expressions (variables, literals, reads of data
    properties, disjunctions, [$xml] of such an expression: no assignment,
    no call of other code) gives the same result twice: the second render,
    made with the same locals in the store the first left, returns or throws
    what the first did. *)
Theorem C9_read_only_template_renders_the_same_twice
    (loadFile : Loader) (options : option PartialOptions.t)
    (text : string) (fuel : nat) (template : CompiledTemplate)
    (args : list expr) (cells : list cell) (locals : value) :
  compileTemplate loadFile fuel text options = Ok template ->
  body template = wrapped [push args] ->
  forallb readOnly args = true ->
  forallb closedCell cells = true ->
  usable (mkStore cells []) locals ->
  renderTwice template locals (mkStore cells [])
  = do (v, _) <- callTemplate template locals (mkStore cells []); Ok (v, v).
Proof.
  intros Hcompile Hbody Hro Hcl Hlocals.
  rewrite (compileTemplate_params _ _ _ _ _ Hcompile), Hbody.
  now apply renderTwice_readOnly.
Qed.

Lemma C9_read_only_template_renders_the_same_twice_witness :
  exists template,
    compileTemplate noFile 100 "Hello <%= user.name %>, <%- greeting || 'you' %>!" None
    = Ok template
    /\ renderTwice template (VRef (Given 1))
         (mkStore [CObject [];
                   CObject [("user", VRef (Given 2)); ("greeting", VStr EmptyString)];
                   CObject [("name", VStr "<Ann>")]] [])
       = Ok (VStr "Hello &lt;Ann&gt;, you!", VStr "Hello &lt;Ann&gt;, you!").
Proof.
  eexists. split; [vm_compute; reflexivity|].
  rewrite (C9_read_only_template_renders_the_same_twice noFile None
             "Hello <%= user.name %>, <%- greeting || 'you' %>!" 100 _
             [EStr "Hello "; ECall (EIdent "$xml") [EMember (EIdent "user") "name"];
              EStr ", "; EOr (EIdent "greeting") (EStr "you"); EStr "!"]).
  - vm_compute. reflexivity.
  - vm_compute. reflexivity.
  - reflexivity.
  - reflexivity.
  - reflexivity.
  - right. exists (Given 1). eexists. repeat split.
Defined.

(** C9 as stated fails: the expression of an output tag may assign, here to
    a global variable, and the second render with the same locals returns
    another text than the first. *)
Lemma C9_output_tags_may_assign :
  exists template,
    compileTemplate noFile 100 "<%- this.g %><%- g = 'x' %>" None = Ok template
    /\ body template
       = wrapped [push [EStr EmptyString; EMember EThis "g"; EStr EmptyString;
                        EAssign (EIdent "g") (EStr "x"); EStr EmptyString]]
    /\ renderTwice template VUndef emptyStore = Ok (VStr "x", VStr "xx").
Proof.
  eexists. repeat split; vm_compute; reflexivity.
Qed.

Lemma join_skips_null (sep : string) (v : value) (before after_ : list value) :
  v = VNull \/ v = VUndef ->
  join sep (before ++ v :: after_) = join sep (before ++ VStr EmptyString :: after_).
Proof.
  intros Hv.
  assert (E : joinElement v = joinElement (VStr EmptyString))
    by (destruct Hv as [-> | ->]; reflexivity).
  induction before as [|w before IH]; cbn [app].
  - destruct after_; cbn [join]; now rewrite E.
  - cbn [join]. rewrite IH.
    destruct (before ++ v :: after_)%list eqn:E1;
      [now destruct before|].
    destruct (before ++ VStr EmptyString :: after_)%list eqn:E2;
      [now destruct before|].
    reflexivity.
Qed.

(** C10.  The final [join] adds nothing for an element that is [null] or
    [undefined]: an unescaped-output tag whose expression has such a value
    renders nothing between the text before it and the text after it. *)
Theorem C10_raw_null_renders_nothing
    (loadFile : Loader) (pre post : string) (v : value) (fuel : nat)
    (cells : list cell) (n : nat) (props : list (string * value)) :
  let unparsed := pre ++ "<%- x %>" ++ post in
  v = VNull \/ v = VUndef ->
  JS.indexOf unparsed "<%" 0 = JS.len pre ->
  JS.includes post "<%" = false ->
  mentions CR (pre ++ post) = false ->
  (String.length unparsed < fuel)%nat ->
  nth_error cells n = Some (CObject props) ->
  getProp props "x" = Some v ->
  getProp props "$buffer" = None ->
  (forall (sep : string) (before after_ : list value),
      join sep (before ++ v :: after_)
      = join sep (before ++ VStr EmptyString :: after_))
  /\ exists template,
       compileTemplate loadFile fuel unparsed None = Ok template
       /\ body template = wrapped [push [EStr pre; EIdent "x"; EStr post]]
       /\ render template (VRef (Given n)) (mkStore cells []) = Ok (pre ++ post).
Proof.
  intros unparsed Hv Hfirst Hfree Hcr Hfuel Hcell Hx Hbuf.
  split; [intros; now apply join_skips_null|].
  rewrite mentions_append in Hcr. apply orb_false_iff in Hcr.
  destruct Hcr as [Hcr1 Hcr2].
  set (opts := handleOptions loadFile None).
  assert (Hparse : parseTemplate fuel unparsed opts
                   = Ok (HEADER ++ escapeLiteral pre ++ String "`" ",( x ),`"
                                ++ escapeLiteral post ++ FOOTER)).
  { assert (P := parseFrom_one_tag opts pre ("- x %>" ++ post) 3 (S (String.length post))).
    cbv zeta in P. cbn in P. rewrite prefix_empty in P.
    specialize (P ltac:(discriminate) Hfirst eq_refl Hfree (Nat.lt_succ_diag_r _)).
    assert (P' : parseFrom (String.length pre + S (S (String.length post))) opts
                   unparsed 0 HEADER
                 = Ok (HEADER ++ escapeLiteral pre ++ String "`" ",( x ),`"
                              ++ escapeLiteral post ++ FOOTER))
      by exact P.
    unfold parseTemplate. rewrite <- P'.
    apply more_fuel; [|rewrite P'; discriminate].
    unfold unparsed in Hfuel. rewrite !length_append in Hfuel.
    cbn [String.length] in Hfuel. lia. }
  eexists. split; [|split].
  - unfold compileTemplate. fold opts. rewrite Hparse. cbn [bind].
    unfold newFunction, parseFunctionBody. rewrite wrap_one_tag.
    rewrite (lex_generated BEFORE ",( x ),`" AFTER pre post _ _ _ eq_refl eq_refl eq_refl).
    rewrite (cooked_without_CR _ Hcr1), (cooked_without_CR _ Hcr2).
    vm_compute. reflexivity.
  - reflexivity.
  - unfold render, callTemplate, callFunction.
    destruct Hv as [-> | ->]; run_store; rewrite ?append_empty_r; reflexivity.
Qed.

Lemma C10_raw_null_renders_nothing_witness :
  exists template,
    compileTemplate noFile 100 "a<%- x %>b" None = Ok template
    /\ body template = wrapped [push [EStr "a"; EIdent "x"; EStr "b"]]
    /\ render template (VRef (Given 1))
         (mkStore [CObject []; CObject [("x", VUndef)]] [])
       = Ok "ab".
Proof.
  apply (C10_raw_null_renders_nothing noFile "a" "b" VUndef 100
           [CObject []; CObject [("x", VUndef)]] 1 [("x", VUndef)]).
  - right. reflexivity.
  - reflexivity.
  - reflexivity.
  - reflexivity.
  - simpl. lia.
  - reflexivity.
  - reflexivity.
  - reflexivity.
Defined.

(** * The escaper *)

Lemma entity_cases (c : ascii) :
  In c entityChars ->
  c = "<"%char \/ c = ">"%char \/ c = "&"%char \/ c = "'"%char \/ c = "034"%char.
Proof.
  intros H. cbn in H. intuition auto.
Qed.

Lemma entityChars_dec (c : ascii) : {In c entityChars} + {~ In c entityChars}.
Proof. apply in_dec, ascii_dec. Qed.

Lemma mentions_escapeChar (c x : ascii) :
  In c markupChars -> mentions c (escapeChar x) = false.
Proof.
  intros Hc.
  destruct (entityChars_dec x) as [Hx|Hx].
  - destruct (entity_cases x Hx) as [->|[->|[->|[->| ->]]]];
      cbn in Hc; intuition (subst; reflexivity).
  - rewrite (escapeChar_other x Hx). cbn [mentions]. rewrite orb_false_r.
    apply Ascii.eqb_neq. intros ->. apply Hx.
    cbn in Hc. cbn. intuition auto.
Qed.

Lemma mentions_replaceEach_escapeChar (c : ascii) (t : string) :
  In c markupChars -> mentions c (replaceEach escapeChar t) = false.
Proof.
  intros Hc. induction t as [|x t IH]; [reflexivity|].
  cbn [replaceEach]. now rewrite mentions_append, IH, mentions_escapeChar.
Qed.

(** X1.  Whatever [escape] returns holds none of the characters [<], [>],
    ['] and the double quote: each was replaced by its entity. *)
Theorem escape_result_has_no_markup (unsafe : value) (s : string) (c : ascii) :
  escape unsafe = Some s ->
  In c markupChars ->
  mentions c s = false.
Proof.
  intros He Hc.
  assert (G : forall t, option_map (replaceEach escapeChar) (String_ unsafe) = Some t ->
                        mentions c t = false).
  { intros t. destruct (String_ unsafe) as [u|]; [|discriminate].
    intros [= <-]. now apply mentions_replaceEach_escapeChar. }
  destruct unsafe; cbn [escape] in He; try (now apply G);
    injection He as <-; reflexivity.
Qed.

Lemma escape_result_has_no_markup_witness :
  mentions "<" "&lt;a href=&apos;x&apos;&gt;" = false.
Proof.
  apply (escape_result_has_no_markup (VStr "<a href='x'>") _ "<").
  - reflexivity.
  - simpl. tauto.
Defined.

Lemma escapeChar_entity (x : ascii) :
  In x entityChars ->
  In (escapeChar x) entities
  /\ exists tl, escapeChar x = String "&" tl /\ mentions "&" tl = false.
Proof.
  intros Hx.
  destruct (entity_cases x Hx) as [->|[->|[->|[->| ->]]]];
    (split; [cbn; tauto | eexists; split; reflexivity]).
Qed.

Lemma mentions_get (c : ascii) (s : string) (k : nat) :
  String.get k s = Some c -> mentions c s = true.
Proof.
  revert k. induction s as [|x s IH]; intros k H; [destruct k; discriminate|].
  destruct k as [|k]; cbn in H.
  - injection H as ->. cbn [mentions]. now rewrite Ascii.eqb_refl.
  - cbn [mentions]. rewrite (IH k H). apply orb_true_r.
Qed.

Lemma get_append_l (a b : string) (k : nat) :
  (k < String.length a)%nat -> String.get k (a ++ b) = String.get k a.
Proof.
  revert k. induction a as [|x a IH]; intros k Hk; [cbn in Hk; lia|].
  destruct k as [|k]; [reflexivity|]. cbn. apply IH. cbn in Hk. lia.
Qed.

Lemma get_append_r (a b : string) (k : nat) :
  (String.length a <= k)%nat ->
  String.get k (a ++ b) = String.get (k - String.length a) b.
Proof.
  revert k. induction a as [|x a IH]; intros k Hk.
  - cbn. now rewrite Nat.sub_0_r.
  - destruct k as [|k]; [cbn in Hk; lia|]. cbn. apply IH. cbn in Hk. lia.
Qed.

Lemma drop_append_r (a b : string) (k : nat) :
  (String.length a <= k)%nat ->
  JS.drop k (a ++ b) = JS.drop (k - String.length a) b.
Proof.
  revert k. induction a as [|x a IH]; intros k Hk.
  - cbn. now rewrite Nat.sub_0_r.
  - destruct k as [|k]; [cbn in Hk; lia|]. cbn. apply IH. cbn in Hk. lia.
Qed.

Lemma ampersand_starts_entity (s : string) (k : nat) :
  String.get k (replaceEach escapeChar s) = Some "&"%char ->
  exists e, In e entities
            /\ String.prefix e (JS.drop k (replaceEach escapeChar s)) = true.
Proof.
  revert k. induction s as [|x s IH]; intros k H; [destruct k; discriminate|].
  cbn [replaceEach] in *.
  destruct (entityChars_dec x) as [Hx|Hx].
  - destruct (escapeChar_entity x Hx) as (Hin & tl & E & Hamp).
    destruct (Nat.lt_ge_cases k (String.length (escapeChar x))) as [Hk|Hk].
    + rewrite get_append_l in H by exact Hk.
      destruct k as [|k].
      * exists (escapeChar x). split; [exact Hin|]. cbn [JS.drop]. apply prefix_append.
      * rewrite E in H. cbn in H. apply mentions_get in H. congruence.
    + rewrite get_append_r in H by exact Hk.
      destruct (IH _ H) as (e & He & Hp).
      exists e. split; [exact He|]. now rewrite drop_append_r.
  - rewrite (escapeChar_other x Hx) in *. cbn [append] in *.
    destruct k as [|k].
    + cbn in H. injection H as ->. exfalso. apply Hx. cbn. tauto.
    + cbn in H. cbn [JS.drop]. now apply IH.
Qed.

(** X2.  Every ampersand of what [escape] returns starts one of the five
    entities: an ampersand of the input became [&amp;], and the entities
    are the only other source of one. *)
Theorem escape_ampersand_starts_entity (unsafe : value) (s : string) (k : nat) :
  escape unsafe = Some s ->
  String.get k s = Some "&"%char ->
  exists e, In e entities /\ String.prefix e (JS.drop k s) = true.
Proof.
  intros He H.
  assert (G : option_map (replaceEach escapeChar) (String_ unsafe) = Some s ->
              exists e, In e entities /\ String.prefix e (JS.drop k s) = true).
  { destruct (String_ unsafe) as [u|]; [|discriminate].
    intros [= <-]. now apply ampersand_starts_entity. }
  destruct unsafe; cbn [escape] in He; try (now apply G);
    injection He as <-; destruct k; discriminate H.
Qed.

Lemma escape_ampersand_starts_entity_witness :
  exists e, In e entities /\ String.prefix e (JS.drop 7 "a&amp;b&lt;") = true.
Proof.
  apply (escape_ampersand_starts_entity (VStr "a&b<") _ 7); reflexivity.
Defined.

Lemma escapeChar_nonempty (x : ascii) :
  exists c tl, escapeChar x = String c tl.
Proof.
  destruct (entityChars_dec x) as [Hx|Hx].
  - destruct (escapeChar_entity x Hx) as (_ & tl & E & _). eauto.
  - rewrite (escapeChar_other x Hx). eauto.
Qed.

Lemma replaceEach_escapeChar_injective (s t : string) :
  replaceEach escapeChar s = replaceEach escapeChar t -> s = t.
Proof.
  revert t. induction s as [|x s IH]; intros [|y t] H.
  - reflexivity.
  - cbn [replaceEach] in H. destruct (escapeChar_nonempty y) as (c & tl & E).
    rewrite E in H. discriminate.
  - cbn [replaceEach] in H. destruct (escapeChar_nonempty x) as (c & tl & E).
    rewrite E in H. discriminate.
  - cbn [replaceEach] in H.
    destruct (entityChars_dec x) as [Hx|Hx], (entityChars_dec y) as [Hy|Hy].
    + destruct (entity_cases x Hx) as [->|[->|[->|[->| ->]]]];
        destruct (entity_cases y Hy) as [->|[->|[->|[->| ->]]]];
        cbn in H; try discriminate H;
        (f_equal; apply IH; congruence).
    + exfalso. destruct (escapeChar_entity x Hx) as (_ & tl & E & _).
      rewrite E, (escapeChar_other y Hy) in H. cbn in H.
      injection H as <- _. apply Hy. cbn. tauto.
    + exfalso. destruct (escapeChar_entity y Hy) as (_ & tl & E & _).
      rewrite E, (escapeChar_other x Hx) in H. cbn in H.
      injection H as -> _. apply Hx. cbn. tauto.
    + rewrite (escapeChar_other x Hx), (escapeChar_other y Hy) in H. cbn in H.
      injection H as -> H. f_equal. now apply IH.
Qed.

(** X3.  [escape] loses nothing: two strings with the same escaped text are
    the same string. *)
Theorem escape_is_injective (s t : string) :
  escape (VStr s) = escape (VStr t) -> s = t.
Proof.
  cbn. intros [= H]. now apply replaceEach_escapeChar_injective.
Qed.

Lemma escape_is_injective_witness : "a<b" = "a<b".
Proof. apply (escape_is_injective "a<b" "a<b"). reflexivity. Defined.

Lemma length_replaceEach_escapeChar (s : string) :
  (String.length s <= String.length (replaceEach escapeChar s))%nat.
Proof.
  induction s as [|x s IH]; [reflexivity|].
  cbn [replaceEach]. rewrite length_append.
  destruct (escapeChar_nonempty x) as (c & tl & ->). cbn [String.length]. lia.
Qed.

(** X4.  [escape] returns a string unchanged exactly when the string holds
    none of the five characters it replaces. *)
Theorem escape_unchanged_iff (s : string) :
  escape (VStr s) = Some s
  <-> forall c, In c entityChars -> mentions c s = false.
Proof.
  cbn. split.
  - intros [= H]. induction s as [|x s IH]; [reflexivity|].
    cbn [replaceEach] in H.
    destruct (entityChars_dec x) as [Hx|Hx].
    + exfalso. assert (L := length_replaceEach_escapeChar s).
      apply (f_equal String.length) in H. rewrite length_append in H.
      destruct (entity_cases x Hx) as [->|[->|[->|[->| ->]]]];
        cbn in H; lia.
    + rewrite (escapeChar_other x Hx) in H. cbn in H. injection H as H.
      intros c Hc. cbn [mentions]. rewrite (IH H c Hc), orb_false_r.
      apply Ascii.eqb_neq. now intros ->.
  - intros H. f_equal. induction s as [|x s IH]; [reflexivity|].
    cbn [replaceEach]. rewrite escapeChar_other.
    + cbn. f_equal. apply IH. intros c Hc. specialize (H c Hc).
      cbn [mentions] in H. now apply orb_false_iff in H.
    + intros Hx. specialize (H x Hx). cbn [mentions] in H.
      now rewrite Ascii.eqb_refl in H.
Qed.

(** * Handled options *)

Lemma handleOptions_all (loadFile : Loader) (o : Options.t) :
  Options.minify o <> MinifyBool true ->
  handleOptions loadFile (Some (allOptions o)) = o.
Proof.
  intros H. destruct o as [b e [] esc lf c m]. cbn.
  destruct m as [[]|]; [contradiction| |]; reflexivity.
Qed.

Lemma handleOptions_minify_cases (loadFile : Loader) (options : option PartialOptions.t) :
  Options.minify (handleOptions loadFile options) = MinifyBool false
  \/ exists settings,
       Options.minify (handleOptions loadFile options) = MinifyObject settings.
Proof.
  destruct options as [o|]; cbn; [|now left].
  destruct (PartialOptions.minify o) as [[[]|]|]; eauto.
Qed.

(** X5.  Options that went through [handleOptions] are a fixed point of it:
    handled again, with whatever default loader, they come back unchanged.
    [Template] relies on it, whose handled options [compileTemplate] handles
    a second time. *)
Theorem handleOptions_is_idempotent
    (loadFile loadFile' : Loader) (options : option PartialOptions.t) :
  handleOptions loadFile' (Some (allOptions (handleOptions loadFile options)))
  = handleOptions loadFile options.
Proof.
  apply handleOptions_all.
  destruct (handleOptions_minify_cases loadFile options) as [E | [settings E]];
    rewrite E; discriminate.
Qed.

(** X6.  After [handleOptions] the [minify] option is [false] or an object
    of settings, never [true]: a request [minify: true] became the default
    settings, and settings the caller gave are kept. *)
Theorem handleOptions_minify_is_settings
    (loadFile : Loader) (options : option PartialOptions.t) (settings : MinifyOptions) :
  Options.minify (handleOptions loadFile options) <> MinifyBool true
  /\ Options.minify (handleOptions loadFile (Some (withMinify (MinifyBool true))))
     = MinifyObject DEFAULT_MINIFY
  /\ Options.minify (handleOptions loadFile (Some (withMinify (MinifyObject settings))))
     = MinifyObject settings
  /\ Options.minify (handleOptions loadFile None) = MinifyBool false.
Proof.
  split; [|repeat split].
  destruct (handleOptions_minify_cases loadFile options) as [E | [s E]];
    rewrite E; discriminate.
Qed.

(** * The shape of the generated code *)

Lemma bind_Ok {A B : Type} (m : outcome A) (k : A -> outcome B) (b : B) :
  bind m k = Ok b -> exists a, m = Ok a /\ k a = Ok b.
Proof. destruct m; cbn; try discriminate. eauto. Qed.

Lemma parseFrom_shape (options : Options.t) (fuel : nat) :
  forall (unparsed : string) (i : Z) (parsed result : string),
    parseFrom fuel options unparsed i parsed = Ok result ->
    exists mid, result = parsed ++ mid ++ FOOTER.
Proof.
  induction fuel as [|fuel IH]; intros unparsed i parsed result; [discriminate|].
  assert (K : forall j p, parseFrom fuel options unparsed j (parsed ++ p) = Ok result ->
                          exists mid, result = parsed ++ mid ++ FOOTER).
  { intros j p H. destruct (IH _ _ _ _ H) as [mid ->].
    exists (p ++ mid). now rewrite !append_assoc. }
  cbn [parseFrom].
  destruct (negb (i <? JS.len unparsed)).
  { intros [= <-]. exists EmptyString. reflexivity. }
  destruct (String.eqb _ _).
  - repeat match goal with
           | |- context [if ?c then _ else _] => destruct c
           end;
      intros H; apply bind_Ok in H; destruct H as ([body j] & _ & H).
    + now apply IH in H.
    + rewrite append_assoc in H. now apply K in H.
    + rewrite append_assoc in H. now apply K in H.
    + apply bind_Ok in H. destruct H as (child & _ & H).
      rewrite append_assoc in H. now apply K in H.
    + rewrite append_assoc in H. now apply K in H.
  - destruct (JS.charAt unparsed i) as [c|]; [|apply K].
    rewrite (literal_branch _ c (fun p => parseFrom fuel options unparsed (i + 1) p)).
    apply K.
Qed.

(** X7.  Code that [parseTemplate] or [getTemplate] returns starts with the
    header [with($locals||{}){$buffer.push(`] and ends with the footer
    [`);}]: the scanner opens the block and the push before the first turn
    of its loop and closes them after the last.  What stands between the two
    is the code of the tags and the text of the template, which a code tag
    may fill with any text, a closing brace included. *)
Theorem parsed_code_starts_with_header_and_ends_with_footer
    (options : Options.t) (fuel : nat) (unparsed templateName parsed : string) :
  parseTemplate fuel unparsed options = Ok parsed
  \/ getTemplate fuel options templateName = Ok parsed ->
  exists mid, parsed = HEADER ++ mid ++ FOOTER.
Proof.
  intros [H | H].
  - now apply parseFrom_shape in H.
  - destruct fuel as [|fuel]; cbn [getTemplate] in H;
      destruct (truthy (Options.cache options)); try discriminate.
    apply bind_Ok in H. destruct H as (loaded & _ & H).
    now apply parseFrom_shape in H.
Qed.

Lemma parsed_code_starts_with_header_and_ends_with_footer_witness :
  exists mid,
    HEADER ++ "a`,$xml( x ),`b" ++ FOOTER = HEADER ++ mid ++ FOOTER.
Proof.
  apply (parsed_code_starts_with_header_and_ends_with_footer
           (handleOptions noFile None) 100 "a<%= x %>b" EmptyString).
  left. reflexivity.
Defined.
(** * Templates segment by segment *)

Lemma startsNone_spec (pat : string) (n : nat) :
  forall s : string,
    startsNone pat n s = true ->
    forall k : nat, (k < n)%nat -> String.prefix pat (JS.drop k s) = false.
Proof.
  induction n as [|n IH]; intros s H k Hk; [lia|].
  cbn [startsNone] in H. apply andb_true_iff in H. destruct H as [H0 H1].
  apply negb_true_iff in H0.
  destruct k as [|k]; [exact H0|].
  destruct s as [|c s]; cbn [JS.drop]; [exact H0|].
  apply IH; [exact H1 | lia].
Qed.

Section Segments.

Variable options : Options.t.

Let d := Options.delimiters options.
Let OPEN := DelimiterOptions.open d.

Lemma isCase_single (c : option ascii) (m x : string) :
  isCase (JS.head (m ++ x)) m = true -> JS.drop 1 (m ++ x) = x.
Proof.
  destruct m as [|a m]; cbn [append JS.head].
  - destruct x as [|b x]; cbn [JS.head isCase]; [discriminate|].
    intros H. apply String.eqb_eq in H. discriminate.
  - cbn [isCase]. intros H. apply String.eqb_eq in H. injection H as <-.
    reflexivity.
Qed.

Lemma marker_width (k : kind) (x : string) :
  tagKind d (JS.head (marker d k ++ x)) = k ->
  JS.drop (markerWidth k) (marker d k ++ x) = x
  /\ String.length (marker d k) = markerWidth k.
Proof.
  assert (S1 : forall m, isCase (JS.head (m ++ x)) m = true ->
                         JS.drop 1 (m ++ x) = x /\ String.length m = 1%nat).
  { intros m H. split; [now apply (isCase_single None)|].
    destruct m as [|a m]; cbn [append JS.head] in H.
    - destruct x; cbn in H; discriminate.
    - cbn [isCase] in H. apply String.eqb_eq in H. injection H as <-. reflexivity. }
  unfold tagKind.
  destruct k; cbn [marker markerWidth append JS.drop]; try (split; reflexivity);
    repeat match goal with
           | |- context [if ?c then _ else _] => destruct c eqn:?
           end; try discriminate; intros _; now apply S1.
Qed.

Lemma tagCode_child (k : kind) (body child : string) :
  k <> KImport -> tagCode k body child = tagCode k body EmptyString.
Proof. destruct k; try reflexivity. intros H. now contradiction H. Qed.

Lemma parseFrom_segments (f : nat) (l : list segment) :
  wellFormed f options l ->
  forall (a parsed : string) (fuel : nat),
    (String.length (templateText d l) + f < fuel)%nat ->
    parseFrom fuel options (a ++ templateText d l) (JS.len a) parsed
    = Ok (parsed ++ templateCode l ++ FOOTER).
Proof.
  induction l as [|s l IH]; intros Hwf a parsed fuel Hfuel.
  - destruct fuel as [|fuel]; [lia|]. cbn [templateText templateCode append].
    rewrite append_empty_r. apply parseFrom_end. lia.
  - destruct s as [text | k body child].
    + destruct Hwf as [Hfree Hwf]. fold d in Hfree.
      cbn [templateText segmentText templateCode segmentCode] in *.
      rewrite length_append in Hfuel.
      replace fuel with (String.length text + (fuel - String.length text))%nat by lia.
      rewrite parseFrom_literal by (apply startsNone_spec; exact Hfree).
      rewrite <- append_assoc.
      rewrite (IH Hwf) by lia. now rewrite !append_assoc.
    + destruct Hwf as (Hkind & Hclose & Hne & Himport & Hwf). fold d in Hkind, Hclose, Hne.
      cbn [templateText segmentText templateCode segmentCode] in *.
      fold OPEN in Hne |- *.
      set (cm := closeMarker d k) in *.
      set (rest := marker d k ++ body ++ cm ++ templateText d l) in *.
      assert (U : (OPEN ++ marker d k ++ body ++ cm) ++ templateText d l = OPEN ++ rest)
        by (unfold rest; now rewrite !append_assoc).
      rewrite U.
      assert (Hne' : OPEN ++ rest <> EmptyString).
      { rewrite <- U. intros E. apply (f_equal String.length) in E.
        rewrite length_append in E.
        destruct (OPEN ++ marker d k ++ body ++ cm); [now apply Hne|].
        cbn in E. lia. }
      destruct fuel as [|fuel]; [lia|].
      assert (T := parseFrom_tag options a rest fuel parsed Hne').
      cbv zeta in T. fold d OPEN in T. rewrite Hkind in T. fold cm in T.
      destruct (marker_width k _ Hkind) as [Hdrop Hw].
      fold cm rest in Hdrop. rewrite Hdrop in T.
      assert (Hs : JS.search cm (body ++ cm ++ templateText d l) 0
                   = Some (String.length body)).
      { rewrite <- append_assoc. now apply search_append. }
      rewrite Hs, take_append in T.
      assert (Hlen : (String.length (templateText d l) + f < fuel)%nat).
      { assert (0 < String.length (OPEN ++ marker d k ++ body ++ cm))%nat.
        { destruct (OPEN ++ marker d k ++ body ++ cm); [contradiction | cbn; lia]. }
        unfold rest, OPEN, cm, d in *. rewrite !length_append in *. lia. }
      assert (N : forall code,
                 parseFrom fuel options (a ++ OPEN ++ rest)
                   (JS.len a + JS.len OPEN + Z.of_nat (markerWidth k)
                    + Z.of_nat (String.length body) + JS.len cm)
                   (parsed ++ code)
                 = Ok (parsed ++ (code ++ templateCode l) ++ FOOTER)).
      { intros code.
        assert (V : a ++ OPEN ++ rest
                    = (a ++ OPEN ++ marker d k ++ body ++ cm) ++ templateText d l)
          by (unfold rest; now rewrite !append_assoc).
        assert (C : JS.len a + JS.len OPEN + Z.of_nat (markerWidth k)
                    + Z.of_nat (String.length body) + JS.len cm
                    = JS.len (a ++ OPEN ++ marker d k ++ body ++ cm)).
        { rewrite !len_append. unfold JS.len. rewrite Hw. lia. }
        rewrite V, C, (IH Hwf) by exact Hlen. now rewrite !append_assoc. }
      rewrite T.
      assert (Dk : k = KImport \/ k <> KImport) by (destruct k; auto; right; discriminate);
      destruct Dk as [-> | Hk].
      * assert (G : getTemplate fuel options (importName body) = Ok child).
        { rewrite <- (Himport eq_refl).
          apply more_fuel; [lia | rewrite (Himport eq_refl); discriminate]. }
        rewrite G. cbn [bind]. apply N.
      * rewrite (tagCode_child k body child Hk).
        destruct k; try apply N. now contradiction Hk.
Qed.

End Segments.

(** X8.  The scanner finds the segments of a template and generates their
    code in order: for a text made of literal runs and tags that are well
    formed, [parseTemplate] returns the header, the code of each segment
    (the escaped text of a literal run, the code of a tag around its body)
    and the footer. *)
Theorem template_code_is_the_code_of_its_segments
    (options : Options.t) (f fuel : nat) (l : list segment) :
  let d := Options.delimiters options in
  wellFormed f options l ->
  (String.length (templateText d l) + f < fuel)%nat ->
  parseTemplate fuel (templateText d l) options
  = Ok (HEADER ++ templateCode l ++ FOOTER).
Proof.
  intros d Hwf Hfuel. unfold parseTemplate.
  exact (parseFrom_segments options f l Hwf EmptyString HEADER fuel Hfuel).
Qed.

Lemma template_code_is_the_code_of_its_segments_witness :
  parseTemplate 100 "<p>Hi <%= name %>!<%! <%- old %> !%><% n = 1 %><%+ world %></p>"
    (handleOptions exampleLoader None)
  = Ok (HEADER ++ "<p>Hi `,$xml( name ),`!`); n = 1 ;$buffer.push(`"
          ++ "`,``);(function($buffer,$locals){" ++ HEADER ++ "World" ++ FOOTER
          ++ "})($buffer,$locals);$buffer.push(`</p>" ++ FOOTER).
Proof.
  apply (template_code_is_the_code_of_its_segments
           (handleOptions exampleLoader None) 10 100
           [ Literal "<p>Hi "; Tag KEscape " name " EmptyString; Literal "!";
             Tag KComment "! <%- old %> " EmptyString;
             Tag KCode " n = 1 " EmptyString;
             Tag KImport " world " (HEADER ++ "World" ++ FOOTER);
             Literal "</p>" ]).
  - cbn [wellFormed]. repeat split; try reflexivity; try discriminate.
  - simpl. lia.
Defined.

(** * What the scanner reads of the options *)

Lemma isCase_long (c : option ascii) (m : string) :
  String.length m <> 1%nat -> isCase c m = false.
Proof.
  intros H. destruct c as [a|]; [|reflexivity]. cbn [isCase].
  apply String.eqb_neq. intros <-. now apply H.
Qed.

Lemma isCase_same (c : option ascii) (m1 m2 : string) :
  sameMarker m1 m2 -> isCase c m1 = isCase c m2.
Proof.
  intros [-> | [H1 H2]]; [reflexivity|].
  now rewrite !isCase_long.
Qed.

Lemma sameMarker_refl (m : string) : sameMarker m m.
Proof. now left. Qed.

Lemma scan_congruence (o1 o2 : Options.t) (fuel : nat) :
  sameScan o1 o2 ->
  (forall (unparsed : string) (i : Z) (parsed : string),
      parseFrom fuel o1 unparsed i parsed = parseFrom fuel o2 unparsed i parsed)
  /\ (forall templateName : string,
        getTemplate fuel o1 templateName = getTemplate fuel o2 templateName).
Proof.
  intros (Hopen & Hclose & Hcomment & Hescape & Hunescape & Himport & Hload & Hcache).
  cbv zeta in *.
  induction fuel as [|fuel [IHp IHg]]; split.
  - reflexivity.
  - intros name. cbn [getTemplate]. now rewrite Hcache.
  - intros unparsed i parsed. cbn [parseFrom].
    rewrite <- Hopen, <- Hclose.
    destruct (negb (i <? JS.len unparsed)); [reflexivity|].
    destruct (String.eqb _ _).
    + set (c := JS.charAt unparsed _).
      rewrite <- (isCase_same c _ _ Hcomment), <- (isCase_same c _ _ Hescape),
        <- (isCase_same c _ _ Hunescape), <- (isCase_same c _ _ Himport).
      assert (T : forall (t : string) (k1 k2 : string * Z -> outcome string) j,
                 (forall r, k1 r = k2 r) ->
                 bind (tagContents unparsed j t) k1 = bind (tagContents unparsed j t) k2).
      { intros t k1 k2 j H. destruct (tagContents unparsed j t); cbn [bind];
          [apply H | | |]; reflexivity. }
      destruct (isCase c (DelimiterOptions.comment (Options.delimiters o1))) eqn:E.
      { destruct Hcomment as [<- | [L _]]; [|now rewrite isCase_long in E].
        apply T. intros [body j]. apply IHp. }
      destruct (isCase c (DelimiterOptions.escape (Options.delimiters o1))).
      { apply T. intros [body j]. apply IHp. }
      destruct (isCase c (DelimiterOptions.unescape (Options.delimiters o1))).
      { apply T. intros [body j]. apply IHp. }
      destruct (isCase c (DelimiterOptions.import (Options.delimiters o1))).
      { apply T. intros [body j]. rewrite IHg.
        destruct (getTemplate fuel o2 _); cbn [bind]; try reflexivity. apply IHp. }
      apply T. intros [body j]. apply IHp.
    + destruct (JS.charAt unparsed i) as [c|]; [|apply IHp].
      rewrite !(literal_branch _ c (fun p => parseFrom fuel _ unparsed (i + 1) p)).
      apply IHp.
  - intros name. cbn [getTemplate]. rewrite Hcache, Hload.
    destruct (truthy (Options.cache o2)); [reflexivity|].
    destruct (Options.loadFile o2 name); cbn [bind]; try reflexivity. apply IHp.
Qed.

(** X9.  [compileTemplate] never reads the options [escape] and [minify]:
    with any other values for them it returns the same function, whose
    [$xml] is the built-in [escape] whatever escaping function the caller
    gave.  (Loaders are functions of the template name.) *)
Theorem escape_option_is_never_used
    (loadFile : Loader) (o : PartialOptions.t)
    (escape' : option (value -> option string)) (minify' : option Minify)
    (fuel : nat) (unparsed templateName : string) :
  compileTemplate loadFile fuel unparsed (Some (withEscapeAndMinify escape' minify' o))
  = compileTemplate loadFile fuel unparsed (Some o)
  /\ loadAndCompileTemplate loadFile fuel templateName
       (Some (withEscapeAndMinify escape' minify' o))
     = loadAndCompileTemplate loadFile fuel templateName (Some o).
Proof.
  assert (S : sameScan
                (handleOptions loadFile (Some (withEscapeAndMinify escape' minify' o)))
                (handleOptions loadFile (Some o))).
  { repeat split; try apply sameMarker_refl. }
  destruct (scan_congruence _ _ fuel S) as [Hp Hg].
  unfold compileTemplate, loadAndCompileTemplate, parseTemplate.
  now rewrite Hp, Hg.
Qed.

(** X10.  A delimiter of a tag kind is compared with the single code unit
    after the open delimiter, so one that is not exactly one code unit long
    is never met: options that differ only in such delimiters, the empty
    string included, give the same code.  Every other property of the two
    sets of options is the same, so a loader that reads [base] and [ext], as
    the default loader does, is given the same; a loader that reads the
    delimiters of its second argument is outside the statement. *)
Theorem unmatched_markers_give_the_same_code
    (o1 o2 : Options.t) (fuel : nat) (unparsed templateName : string) :
  sameButUnmatchedMarkers o1 o2 ->
  parseTemplate fuel unparsed o1 = parseTemplate fuel unparsed o2
  /\ getTemplate fuel o1 templateName = getTemplate fuel o2 templateName.
Proof.
  intros (_ & _ & _ & Hload & Hcache & _ & Hopen & Hclose & Hc & He & Hu & Hi).
  assert (S : sameScan o1 o2).
  { repeat split; try assumption. now rewrite Hcache. }
  destruct (scan_congruence o1 o2 fuel S) as [Hp Hg].
  split; [apply Hp | apply Hg].
Qed.

Lemma unmatched_markers_give_the_same_code_witness :
  parseTemplate 100 "<%== x %>"
    (withDelimiterOptions (withEscapeDelimiter "==" DEFAULT_DELIMITERS)
       (DEFAULT_OPTIONS noFile))
  = Ok (HEADER ++ "`);== x ;$buffer.push(`" ++ FOOTER).
Proof.
  transitivity
    (parseTemplate 100 "<%== x %>"
       (withDelimiterOptions (withEscapeDelimiter EmptyString DEFAULT_DELIMITERS)
          (DEFAULT_OPTIONS noFile))); [|reflexivity].
  apply (unmatched_markers_give_the_same_code _ _ 100 "<%== x %>" EmptyString).
  repeat split; try apply sameMarker_refl.
  right. split; simpl; lia.
Defined.
(** * Imports that fail and imports that never end *)

Lemma parseFrom_literal_short (options : Options.t) (run a b : string)
    (fuel : nat) (parsed : string) :
  (forall k : nat, (k < String.length run)%nat ->
     String.prefix (DelimiterOptions.open (Options.delimiters options))
       (JS.drop k (run ++ b)) = false) ->
  (fuel <= String.length run)%nat ->
  parseFrom fuel options (a ++ run ++ b) (JS.len a) parsed = OutOfFuel.
Proof.
  intros Hopen Hfuel.
  assert (E : run ++ b = JS.take fuel run ++ JS.drop fuel run ++ b)
    by now rewrite <- append_assoc, take_drop.
  assert (L : String.length (JS.take fuel run) = fuel)
    by (rewrite length_take; lia).
  rewrite E.
  replace fuel with (String.length (JS.take fuel run) + 0)%nat at 1 by lia.
  rewrite parseFrom_literal; [reflexivity|].
  intros k Hk. rewrite <- E. apply Hopen. lia.
Qed.

(** X11.  An import whose template cannot be had aborts the compilation
    with the error of the load: what [getTemplate] throws for the imported
    name, be it the rejection of the loader or an error in the imported
    text, is what [compileTemplate] throws. *)
Theorem failed_import_aborts
    (loadFile : Loader) (options : option PartialOptions.t)
    (pre rest message : string) (e f fuel : nat) :
  let opts := handleOptions loadFile options in
  let d := Options.delimiters opts in
  let unparsed := pre ++ DelimiterOptions.open d ++ rest in
  let body := JS.take e (JS.drop 1 rest) in
  tagKind d (JS.head rest) = KImport ->
  JS.search (DelimiterOptions.close d) (JS.drop 1 rest) 0 = Some e ->
  getTemplate f opts (importName body) = Throw message ->
  (forall parsed : string,
      parseFrom (S f) opts unparsed (JS.len pre) parsed = Throw message)
  /\ (JS.indexOf unparsed (DelimiterOptions.open d) 0 = JS.len pre ->
      (String.length pre + f < fuel)%nat ->
      compileTemplate loadFile fuel unparsed options = Throw message).
Proof.
  intros opts d unparsed body Hkind Hclose Hget.
  assert (Hne : DelimiterOptions.open d ++ rest <> EmptyString).
  { apply append_nonempty_r, (tagKind_nonempty d). rewrite Hkind. discriminate. }
  assert (T : forall parsed,
             parseFrom (S f) opts unparsed (JS.len pre) parsed = Throw message).
  { intros parsed.
    assert (T := parseFrom_tag opts pre rest f parsed Hne). cbv zeta in T.
    fold d unparsed in T. rewrite Hkind in T.
    cbn [markerWidth closeMarker] in T. rewrite Hclose in T. fold body in T.
    rewrite T, Hget. reflexivity. }
  split; [exact T|].
  intros Hfirst Hfuel. unfold compileTemplate. fold opts. unfold parseTemplate.
  assert (E : parseFrom (String.length pre + S f) opts unparsed 0 HEADER
              = Throw message).
  { assert (L := parseFrom_literal opts pre EmptyString
                   (DelimiterOptions.open d ++ rest) (S f) HEADER).
    cbn [append] in L. change (JS.len EmptyString) with 0 in L.
    fold unparsed in L. rewrite L by (apply first_occurrence; exact Hfirst).
    apply T. }
  rewrite (proj1 (more_fuel opts (String.length pre + S f)) fuel unparsed 0 HEADER);
    [rewrite E; reflexivity | lia | rewrite E; discriminate].
Qed.

Lemma failed_import_aborts_witness :
  compileTemplate noFile 100 "Hello <%+ world %>" None = Throw "ENOENT: world".
Proof.
  destruct (failed_import_aborts noFile None "Hello " "+ world %>" "ENOENT: world"
              7 1 100) as [_ H].
  - reflexivity.
  - reflexivity.
  - reflexivity.
  - apply H; [reflexivity | simpl; lia].
Defined.

(** X12.  Nothing detects a template that imports itself: when the first
    tag of the text the loader gives for a name is an import of that name,
    loading the template never returns, whatever the fuel. *)
Theorem self_import_never_returns
    (loadFile : Loader) (options : option PartialOptions.t)
    (templateName pre rest : string) (e : nat) :
  let opts := handleOptions loadFile options in
  let d := Options.delimiters opts in
  let text := pre ++ DelimiterOptions.open d ++ rest in
  truthy (Options.cache opts) = false ->
  Options.loadFile opts templateName = Ok text ->
  JS.indexOf text (DelimiterOptions.open d) 0 = JS.len pre ->
  tagKind d (JS.head rest) = KImport ->
  JS.search (DelimiterOptions.close d) (JS.drop 1 rest) 0 = Some e ->
  importName (JS.take e (JS.drop 1 rest)) = templateName ->
  forall fuel : nat,
    getTemplate fuel opts templateName = OutOfFuel
    /\ loadAndCompileTemplate loadFile fuel templateName options = OutOfFuel.
Proof.
  intros opts d text Hcache Hload Hfirst Hkind Hclose Hname.
  assert (Hne : DelimiterOptions.open d ++ rest <> EmptyString).
  { apply append_nonempty_r, (tagKind_nonempty d). rewrite Hkind. discriminate. }
  assert (G : forall fuel, getTemplate fuel opts templateName = OutOfFuel).
  { intros fuel. induction fuel as [fuel IH] using lt_wf_ind.
    destruct fuel as [|fuel]; cbn [getTemplate]; rewrite Hcache; [reflexivity|].
    rewrite Hload. cbn [bind].
    destruct (Nat.le_gt_cases fuel (String.length pre)) as [Hshort | Hlong].
    - apply (parseFrom_literal_short opts pre EmptyString _ fuel HEADER);
        [apply first_occurrence; exact Hfirst | exact Hshort].
    - replace fuel with (String.length pre + S (fuel - String.length pre - 1))%nat
        by lia.
      assert (L := parseFrom_literal opts pre EmptyString
                     (DelimiterOptions.open d ++ rest)
                     (S (fuel - String.length pre - 1)) HEADER).
      cbn [append] in L. change (JS.len EmptyString) with 0 in L.
      fold text in L. rewrite L by (apply first_occurrence; exact Hfirst).
      assert (T := parseFrom_tag opts pre rest (fuel - String.length pre - 1)
                     (HEADER ++ escapeLiteral pre) Hne).
      cbv zeta in T. fold d text in T. rewrite Hkind in T.
      cbn [markerWidth closeMarker] in T. rewrite Hclose, Hname in T.
      rewrite T, IH by lia. reflexivity. }
  intros fuel. split; [apply G|].
  unfold loadAndCompileTemplate. fold opts. now rewrite G.
Qed.

Lemma self_import_never_returns_witness :
  getTemplate 1000 (handleOptions loopLoader None) "loop" = OutOfFuel
  /\ loadAndCompileTemplate loopLoader 1000 "loop" None = OutOfFuel.
Proof.
  apply (self_import_never_returns loopLoader None "loop" "again " "+ loop %>" 6);
    reflexivity.
Defined.

(** * The scan ends *)

Lemma indexOf_from (s pat : string) (from : Z) :
  0 <= from ->
  0 <= JS.indexOf s pat from ->
  Z.min from (JS.len s) <= JS.indexOf s pat from.
Proof.
  intros Hfrom. unfold JS.indexOf, JS.clamp.
  rewrite search_shift.
  destruct (JS.search pat _ 0) as [e|]; cbn [option_map]; [|lia].
  intros _. assert (H := len_nonneg s). lia.
Qed.

Lemma isCase_true (c : option ascii) (m : string) :
  isCase c m = true -> String.length m = 1%nat.
Proof.
  destruct c as [a|]; [|discriminate]. cbn [isCase].
  intros H. apply String.eqb_eq in H. now subst m.
Qed.

Section Termination.

Variable options : Options.t.
Variable f : nat.
Variable unparsed : string.

Let d := Options.delimiters options.
Let OPEN := DelimiterOptions.open d.
Let CLOSE := DelimiterOptions.close d.

Hypothesis Hdelimiters : OPEN <> EmptyString \/ CLOSE <> EmptyString.
Hypothesis Hloads : forall name, getTemplate f options name <> OutOfFuel.

Lemma tagContents_advances (i j j' : Z) (endTag body : string) :
  0 <= i < JS.len unparsed ->
  i <= j ->
  i + 1 <= j + JS.len endTag ->
  i + 1 <= JS.len unparsed + JS.len endTag ->
  tagContents unparsed j endTag = Ok (body, j') ->
  i + 1 <= j' + 1.
Proof.
  intros Hi Hj Ht Hu. unfold tagContents.
  destruct (JS.indexOf unparsed endTag j <? 0) eqn:E; [discriminate|].
  apply Z.ltb_ge in E. intros [= _ <-].
  assert (G := indexOf_from unparsed endTag j ltac:(lia) E). lia.
Qed.

Lemma parseFrom_returns (n : nat) :
  forall (i : Z) (parsed : string) (fuel : nat),
    0 <= i ->
    JS.len unparsed - i <= Z.of_nat n ->
    (n + f < fuel)%nat ->
    parseFrom fuel options unparsed i parsed <> OutOfFuel.
Proof.
  induction n as [|n IH]; intros i parsed fuel Hi Hn Hfuel;
    (destruct fuel as [|fuel]; [lia|]); cbn [parseFrom];
    destruct (i <? JS.len unparsed) eqn:Ei; cbn [negb]; try discriminate;
    apply Z.ltb_lt in Ei; [lia|].
  assert (Next : forall j p, i + 1 <= j ->
                             parseFrom fuel options unparsed j p <> OutOfFuel)
    by (intros j p Hj; apply IH; lia).
  assert (Lo := len_nonneg OPEN). assert (Lc := len_nonneg CLOSE).
  assert (Hprogress : i + 1 <= i + JS.len OPEN + JS.len CLOSE).
  { destruct Hdelimiters as [H | H].
    - destruct OPEN; [contradiction|]. unfold JS.len in *. cbn [String.length] in *. lia.
    - destruct CLOSE; [contradiction|]. unfold JS.len in *. cbn [String.length] in *. lia. }
  assert (T : forall j t (k : string * Z -> outcome string),
             i <= j -> i + 1 <= j + JS.len t ->
             (forall body j', i + 1 <= j' + 1 -> k (body, j') <> OutOfFuel) ->
             bind (tagContents unparsed j t) k <> OutOfFuel).
  { intros j t k Hj Ht Hk.
    destruct (tagContents unparsed j t) as [[body j']| | |] eqn:E; cbn [bind];
      try discriminate.
    - apply Hk. apply (tagContents_advances i j j' t body); try assumption; try lia.
      assert (H := len_nonneg t). lia.
    - unfold tagContents in E.
      destruct (JS.indexOf unparsed t j <? 0); discriminate. }
  fold d. fold OPEN. fold CLOSE.
  destruct (String.eqb _ _).
  - destruct (isCase _ (DelimiterOptions.comment d)) eqn:E1.
    { apply T; [lia | | intros; apply Next; lia].
      rewrite len_append. apply isCase_true in E1. unfold JS.len at 2.
      rewrite E1. lia. }
    destruct (isCase _ (DelimiterOptions.escape d)).
    { apply T; [lia | lia | intros; apply Next; lia]. }
    destruct (isCase _ (DelimiterOptions.unescape d)).
    { apply T; [lia | lia | intros; apply Next; lia]. }
    destruct (isCase _ (DelimiterOptions.import d)).
    { apply T; [lia | lia |]. intros body j' Hj'.
      destruct (getTemplate fuel options _) as [child| | |] eqn:G; cbn [bind];
        try discriminate; [apply Next; lia|].
      exfalso. apply (Hloads (JS.trim (nth 0 (JS.split "|" body) EmptyString))).
      rewrite <- G. symmetry. apply more_fuel; [lia | apply Hloads]. }
    apply T; [lia | lia | intros; apply Next; lia].
  - destruct (JS.charAt unparsed i) as [c|]; [|apply Next; lia].
    rewrite (literal_branch _ c (fun p => parseFrom fuel options unparsed (i + 1) p)).
    apply Next. lia.
Qed.

End Termination.

(** X13.  The scan always ends.  Unless the open and the close delimiter
    are both empty, [parseTemplate] returns or throws for every text, with
    fuel above the length of the text, as long as the loads of the imported
    templates return or throw. *)
Theorem parseTemplate_always_returns
    (options : Options.t) (f fuel : nat) (unparsed : string) :
  let d := Options.delimiters options in
  DelimiterOptions.open d <> EmptyString \/ DelimiterOptions.close d <> EmptyString ->
  (forall name, getTemplate f options name <> OutOfFuel) ->
  (String.length unparsed + f < fuel)%nat ->
  parseTemplate fuel unparsed options <> OutOfFuel.
Proof.
  intros d Hd Hloads Hfuel. unfold parseTemplate.
  apply (parseFrom_returns options f unparsed Hd Hloads (String.length unparsed));
    [lia | unfold JS.len; lia | exact Hfuel].
Qed.

Lemma parseTemplate_always_returns_witness :
  parseTemplate 20 "<%= a %><%+ b %>" (handleOptions noFile None) <> OutOfFuel.
Proof.
  apply (parseTemplate_always_returns (handleOptions noFile None) 1 20 "<%= a %><%+ b %>").
  - left. discriminate.
  - intros name. discriminate.
  - simpl. lia.
Defined.

(** * The body of a tag *)

Lemma take_take_drop (n m : nat) (s : string) :
  JS.take (n + m) s = JS.take n s ++ JS.take m (JS.drop n s).
Proof.
  revert s. induction n as [|n IH]; intros s; [reflexivity|].
  destruct s as [|c s]; cbn; [now destruct m|]. now rewrite IH.
Qed.

(** X14.  What [tagContents] returns: the body is the text from the cursor
    up to the first occurrence of the end tag at or after the cursor, so the
    end tag follows the body in the text and does not occur in the body, and
    the cursor is left on the last code unit of the end tag. *)
Theorem tagContents_stops_at_first_end_tag
    (unparsed endTag body : string) (i j : Z) :
  0 <= i <= JS.len unparsed ->
  endTag <> EmptyString ->
  tagContents unparsed i endTag = Ok (body, j) ->
  JS.slice unparsed i (j + 1) = body ++ endTag
  /\ j = i + JS.len body + JS.len endTag - 1
  /\ JS.includes body endTag = false.
Proof.
  intros Hi Hne.
  set (a := JS.take (Z.to_nat i) unparsed).
  set (b := JS.drop (Z.to_nat i) unparsed).
  assert (U : unparsed = a ++ b) by (unfold a, b; now rewrite take_drop).
  assert (La : JS.len a = i).
  { unfold a, JS.len in *. rewrite length_take. lia. }
  rewrite U, <- La, tagContents_cursor.
  destruct (JS.search endTag b 0) as [e|] eqn:E; [|discriminate].
  intros [= <- <-].
  destruct (search_some _ _ _ E) as (Hlen & Hat & Hbefore).
  assert (Lb : String.length (JS.take e b) = e) by (rewrite length_take; lia).
  split; [|split].
  - replace (JS.len a + Z.of_nat e + JS.len endTag - 1 + 1)
      with (JS.len a + Z.of_nat (e + String.length endTag))
      by (unfold JS.len; lia).
    rewrite slice_cursor, take_take_drop. f_equal. now apply prefix_take.
  - unfold JS.len. rewrite Lb. lia.
  - unfold JS.includes. rewrite indexOf_start.
    destruct (JS.search endTag (JS.take e b) 0) as [e'|] eqn:E'; [|reflexivity].
    exfalso.
    destruct (search_some _ _ _ E') as (Hlen' & Hat' & _).
    rewrite Lb in Hlen'.
    assert (Ht : (0 < String.length endTag)%nat)
      by (destruct endTag; [contradiction | cbn; lia]).
    rewrite <- (prefix_within endTag (JS.take e b) (JS.drop e b)) in Hat'
      by (rewrite Lb; lia).
    rewrite take_drop in Hat'.
    rewrite (Hbefore e') in Hat' by lia. discriminate.
Qed.

Lemma tagContents_stops_at_first_end_tag_witness :
  JS.slice "<%= a > b %> c %>" 3 12 = " a > b " ++ "%>"
  /\ 11 = 3 + JS.len " a > b " + JS.len "%>" - 1
  /\ JS.includes " a > b " "%>" = false.
Proof.
  apply (tagContents_stops_at_first_end_tag "<%= a > b %> c %>" "%>" " a > b " 3 11).
  - unfold JS.len. simpl. lia.
  - discriminate.
  - reflexivity.
Defined.

Lemma parseFrom_no_progress (options : Options.t) (unparsed : string) :
  let d := Options.delimiters options in
  DelimiterOptions.open d = EmptyString ->
  DelimiterOptions.close d = EmptyString ->
  unparsed <> EmptyString ->
  tagKind d (JS.head unparsed) = KCode ->
  forall (fuel : nat) (parsed : string),
    parseFrom (S fuel) options unparsed 0 parsed
    = parseFrom fuel options unparsed 0 (parsed ++ "`);;$buffer.push(`").
Proof.
  intros d Hopen Hclose Hne Hkind fuel parsed.
  assert (T := parseFrom_tag options EmptyString unparsed fuel parsed).
  cbv zeta in T. fold d in T. rewrite Hopen, Hkind in T.
  cbn [append markerWidth closeMarker JS.drop] in T. rewrite Hclose in T.
  assert (S0 : JS.search EmptyString unparsed 0 = Some 0%nat).
  { destruct unparsed; [contradiction | reflexivity]. }
  rewrite S0 in T. change (JS.len EmptyString) with 0 in T.
  exact (T Hne).
Qed.

(** X15.  With an empty open and an empty close delimiter a code tag starts
    at the cursor and ends there.  When the first code unit of the text is
    the delimiter of no tag kind, a turn of the loop leaves the cursor at
    the start of the text and appends the eighteen code units of an empty
    code tag to the generated code: after [n] turns the scan is where it
    started, with [n] copies of them appended, and no number of turns ends
    it with code.  (Strings are unbounded here; an engine bounds them, and
    ends the run by refusing, with a [RangeError], the string that has
    grown too long.) *)
Theorem empty_delimiters_make_no_progress
    (options : Options.t) (unparsed : string) :
  let d := Options.delimiters options in
  DelimiterOptions.open d = EmptyString ->
  DelimiterOptions.close d = EmptyString ->
  unparsed <> EmptyString ->
  tagKind d (JS.head unparsed) = KCode ->
  String.length "`);;$buffer.push(`" = 18%nat
  /\ (forall (n fuel : nat) (parsed : string),
        parseFrom (n + fuel) options unparsed 0 parsed
        = parseFrom fuel options unparsed 0
            (parsed ++ copies n "`);;$buffer.push(`"))
  /\ (forall (fuel : nat) (code : string),
        parseTemplate fuel unparsed options <> Ok code).
Proof.
  intros d Hopen Hclose Hne Hkind.
  assert (Step := parseFrom_no_progress options unparsed Hopen Hclose Hne Hkind).
  split; [reflexivity|]. split.
  - induction n as [|n IH]; intros fuel parsed.
    + cbn [copies Nat.add]. now rewrite append_empty_r.
    + cbn [copies Nat.add]. rewrite Step, IH. now rewrite !append_assoc.
  - intros fuel code. unfold parseTemplate. generalize HEADER as parsed.
    induction fuel as [|fuel IH]; intros parsed; [discriminate|].
    rewrite Step. apply IH.
Qed.

Lemma empty_delimiters_make_no_progress_witness :
  parseFrom 3 (handleOptions noFile (Some (withDelimiters emptyBoth))) "Hello" 0 HEADER
  = parseFrom 1 (handleOptions noFile (Some (withDelimiters emptyBoth))) "Hello" 0
      (HEADER ++ "`);;$buffer.push(`" ++ "`);;$buffer.push(`")
  /\ parseTemplate 1000 "Hello" (handleOptions noFile (Some (withDelimiters emptyBoth)))
     <> Ok (HEADER ++ "Hello" ++ FOOTER).
Proof.
  destruct (empty_delimiters_make_no_progress
              (handleOptions noFile (Some (withDelimiters emptyBoth))) "Hello")
    as (_ & Hn & Hno); try reflexivity; [discriminate|].
  split; [exact (Hn 2%nat 1%nat HEADER) | apply Hno].
Defined.
(** * Output tags *)

Section OutputTag.

#[local] Arguments Z_to_string : simpl never.
#[local] Arguments replaceEach : simpl never.
#[local] Arguments Z.ltb : simpl never.
#[local] Arguments Z.abs : simpl never.

Lemma parse_output_tag (loadFile : Loader) (pre post code : string) (tag : string)
    (fuel : nat) :
  let unparsed := pre ++ "<%" ++ tag ++ " x %>" ++ post in
  (tag = "=" /\ code = ",$xml( x ),`") \/ (tag = "-" /\ code = ",( x ),`") ->
  JS.indexOf unparsed "<%" 0 = JS.len pre ->
  JS.includes post "<%" = false ->
  (String.length unparsed < fuel)%nat ->
  parseTemplate fuel unparsed (handleOptions loadFile None)
  = Ok (HEADER ++ escapeLiteral pre ++ String "`" code
               ++ escapeLiteral post ++ FOOTER).
Proof.
  intros unparsed Htag Hfirst Hfree Hfuel.
  set (opts := handleOptions loadFile None).
  assert (P := parseFrom_one_tag opts pre (tag ++ " x %>" ++ post) 3
                 (S (String.length post))).
  assert (P' : parseFrom (String.length pre + S (S (String.length post))) opts
                 unparsed 0 HEADER
               = Ok (HEADER ++ escapeLiteral pre ++ String "`" code
                            ++ escapeLiteral post ++ FOOTER)).
  { destruct Htag as [[-> ->] | [-> ->]]; cbv zeta in P; cbn in P;
      rewrite prefix_empty in P;
      exact (P ltac:(discriminate) Hfirst eq_refl Hfree (Nat.lt_succ_diag_r _)). }
  unfold parseTemplate. rewrite <- P'.
  apply more_fuel; [|rewrite P'; discriminate].
  unfold unparsed in Hfuel. rewrite !length_append in Hfuel.
  destruct Htag as [[-> _] | [-> _]]; cbn [String.length] in Hfuel; lia.
Qed.

(** The text an output tag renders, for either kind of output tag. *)
Lemma output_tag_renders
    (loadFile : Loader) (escaped : bool) (pre post shown : string) (v : value)
    (fuel : nat) (cells : list cell) (n : nat) (props : list (string * value)) :
  let unparsed := pre ++ (if escaped then "<%= x %>" else "<%- x %>") ++ post in
  JS.indexOf unparsed "<%" 0 = JS.len pre ->
  JS.includes post "<%" = false ->
  mentions CR (pre ++ post) = false ->
  (String.length unparsed < fuel)%nat ->
  nth_error cells n = Some (CObject props) ->
  getProp props "x" = Some v ->
  getProp props "$buffer" = None ->
  (escaped = true -> getProp props "$xml" = None) ->
  (if escaped then escape v else joinElement v) = Some shown ->
  exists template,
    compileTemplate loadFile fuel unparsed None = Ok template
    /\ render template (VRef (Given n)) (mkStore cells []) = Ok (pre ++ shown ++ post).
Proof.
  intros unparsed Hfirst Hfree Hcr Hfuel Hcell Hx Hbuf Hxml Hshown.
  rewrite mentions_append in Hcr. apply orb_false_iff in Hcr.
  destruct Hcr as [Hcr1 Hcr2].
  destruct escaped; subst unparsed.
  - specialize (Hxml eq_refl).
    assert (Hparse : parseTemplate fuel (pre ++ "<%= x %>" ++ post)
                       (handleOptions loadFile None)
                     = Ok (HEADER ++ escapeLiteral pre ++ String "`" ",$xml( x ),`"
                                  ++ escapeLiteral post ++ FOOTER))
      by exact (parse_output_tag loadFile pre post ",$xml( x ),`" "=" fuel
                  (or_introl (conj eq_refl eq_refl)) Hfirst Hfree Hfuel).
    eexists. split.
    + unfold compileTemplate. rewrite Hparse. cbn [bind].
      unfold newFunction, parseFunctionBody. rewrite wrap_one_tag.
      rewrite (lex_generated BEFORE ",$xml( x ),`" AFTER pre post _ _ _
                 eq_refl eq_refl eq_refl).
      rewrite (cooked_without_CR _ Hcr1), (cooked_without_CR _ Hcr2).
      vm_compute. reflexivity.
    + unfold render, callTemplate, callFunction.
      destruct v as [| |[]|z|s| |]; try discriminate Hshown;
        try (cbn in Hshown; destruct (MAX_SAFE_INTEGER <? Z.abs z) eqn:E;
             [discriminate Hshown|]);
        injection Hshown as <-; run_store; rewrite ?E; run_store;
        rewrite ?append_empty_r; reflexivity.
  - clear Hxml.
    assert (Hparse : parseTemplate fuel (pre ++ "<%- x %>" ++ post)
                       (handleOptions loadFile None)
                     = Ok (HEADER ++ escapeLiteral pre ++ String "`" ",( x ),`"
                                  ++ escapeLiteral post ++ FOOTER))
      by exact (parse_output_tag loadFile pre post ",( x ),`" "-" fuel
                  (or_intror (conj eq_refl eq_refl)) Hfirst Hfree Hfuel).
    eexists. split.
    + unfold compileTemplate. rewrite Hparse. cbn [bind].
      unfold newFunction, parseFunctionBody. rewrite wrap_one_tag.
      rewrite (lex_generated BEFORE ",( x ),`" AFTER pre post _ _ _ eq_refl eq_refl eq_refl).
      rewrite (cooked_without_CR _ Hcr1), (cooked_without_CR _ Hcr2).
      vm_compute. reflexivity.
    + unfold render, callTemplate, callFunction.
      destruct v as [| |[]|z|s| |]; try discriminate Hshown;
        try (cbn in Hshown; destruct (MAX_SAFE_INTEGER <? Z.abs z) eqn:E;
             [discriminate Hshown|]);
        injection Hshown as <-; run_store; rewrite ?E; run_store;
        rewrite ?append_empty_r; reflexivity.
Qed.

(** X16.  An output tag renders the text of the value of its expression in
    place, between the text before it and the text after it: for the
    unescaped tag the text the final [join] gives the value (nothing for
    [null] and [undefined], the decimal digits of a number that is an
    integer of at most [MAX_SAFE_INTEGER] in absolute value, [true] or
    [false]), for the escaped tag what [escape] returns for it.  A number
    beyond these integers, which the source writes with an exponent from
    [1e21] on, has no text here: [escape] and [joinElement] give [None] for
    it, and the statement does not speak of it. *)
Theorem output_tag_renders_the_value_in_place
    (loadFile : Loader) (escaped : bool) (pre post shown : string) (v : value)
    (fuel : nat) (cells : list cell) (n : nat) (props : list (string * value)) :
  let unparsed := pre ++ (if escaped then "<%= x %>" else "<%- x %>") ++ post in
  JS.indexOf unparsed "<%" 0 = JS.len pre ->
  JS.includes post "<%" = false ->
  mentions CR (pre ++ post) = false ->
  (String.length unparsed < fuel)%nat ->
  nth_error cells n = Some (CObject props) ->
  getProp props "x" = Some v ->
  getProp props "$buffer" = None ->
  (escaped = true -> getProp props "$xml" = None) ->
  (if escaped then escape v else joinElement v) = Some shown ->
  exists template,
    compileTemplate loadFile fuel unparsed None = Ok template
    /\ render template (VRef (Given n)) (mkStore cells []) = Ok (pre ++ shown ++ post).
Proof.
  intros unparsed. subst unparsed.
  apply (output_tag_renders loadFile escaped pre post shown v fuel cells n props).
Qed.

End OutputTag.

Lemma output_tag_renders_the_value_in_place_witness :
  exists template,
    compileTemplate noFile 100 "n = <%- x %>;" None = Ok template
    /\ render template (VRef (Given 1))
         (mkStore [CObject []; CObject [("x", VNum (-42))]] [])
       = Ok "n = -42;".
Proof.
  apply (output_tag_renders_the_value_in_place noFile false "n = " ";" "-42"
           (VNum (-42)) 100 [CObject []; CObject [("x", VNum (-42))]] 1
           [("x", VNum (-42))]).
  - reflexivity.
  - reflexivity.
  - reflexivity.
  - simpl. lia.
  - reflexivity.
  - reflexivity.
  - reflexivity.
  - discriminate.
  - reflexivity.
Defined.

(** * Code tags *)

Lemma startsNone_intro (pat : string) (n : nat) :
  forall s : string,
    (forall k : nat, (k < n)%nat -> String.prefix pat (JS.drop k s) = false) ->
    startsNone pat n s = true.
Proof.
  induction n as [|n IH]; intros s H; [reflexivity|].
  cbn [startsNone]. assert (H0 := H 0%nat ltac:(lia)). cbn [JS.drop] in H0.
  rewrite H0. cbn [negb andb].
  destruct s as [|c s]; [reflexivity|].
  apply IH. intros k Hk. apply (H (S k)). lia.
Qed.

Lemma prefix_cons (a b : ascii) (p s : string) :
  String.prefix (String a p) (String b s) = Ascii.eqb a b && String.prefix p s.
Proof.
  change (String.prefix (String a p) (String b s))
    with (if ascii_dec a b then String.prefix p s else false).
  destruct (ascii_dec a b) as [->|H].
  - now rewrite Ascii.eqb_refl.
  - apply Ascii.eqb_neq in H. now rewrite H.
Qed.

(** Text without the default open delimiter, before a tag or at the end. *)
Lemma startsNone_default (t r : string) :
  JS.includes t "<%" = false ->
  JS.head r <> Some "%"%char ->
  startsNone "<%" (String.length t) (t ++ r) = true.
Proof.
  intros H Hr. assert (N := no_occurrence _ _ H). clear H.
  apply startsNone_intro.
  induction t as [|c t IH]; intros k Hk; [cbn in Hk; lia|].
  destruct k as [|k].
  - assert (N0 := N 0%nat). cbn [JS.drop append] in *.
    rewrite prefix_cons in *.
    destruct (Ascii.eqb "<" c); [|reflexivity]. cbn [andb] in *.
    destruct t as [|c' t]; cbn [append].
    + destruct r as [|c' r]; [reflexivity|].
      rewrite prefix_cons.
      destruct (Ascii.eqb_spec "%" c') as [<-|]; [|reflexivity].
      now contradiction Hr.
    + rewrite prefix_cons in *.
      destruct (Ascii.eqb "%" c'); [|reflexivity].
      rewrite prefix_empty in N0. discriminate N0.
  - cbn [JS.drop append]. apply IH; [|cbn in Hk; lia].
    intros j. exact (N (S j)).
Qed.

Lemma lex_piece (code s rest : string) (ts : list token) :
  lexRun LNormal code = Some (ts, LTpl EmptyString) ->
  lex LNormal (code ++ escapeLiteral s ++ String "`" rest)
  = option_map (fun l => (ts ++ TTemplate (cooked false s) :: l)%list)
      (lex LNormal rest).
Proof.
  intros H. rewrite lex_app, H, (proj1 (lex_literal s rest EmptyString)).
  destruct (lex LNormal rest); reflexivity.
Qed.

(** One literal run of generated code read by the lexer, the tokens of the
    code before it being computed. *)
Ltac lex_code code s :=
  let r := eval vm_compute in (lexRun LNormal code) in
  lazymatch r with
  | Some (?ts, LTpl EmptyString) =>
      let R := fresh "R" in
      assert (R : lexRun LNormal code = Some (ts, LTpl EmptyString))
        by (vm_compute; reflexivity);
      lazymatch goal with
      | |- context [lex LNormal (code ++ escapeLiteral s ++ String "`" ?rest)] =>
          rewrite (lex_piece code s rest ts R)
      end;
      clear R
  end.

Section Conditional.

Variable loadFile : Loader.
Variables pre yes no post : string.

Let opts := handleOptions loadFile None.
Let unparsed :=
  pre ++ "<% if (c) { %>" ++ yes ++ "<% } else { %>" ++ no ++ "<% } %>" ++ post.

Hypothesis Hpre : JS.includes pre "<%" = false.
Hypothesis Hyes : JS.includes yes "<%" = false.
Hypothesis Hno : JS.includes no "<%" = false.
Hypothesis Hpost : JS.includes post "<%" = false.

Lemma conditional_text :
  templateText (Options.delimiters opts) (conditional pre yes no post) = unparsed.
Proof.
  unfold unparsed, conditional. cbn [templateText segmentText].
  cbn. rewrite ?append_assoc. cbn. rewrite ?append_empty_r.
  reflexivity.
Qed.

Lemma conditional_wellFormed : wellFormed 0 opts (conditional pre yes no post).
Proof.
  unfold conditional. cbn [wellFormed].
  repeat split; try reflexivity; try discriminate;
    try (apply startsNone_default; [assumption | cbn; discriminate]).
Qed.

Lemma conditional_code :
  wrap (HEADER ++ templateCode (conditional pre yes no post) ++ FOOTER)
  = BEFORE ++ escapeLiteral pre
      ++ String "`" ("); if (c) { ;$buffer.push(`" ++ escapeLiteral yes
      ++ String "`" ("); } else { ;$buffer.push(`" ++ escapeLiteral no
      ++ String "`" ("); } ;$buffer.push(`" ++ escapeLiteral post
      ++ String "`" AFTER))).
Proof.
  unfold wrap, conditional, BEFORE, AFTER, HEADER, FOOTER.
  cbn [templateCode segmentCode tagCode].
  rewrite ?append_assoc. cbn [append]. rewrite ?append_assoc.
  reflexivity.
Qed.

Lemma conditional_body :
  mentions CR (pre ++ yes ++ no ++ post) = false ->
  parseFunctionBody
    (wrap (HEADER ++ templateCode (conditional pre yes no post) ++ FOOTER))
  = Some (wrapped
            [ push [EStr pre];
              SIf (EIdent "c") (SBlock [SEmpty; push [EStr yes]])
                (Some (SBlock [SEmpty; push [EStr no]]));
              SEmpty;
              push [EStr post] ]).
Proof.
  intros Hcr.
  rewrite !mentions_append in Hcr. repeat (apply orb_false_iff in Hcr as [? Hcr]).
  unfold parseFunctionBody. rewrite conditional_code.
  lex_code BEFORE pre.
  lex_code "); if (c) { ;$buffer.push(`" yes.
  lex_code "); } else { ;$buffer.push(`" no.
  lex_code "); } ;$buffer.push(`" post.
  rewrite !cooked_without_CR by assumption.
  evaluate (lex LNormal AFTER). cbn [option_map].
  vm_compute. reflexivity.
Qed.

Lemma conditional_compiles (fuel : nat) :
  mentions CR (pre ++ yes ++ no ++ post) = false ->
  (String.length unparsed < fuel)%nat ->
  compileTemplate loadFile fuel unparsed None
  = Ok (mkTemplate ["$xml"; "$locals"]
          (wrap (HEADER ++ templateCode (conditional pre yes no post) ++ FOOTER))
          (wrapped
             [ push [EStr pre];
               SIf (EIdent "c") (SBlock [SEmpty; push [EStr yes]])
                 (Some (SBlock [SEmpty; push [EStr no]]));
               SEmpty;
               push [EStr post] ])).
Proof.
  intros Hcr Hfuel. unfold compileTemplate, parseTemplate. fold opts.
  rewrite <- conditional_text.
  assert (P := parseFrom_segments opts 0 _ conditional_wellFormed EmptyString HEADER fuel).
  cbn [append] in P. change (JS.len EmptyString) with 0 in P.
  rewrite P by (rewrite conditional_text; fold unparsed; lia).
  cbn [bind]. unfold newFunction. now rewrite conditional_body.
Qed.

End Conditional.

(** X17.  Code tags splice statements between the pushes of the text around
    them, as the README says of conditional rendering: of the two runs of
    text between [<% if (c) { %>], [<% } else { %>] and [<% } %>] the
    rendered output holds the first when the local [c] is truthy and the
    second otherwise, between the text before and the text after. *)
Theorem conditional_renders_the_chosen_branch
    (loadFile : Loader) (pre yes no post : string) (v : value) (fuel : nat)
    (cells : list cell) (n : nat) (props : list (string * value)) :
  let unparsed :=
    pre ++ "<% if (c) { %>" ++ yes ++ "<% } else { %>" ++ no ++ "<% } %>" ++ post in
  JS.includes pre "<%" = false ->
  JS.includes yes "<%" = false ->
  JS.includes no "<%" = false ->
  JS.includes post "<%" = false ->
  mentions CR (pre ++ yes ++ no ++ post) = false ->
  (String.length unparsed < fuel)%nat ->
  nth_error cells n = Some (CObject props) ->
  getProp props "c" = Some v ->
  getProp props "$buffer" = None ->
  exists template,
    compileTemplate loadFile fuel unparsed None = Ok template
    /\ render template (VRef (Given n)) (mkStore cells [])
       = Ok (pre ++ (if truthy v then yes else no) ++ post).
Proof.
  intros unparsed Hpre Hyes Hno Hpost Hcr Hfuel Hcell Hc Hbuf.
  eexists. split.
  - apply (conditional_compiles loadFile pre yes no post Hpre Hyes Hno Hpost fuel Hcr Hfuel).
  - unfold render, callTemplate, callFunction.
    run_store. destruct (truthy v); run_store; rewrite ?append_empty_r; reflexivity.
Qed.

Lemma conditional_renders_the_chosen_branch_witness :
  exists template,
    compileTemplate noFile 100 "[<% if (c) { %>on<% } else { %>off<% } %>]" None
    = Ok template
    /\ render template (VRef (Given 1))
         (mkStore [CObject []; CObject [("c", VNum 0)]] [])
       = Ok "[off]".
Proof.
  apply (conditional_renders_the_chosen_branch noFile "[" "on" "off" "]" (VNum 0) 100
           [CObject []; CObject [("c", VNum 0)]] 1 [("c", VNum 0)]);
    try reflexivity.
  simpl. lia.
Defined.

(** * The plugin *)

Section PluginFacts.

Variable loadFile : Loader.
Variable minify : string -> Minify -> outcome string.

Lemma pipeOf_Template (arg : option TemplateOptions.t) (locals : value) :
  (forall a v, arg = Some a -> TemplateOptions.locals a = Some v ->
               truthy v = true -> v = locals) ->
  pipeOf (Template loadFile minify arg) locals
  = impl loadFile minify
      (handleOptions loadFile (option_map TemplateOptions.options arg)) locals.
Proof.
  intros H. unfold Template. destruct arg as [[p [v|]]|]; cbn; try reflexivity.
  destruct (truthy v) eqn:E; cbn; [|reflexivity].
  now rewrite (H _ v eq_refl eq_refl E).
Qed.

Lemma compileTemplate_handled (o : option PartialOptions.t) (fuel : nat)
    (contents : string) :
  compileTemplate loadFile fuel contents
    (Some (allOptions (handleOptions loadFile o)))
  = compileTemplate loadFile fuel contents o.
Proof.
  unfold compileTemplate. rewrite handleOptions_all; [reflexivity|].
  destruct (handleOptions_minify_cases loadFile o) as [E | [settings E]];
    rewrite E; discriminate.
Qed.

End PluginFacts.

(** X18.  The transform [Template] makes reports the errors of the
    compilation of the file contents and of the render as plugin errors
    named [gulp-static-html] that carry the message of the error, and
    passes no file on. *)
Theorem plugin_reports_errors
    (loadFile : Loader) (minify : string -> Minify -> outcome string)
    (arg : option TemplateOptions.t) (locals : value)
    (fuel : nat) (contents message : string) (st : store) :
  let options := option_map TemplateOptions.options arg in
  let pipe := pipeOf (Template loadFile minify arg) locals in
  (forall a v, arg = Some a -> TemplateOptions.locals a = Some v ->
               truthy v = true -> v = locals) ->
  compileTemplate loadFile fuel contents options = Throw message
  \/ (exists template,
        compileTemplate loadFile fuel contents options = Ok template
        /\ render template locals st = Throw message) ->
  pipe fuel (BufferFile contents) st = Ok (PluginError PLUGIN_NAME message).
Proof.
  intros options pipe Harg H. unfold pipe.
  rewrite (pipeOf_Template loadFile minify arg locals Harg).
  cbn [impl]. unfold renderToBuffer. fold options.
  rewrite compileTemplate_handled.
  destruct H as [-> | (template & -> & Hr)]; [reflexivity|].
  cbn [bind]. rewrite Hr. reflexivity.
Qed.

Lemma plugin_reports_errors_witness :
  pipeOf (Template noFile exampleMinify None) VUndef 100%nat
    (BufferFile "<p><%= title %></p>") emptyStore
  = Ok (PluginError "gulp-static-html" "title is not defined").
Proof.
  apply (plugin_reports_errors noFile exampleMinify None VUndef 100
           "<p><%= title %></p>" "title is not defined" emptyStore).
  - discriminate.
  - right. eexists. split; vm_compute; reflexivity.
Defined.

(** X19.  The transform [Template] makes passes a null file on as it is,
    and a buffer whose text holds no open delimiter and no carriage return
    with the same text, or with what the minifier makes of it when
    [minify] was asked for; the minifier is then given settings, the
    default ones if the options said [true]. *)
Theorem plugin_passes_text_without_tags
    (loadFile : Loader) (minify : string -> Minify -> outcome string)
    (arg : option TemplateOptions.t) (locals : value)
    (fuel : nat) (text : string) (cells : list cell) :
  let options := handleOptions loadFile (option_map TemplateOptions.options arg) in
  let pipe := pipeOf (Template loadFile minify arg) locals in
  (forall a v, arg = Some a -> TemplateOptions.locals a = Some v ->
               truthy v = true -> v = locals) ->
  JS.includes text (DelimiterOptions.open (Options.delimiters options)) = false ->
  mentions CR text = false ->
  (String.length text < fuel)%nat ->
  usable (mkStore cells []) locals ->
  pipe fuel NullFile (mkStore cells []) = Ok (Passed NullFile)
  /\ pipe fuel (BufferFile text) (mkStore cells [])
     = match Options.minify options with
       | MinifyBool false => Ok (Passed (BufferFile text))
       | settings =>
           catch (do result <- minify text settings; Ok (Passed (BufferFile result)))
       end
  /\ Options.minify options <> MinifyBool true.
Proof.
  intros options pipe Harg Hfree Hcr Hfuel Hlocals.
  subst pipe options. rewrite (pipeOf_Template loadFile minify arg locals Harg).
  set (o := option_map TemplateOptions.options arg) in *.
  split; [reflexivity|]. split.
  - cbn [impl]. unfold renderToBuffer.
    rewrite compileTemplate_handled.
    rewrite compileTemplate_literal by assumption. cbn [bind].
    rewrite (cooked_without_CR _ Hcr).
    destruct (callTemplate_literal
                (wrap (HEADER ++ escapeLiteral text ++ FOOTER)) text cells locals Hlocals)
      as [added E].
    unfold render. rewrite E. cbn [bind].
    destruct (Options.minify (handleOptions loadFile o)) as [[]|settings];
      reflexivity.
  - destruct (handleOptions_minify_cases loadFile o) as [E | [settings E]];
      rewrite E; discriminate.
Qed.

Lemma plugin_passes_text_without_tags_witness :
  let arg := Some (TemplateOptions.mk (withMinify (MinifyBool true))
                     (Some (VRef (Given 1)))) in
  let st := mkStore [CObject []; CObject [("title", VStr "t")]] [] in
  pipeOf (Template noFile exampleMinify arg) (VRef (Given 1)) 100%nat NullFile st
  = Ok (Passed NullFile)
  /\ pipeOf (Template noFile exampleMinify arg) (VRef (Given 1)) 100%nat
       (BufferFile "<p> Hello </p>") st
     = Ok (Passed (BufferFile "<p>Hello</p>")).
Proof.
  intros arg st.
  destruct (plugin_passes_text_without_tags noFile exampleMinify arg (VRef (Given 1))
              100 "<p> Hello </p>" [CObject []; CObject [("title", VStr "t")]])
    as (Hnull & Hbuffer & _).
  - intros a v [= <-] [= <-] _. reflexivity.
  - reflexivity.
  - reflexivity.
  - simpl. lia.
  - right. exists (Given 1), [("title", VStr "t")]. repeat split.
  - split; [exact Hnull | exact Hbuffer].
Defined.

(** * Line endings, and templates compiled by name *)

Lemma cooked_has_no_CR (s : string) :
  forall afterCR : bool, mentions CR (cooked afterCR s) = false.
Proof.
  induction s as [|c s IH]; intros afterCR; [reflexivity|].
  change (cooked afterCR (String c s))
    with (if Ascii.eqb c CR then String LF (cooked true s)
          else if Ascii.eqb c LF then
                 if afterCR then cooked false s else String LF (cooked false s)
          else String c (cooked false s)).
  destruct (Ascii.eqb c CR) eqn:E1.
  - cbn [mentions]. now rewrite IH.
  - destruct (Ascii.eqb c LF) eqn:E2.
    + destruct afterCR; [apply IH|]. cbn [mentions]. now rewrite IH.
    + cbn [mentions]. rewrite IH, Ascii.eqb_sym, E1. reflexivity.
Qed.

(** X20.  What is rendered for literal text is the value of a template
    literal of the generated code, where a line ending CR LF or CR is read
    as LF: a text with no open delimiter renders as itself with every such
    line ending turned into LF, and no carriage return is left in it. *)
Theorem literal_text_renders_with_line_feeds
    (loadFile : Loader) (options : option PartialOptions.t)
    (text : string) (fuel : nat) (cells : list cell) (locals : value) :
  JS.includes text
    (DelimiterOptions.open (Options.delimiters (handleOptions loadFile options)))
  = false ->
  (String.length text < fuel)%nat ->
  usable (mkStore cells []) locals ->
  mentions CR (cooked false text) = false
  /\ exists template,
       compileTemplate loadFile fuel text options = Ok template
       /\ render template locals (mkStore cells []) = Ok (cooked false text).
Proof.
  intros Hfree Hfuel Hlocals. split; [apply cooked_has_no_CR|].
  eexists. split; [apply compileTemplate_literal; assumption|].
  destruct (callTemplate_literal
              (wrap (HEADER ++ escapeLiteral text ++ FOOTER)) (cooked false text)
              cells locals Hlocals) as [added E].
  unfold render. rewrite E. reflexivity.
Qed.

Lemma literal_text_renders_with_line_feeds_witness :
  exists template,
    compileTemplate noFile 100 (String "a" (String CR (String LF (String "b" (String CR "c")))))
      None = Ok template
    /\ render template VUndef emptyStore
       = Ok (String "a" (String LF (String "b" (String LF "c")))).
Proof.
  destruct (literal_text_renders_with_line_feeds noFile None
              (String "a" (String CR (String LF (String "b" (String CR "c")))))
              100 [CObject []] VUndef) as [_ H].
  - reflexivity.
  - simpl. lia.
  - left. reflexivity.
  - exact H.
Defined.

(** X21.  [loadAndCompileTemplate] compiles the text the loader gives for
    the name as [compileTemplate] compiles it, and fails as the loader
    fails, when there is no cache. *)
Theorem loadAndCompileTemplate_compiles_the_loaded_text
    (loadFile : Loader) (options : option PartialOptions.t)
    (templateName : string) (fuel : nat) :
  let opts := handleOptions loadFile options in
  truthy (Options.cache opts) = false ->
  loadAndCompileTemplate loadFile (S fuel) templateName options
  = do unparsed <- Options.loadFile opts templateName;
    compileTemplate loadFile fuel unparsed options.
Proof.
  intros opts Hcache.
  unfold loadAndCompileTemplate, compileTemplate, parseTemplate. fold opts.
  cbn [getTemplate]. rewrite Hcache.
  destruct (Options.loadFile opts templateName); reflexivity.
Qed.

Lemma loadAndCompileTemplate_compiles_the_loaded_text_witness :
  loadAndCompileTemplate exampleLoader 100 "child" None
  = compileTemplate exampleLoader 99 "[<%- x %>]" None
  /\ loadAndCompileTemplate exampleLoader 100 "none" None = Throw "ENOENT: none".
Proof.
  split.
  - apply (loadAndCompileTemplate_compiles_the_loaded_text exampleLoader None "child" 99).
    reflexivity.
  - reflexivity.
Defined.

(** * Imports of literal text *)

Section Importing.

Variable loadFile : Loader.
Variables pre name child post : string.

Let opts := handleOptions loadFile None.
Let unparsed := pre ++ "<%+" ++ name ++ "%>" ++ post.

Hypothesis Hpre : JS.includes pre "<%" = false.
Hypothesis Hchild : JS.includes child "<%" = false.
Hypothesis Hpost : JS.includes post "<%" = false.
Hypothesis Hpipe : mentions "|" name = false.
Hypothesis Hclose : JS.search "%>" (name ++ "%>") 0 = Some (String.length name).
Hypothesis Hload : loadFile (JS.trim name) = Ok child.

Lemma importing_text :
  templateText (Options.delimiters opts) (importing pre name child post) = unparsed.
Proof.
  unfold unparsed, importing. cbn [templateText segmentText].
  cbn. rewrite ?append_assoc. cbn. rewrite ?append_empty_r. reflexivity.
Qed.

Lemma importing_wellFormed :
  wellFormed (S (S (String.length child))) opts (importing pre name child post).
Proof.
  unfold importing. cbn [wellFormed].
  repeat split; try reflexivity; try discriminate;
    try (apply startsNone_default; [assumption | cbn; discriminate]).
  - exact Hclose.
  - intros _. cbn [getTemplate]. 
    destruct (import_pieces name EmptyString Hpipe eq_refl) as (_ & _ & -> & _).
    change (Options.loadFile opts) with loadFile. rewrite Hload. cbn [bind].
    apply (parseTemplate_literal opts child); [exact Hchild | lia].
Qed.

Lemma importing_code :
  wrap (HEADER ++ templateCode (importing pre name child post) ++ FOOTER)
  = BEFORE ++ escapeLiteral pre
      ++ String "`" ((",``);(function($buffer,$locals){" ++ HEADER)
                       ++ escapeLiteral child
      ++ String "`" (");}})($buffer,$locals);$buffer.push(`" ++ escapeLiteral post
      ++ String "`" AFTER)).
Proof.
  unfold wrap, importing, BEFORE, AFTER, HEADER, FOOTER.
  cbn [templateCode segmentCode tagCode].
  destruct (import_pieces name EmptyString Hpipe eq_refl) as (_ & _ & _ & ->).
  rewrite ?append_assoc. cbn [append]. rewrite ?append_assoc.
  reflexivity.
Qed.

Lemma importing_body :
  mentions CR (pre ++ child ++ post) = false ->
  parseFunctionBody
    (wrap (HEADER ++ templateCode (importing pre name child post) ++ FOOTER))
  = Some (wrapped
            [ push [EStr pre; EStr EmptyString];
              SExpr (ECall (scoped [push [EStr child]])
                       [EIdent "$buffer"; EIdent "$locals"]);
              push [EStr post] ]).
Proof.
  intros Hcr.
  rewrite !mentions_append in Hcr. repeat (apply orb_false_iff in Hcr as [? Hcr]).
  unfold parseFunctionBody. rewrite importing_code.
  lex_code BEFORE pre.
  lex_code (",``);(function($buffer,$locals){" ++ HEADER) child.
  lex_code ");}})($buffer,$locals);$buffer.push(`" post.
  rewrite !cooked_without_CR by assumption.
  evaluate (lex LNormal AFTER). cbn [option_map].
  vm_compute. reflexivity.
Qed.

Lemma importing_compiles (fuel : nat) :
  mentions CR (pre ++ child ++ post) = false ->
  (String.length unparsed + String.length child + 2 < fuel)%nat ->
  compileTemplate loadFile fuel unparsed None
  = Ok (mkTemplate ["$xml"; "$locals"]
          (wrap (HEADER ++ templateCode (importing pre name child post) ++ FOOTER))
          (wrapped
             [ push [EStr pre; EStr EmptyString];
               SExpr (ECall (scoped [push [EStr child]])
                        [EIdent "$buffer"; EIdent "$locals"]);
               push [EStr post] ])).
Proof.
  intros Hcr Hfuel. unfold compileTemplate, parseTemplate. fold opts.
  rewrite <- importing_text.
  assert (P := parseFrom_segments opts _ _ importing_wellFormed EmptyString HEADER fuel).
  cbn [append] in P. change (JS.len EmptyString) with 0 in P.
  rewrite P by (rewrite importing_text; fold unparsed; lia).
  cbn [bind]. unfold newFunction. now rewrite importing_body.
Qed.

End Importing.

(** X22.  An import without a locals expression puts the imported text in
    place of the tag, as the README says: when the loader gives literal text
    for the trimmed name, the template renders as the text before the tag,
    the imported text and the text after the tag (the locals binding
    neither [$buffer] nor [$locals], which the generated call reads inside
    the [with] block). *)
Theorem import_of_literal_text_is_inlined
    (loadFile : Loader) (pre name child post : string) (fuel : nat)
    (cells : list cell) (locals : value) :
  let unparsed := pre ++ "<%+" ++ name ++ "%>" ++ post in
  JS.includes pre "<%" = false ->
  JS.includes child "<%" = false ->
  JS.includes post "<%" = false ->
  mentions "|" name = false ->
  JS.search "%>" (name ++ "%>") 0 = Some (String.length name) ->
  loadFile (JS.trim name) = Ok child ->
  mentions CR (pre ++ child ++ post) = false ->
  (String.length unparsed + String.length child + 2 < fuel)%nat ->
  usable (mkStore cells []) locals ->
  (forall l props, locals = VRef l -> objectAt (mkStore cells []) l = Some props ->
                   getProp props "$locals" = None) ->
  exists template,
    compileTemplate loadFile fuel unparsed None = Ok template
    /\ render template locals (mkStore cells []) = Ok (pre ++ child ++ post).
Proof.
  intros unparsed Hpre Hchild Hpost Hpipe Hclose Hload Hcr Hfuel Hlocals Hown.
  eexists. split.
  - apply (importing_compiles loadFile pre name child post
             Hpre Hchild Hpost Hpipe Hclose Hload fuel Hcr Hfuel).
  - unfold render, callTemplate, callFunction.
    destruct Hlocals as [Hf | (l & props & -> & Hobj & Hbuf)].
    + destruct (falsy_cases _ Hf) as [->|[->|[->|[->| ->]]]];
        run_store; rewrite ?append_empty_r; reflexivity.
    + assert (Hloc := Hown l props eq_refl Hobj).
      destruct l as [n|n]; [|destruct n; discriminate Hobj].
      unfold objectAt in Hobj. cbn in Hobj.
      destruct (nth_error cells n) as [[props'|]|] eqn:Hcell; try discriminate.
      injection Hobj as ->.
      run_store. rewrite ?append_empty_r. reflexivity.
Qed.

Lemma import_of_literal_text_is_inlined_witness :
  exists template,
    compileTemplate exampleLoader 100 "Hello <%+ world %>!" None = Ok template
    /\ render template VUndef emptyStore = Ok "Hello World!".
Proof.
  apply (import_of_literal_text_is_inlined exampleLoader "Hello " " world " "World" "!"
           100 [CObject []] VUndef); try reflexivity.
  - simpl. lia.
  - left. reflexivity.
  - discriminate.
Defined.

(** * The texts the scanner accepts *)

Lemma wellFormed_more (options : Options.t) (f f' : nat) (l : list segment) :
  (f <= f')%nat -> wellFormed f options l -> wellFormed f' options l.
Proof.
  intros Hle. induction l as [|[text | k body child] l IH]; cbn [wellFormed].
  - trivial.
  - intros [H1 H2]. split; [exact H1 | now apply IH].
  - intros (H1 & H2 & H3 & H4 & H5). repeat split; try assumption; [|now apply IH].
    intros Hk. rewrite <- (H4 Hk).
    apply more_fuel; [exact Hle | rewrite (H4 Hk); discriminate].
Qed.

Lemma prefix_split (p s : string) :
  String.prefix p s = true -> s = p ++ JS.drop (String.length p) s.
Proof.
  intros H. apply prefix_take in H. rewrite <- H at 1. now rewrite take_drop.
Qed.

Lemma search_at_end (pat body rest : string) :
  JS.search pat (body ++ pat ++ rest) 0 = Some (String.length body) ->
  JS.search pat (body ++ pat) 0 = Some (String.length body).
Proof.
  intros H. destruct (search_some _ _ _ H) as (_ & _ & Hbefore).
  apply search_found.
  - rewrite drop_append_length. rewrite <- (append_empty_r pat) at 2.
    apply prefix_append.
  - rewrite length_append. lia.
  - intros k Hk. rewrite <- (Hbefore k Hk), <- append_assoc.
    symmetry. apply prefix_within. rewrite length_append. lia.
Qed.

Lemma empty_tag_is_code (d : DelimiterOptions.t) (c : option ascii) :
  marker d (tagKind d c) = EmptyString ->
  closeMarker d (tagKind d c) = EmptyString ->
  tagKind d c = KCode /\ DelimiterOptions.close d = EmptyString.
Proof.
  unfold tagKind.
  destruct (isCase c (DelimiterOptions.comment d)) eqn:E1.
  { cbn [marker closeMarker]. intros _ K. apply isCase_true in E1.
    apply (f_equal String.length) in K. rewrite length_append in K.
    cbn [String.length] in K. lia. }
  destruct (isCase c (DelimiterOptions.escape d)) eqn:E2.
  { cbn [marker]. intros M _. apply isCase_true in E2. rewrite M in E2. discriminate. }
  destruct (isCase c (DelimiterOptions.unescape d)) eqn:E3.
  { cbn [marker]. intros M _. apply isCase_true in E3. rewrite M in E3. discriminate. }
  destruct (isCase c (DelimiterOptions.import d)) eqn:E4.
  { cbn [marker]. intros M _. apply isCase_true in E4. rewrite M in E4. discriminate. }
  cbn [closeMarker]. auto.
Qed.

Section Inversion.

Variable options : Options.t.

Let d := Options.delimiters options.
Let OPEN := DelimiterOptions.open d.
Let CLOSE := DelimiterOptions.close d.

(** A code tag that is empty text: the cursor does not move. *)
Lemma parseFrom_stuck (a b : string) :
  OPEN = EmptyString -> CLOSE = EmptyString ->
  b <> EmptyString ->
  tagKind d (JS.head b) = KCode ->
  forall (fuel : nat) (parsed : string),
    parseFrom fuel options (a ++ b) (JS.len a) parsed = OutOfFuel.
Proof.
  intros Hopen Hclose Hne Hkind fuel.
  induction fuel as [|fuel IH]; intros parsed; [reflexivity|].
  assert (T := parseFrom_tag options a b fuel parsed).
  cbv zeta in T. fold d OPEN in T. rewrite Hopen, Hkind in T.
  cbn [append markerWidth closeMarker JS.drop] in T. fold CLOSE in T.
  rewrite Hclose in T.
  assert (S0 : JS.search EmptyString b 0 = Some 0%nat).
  { destruct b; [contradiction | reflexivity]. }
  rewrite S0 in T. rewrite (T Hne).
  replace (JS.len a + JS.len EmptyString + Z.of_nat 0 + Z.of_nat 0 + JS.len EmptyString)
    with (JS.len a) by (unfold JS.len; cbn; lia).
  apply IH.
Qed.

Lemma marker_taken (k : kind) (rest : string) :
  tagKind d (JS.head rest) = k ->
  rest = marker d k ++ JS.drop (markerWidth k) rest.
Proof.
  assert (S1 : forall m, isCase (JS.head rest) m = true ->
                         rest = m ++ JS.drop 1 rest).
  { intros m H. destruct rest as [|c rest']; [discriminate|].
    cbn [JS.head isCase] in H. apply String.eqb_eq in H. subst m. reflexivity. }
  unfold tagKind.
  destruct (isCase _ (DelimiterOptions.comment d)); [intros <-; reflexivity|].
  destruct (isCase _ (DelimiterOptions.escape d)) eqn:E2; [intros <-; now apply S1|].
  destruct (isCase _ (DelimiterOptions.unescape d)) eqn:E3; [intros <-; now apply S1|].
  destruct (isCase _ (DelimiterOptions.import d)) eqn:E4; [intros <-; now apply S1|].
  intros <-. reflexivity.
Qed.

Lemma parseFrom_inversion (fuel : nat) :
  forall (a b parsed result : string),
    parseFrom fuel options (a ++ b) (JS.len a) parsed = Ok result ->
    exists l : list segment,
      templateText d l = b
      /\ wellFormed fuel options l
      /\ result = parsed ++ templateCode l ++ FOOTER.
Proof.
  induction fuel as [|fuel IH]; intros a b parsed result H; [discriminate|].
  destruct b as [|c b'].
  { rewrite parseFrom_end in H by (rewrite append_empty_r; lia).
    injection H as <-. exists []. repeat split. }
  set (b := String c b') in *.
  assert (Hb : b <> EmptyString) by discriminate.
  destruct (String.prefix OPEN b) eqn:Hopen.
  - (* a tag *)
    set (rest := JS.drop (String.length OPEN) b).
    assert (Eb : b = OPEN ++ rest) by now apply prefix_split.
    assert (Hne : OPEN ++ rest <> EmptyString) by now rewrite <- Eb.
    assert (H0 := H).
    rewrite Eb in H.
    assert (T := parseFrom_tag options a rest fuel parsed Hne).
    cbv zeta in T. fold d OPEN in T. rewrite T in H. clear T.
    set (k := tagKind d (JS.head rest)) in *.
    set (cm := closeMarker d k) in *.
    set (inner := JS.drop (markerWidth k) rest) in *.
    destruct (JS.search cm inner 0) as [e|] eqn:Hs; [|discriminate].
    destruct (search_some _ _ _ Hs) as (Hlen & Hat & Hbefore).
    set (body := JS.take e inner) in *.
    set (after_ := JS.drop (String.length cm) (JS.drop e inner)).
    assert (Ei : inner = body ++ cm ++ after_).
    { unfold body, after_. rewrite <- (prefix_split _ _ Hat). now rewrite take_drop. }
    assert (Er : rest = marker d k ++ inner) by now apply marker_taken.
    assert (Lb : String.length body = e) by (unfold body; rewrite length_take; lia).
    assert (Hw : String.length (marker d k) = markerWidth k).
    { apply (f_equal String.length) in Er. unfold inner in Er.
      rewrite length_append, length_drop in Er.
      assert (markerWidth k <= String.length rest)%nat.
      { unfold k, tagKind.
        destruct rest as [|x r]; [reflexivity|].
        repeat match goal with |- context [if ?t then _ else _] => destruct t end;
          cbn [markerWidth String.length]; lia. }
      lia. }
    assert (Hsearch : JS.search cm (body ++ cm) 0 = Some (String.length body)).
    { apply (search_at_end cm body after_). rewrite <- Ei, Lb. exact Hs. }
    assert (U : a ++ OPEN ++ rest = (a ++ OPEN ++ marker d k ++ body ++ cm) ++ after_).
    { rewrite Er, Ei. now rewrite !append_assoc. }
    assert (C : JS.len a + JS.len OPEN + Z.of_nat (markerWidth k) + Z.of_nat e
                + JS.len cm
                = JS.len (a ++ OPEN ++ marker d k ++ body ++ cm)).
    { rewrite !len_append. unfold JS.len. rewrite Hw, Lb. lia. }
    rewrite C, U in H.
    assert (Hkind : tagKind d (JS.head (marker d k ++ body ++ cm ++ after_)) = k)
      by (rewrite <- Ei, <- Er; reflexivity).
    assert (Finish : forall child,
               (k = KImport -> getTemplate fuel options (importName body) = Ok child) ->
               parseFrom fuel options
                 ((a ++ OPEN ++ marker d k ++ body ++ cm) ++ after_)
                 (JS.len (a ++ OPEN ++ marker d k ++ body ++ cm))
                 (parsed ++ tagCode k body child) = Ok result ->
               exists l : list segment,
                 templateText d l = OPEN ++ rest
                 /\ wellFormed (S fuel) options l
                 /\ result = parsed ++ templateCode l ++ FOOTER).
    { intros child Hchild Hrun.
      destruct (IH _ _ _ _ Hrun) as (l & Htext & Hwf & ->).
      exists (Tag k body child :: l). split; [|split].
      - cbn [templateText segmentText]. fold d OPEN cm. rewrite Htext, Er, Ei.
        now rewrite !append_assoc.
      - cbn [wellFormed]. fold d OPEN cm. rewrite Htext.
        repeat split.
        + exact Hkind.
        + exact Hsearch.
        + cbn [segmentText]. fold OPEN cm. intros E.
          (* an empty tag never lets the scan return *)
          apply (f_equal String.length) in E. rewrite !length_append in E.
          cbn [String.length] in E.
          assert (O : OPEN = EmptyString) by (destruct OPEN; [reflexivity | cbn in E; lia]).
          assert (K : cm = EmptyString) by (destruct cm; [reflexivity | cbn in E; lia]).
          assert (B : body = EmptyString) by (destruct body; [reflexivity | cbn in E; lia]).
          assert (M : marker d k = EmptyString)
            by (destruct (marker d k); [reflexivity | cbn in E; lia]).
          destruct (empty_tag_is_code d (JS.head rest) M K) as [Kc Cl].
          assert (Hk0 : tagKind d (JS.head (OPEN ++ rest)) = KCode)
            by (rewrite O; exact Kc).
          assert (Stuck := parseFrom_stuck a (OPEN ++ rest) O Cl Hne Hk0 (S fuel) parsed).
          rewrite <- Eb in Stuck. rewrite Stuck in H0. discriminate H0.
        + intros Hk. rewrite <- (Hchild Hk).
          apply more_fuel; [lia | rewrite (Hchild Hk); discriminate].
        + apply (wellFormed_more options fuel); [lia | exact Hwf].
      - cbn [templateCode segmentCode]. now rewrite !append_assoc. }
    rewrite <- Eb in Finish.
    destruct k eqn:Ek;
      try (apply (Finish EmptyString); [discriminate | exact H]).
    apply bind_Ok in H. destruct H as (child & Hget & H).
    apply (Finish child); [intros _; exact Hget | exact H].
  - (* a code unit of literal text *)
    cbn [parseFrom] in H.
    assert (Hlt : (JS.len a <? JS.len (a ++ b)) = true).
    { apply Z.ltb_lt. rewrite len_append. unfold JS.len, b. cbn [String.length]. lia. }
    rewrite Hlt in H. cbn [negb] in H. fold d OPEN in H.
    replace (JS.len OPEN) with (Z.of_nat (String.length OPEN)) in H by reflexivity.
    rewrite slice_cursor, charAt_cursor in H.
    destruct (String.eqb_spec (JS.take (String.length OPEN) b) OPEN) as [Heq|_].
    { apply prefix_take in Heq. congruence. }
    unfold b in H. cbn [JS.head] in H.
    rewrite (literal_branch _ c
               (fun p => parseFrom fuel options (a ++ String c b') (JS.len a + 1) p)) in H.
    replace (a ++ String c b') with ((a ++ String c EmptyString) ++ b') in H
      by now rewrite append_assoc.
    replace (JS.len a + 1) with (JS.len (a ++ String c EmptyString)) in H
      by (rewrite len_append; reflexivity).
    destruct (IH _ _ _ _ H) as (l & Htext & Hwf & ->).
    exists (Literal (String c EmptyString) :: l). split; [|split].
    + cbn [templateText segmentText append]. now rewrite Htext.
    + cbn [wellFormed String.length startsNone append]. fold d OPEN.
      rewrite Htext. fold b. rewrite Hopen. split; [reflexivity|].
      apply (wellFormed_more options fuel); [lia | exact Hwf].
    + cbn [templateCode segmentCode]. unfold escapeLiteral. cbn [replaceEach].
      rewrite append_empty_r. now rewrite !append_assoc.
Qed.

End Inversion.

(** X23.  Every text [parseTemplate] accepts is a sequence of well-formed
    segments, and the code returned is the code of these segments: with the
    converse (X8), the scanner succeeds exactly on such sequences. *)
Theorem accepted_text_is_well_formed_segments
    (options : Options.t) (fuel : nat) (unparsed parsed : string) :
  let d := Options.delimiters options in
  parseTemplate fuel unparsed options = Ok parsed ->
  exists l : list segment,
    templateText d l = unparsed
    /\ wellFormed fuel options l
    /\ parsed = HEADER ++ templateCode l ++ FOOTER.
Proof.
  intros d H.
  exact (parseFrom_inversion options fuel EmptyString unparsed HEADER parsed H).
Qed.

Lemma accepted_text_is_well_formed_segments_witness :
  exists l : list segment,
    templateText DEFAULT_DELIMITERS l = "a<%= x %>"
    /\ wellFormed 100 (handleOptions noFile None) l
    /\ HEADER ++ "a`,$xml( x ),`" ++ FOOTER = HEADER ++ templateCode l ++ FOOTER.
Proof.
  apply (accepted_text_is_well_formed_segments (handleOptions noFile None) 100
           "a<%= x %>" (HEADER ++ "a`,$xml( x ),`" ++ FOOTER)).
  reflexivity.
Defined.

(** * Templates that import nothing *)

Lemma wellFormed_importFree (o1 o2 : Options.t) (f1 f2 : nat) (l : list segment) :
  Options.delimiters o1 = Options.delimiters o2 ->
  importFree l = true ->
  wellFormed f1 o1 l -> wellFormed f2 o2 l.
Proof.
  intros Hd. induction l as [|[text | k body child] l IH]; cbn [wellFormed importFree forallb].
  - trivial.
  - intros Hfree [H1 H2]. rewrite <- Hd. split; [exact H1 | now apply IH].
  - intros Hfree (H1 & H2 & H3 & H4 & H5).
    apply andb_true_iff in Hfree. destruct Hfree as [Hk Hfree].
    rewrite <- Hd. repeat split; try assumption; [|now apply IH].
    intros ->. discriminate Hk.
Qed.

(** X24.  The loader and the cache are read at import tags only: a
    template of well-formed segments none of which is an import compiles to
    the same code whatever the loader and the cache, and whatever the fuel
    above its length. *)
Theorem template_without_import_never_loads
    (options : Options.t) (loadFile : Loader) (cache : value)
    (fuel : nat) (l : list segment) :
  let d := Options.delimiters options in
  importFree l = true ->
  wellFormed 0 options l ->
  (String.length (templateText d l) < fuel)%nat ->
  parseTemplate fuel (templateText d l) (withLoaderAndCache loadFile cache options)
  = Ok (HEADER ++ templateCode l ++ FOOTER).
Proof.
  intros d Hfree Hwf Hfuel. unfold parseTemplate.
  assert (Hwf' : wellFormed 0 (withLoaderAndCache loadFile cache options) l)
    by exact (wellFormed_importFree options
                (withLoaderAndCache loadFile cache options) 0 0 l eq_refl Hfree Hwf).
  apply (parseFrom_segments _ 0 l Hwf' EmptyString HEADER fuel). cbn. fold d. lia.
Qed.

Lemma template_without_import_never_loads_witness :
  parseTemplate 100 "<p><%= title %></p>"
    (withLoaderAndCache loopLoader (VBool true) (handleOptions noFile None))
  = Ok (HEADER ++ "<p>`,$xml( title ),`</p>" ++ FOOTER).
Proof.
  apply (template_without_import_never_loads (handleOptions noFile None)
           loopLoader (VBool true) 100
           [Literal "<p>"; Tag KEscape " title " EmptyString; Literal "</p>"]).
  - reflexivity.
  - cbn [wellFormed]. repeat split; try reflexivity; try discriminate.
  - simpl. lia.
Defined.

(** * The escaper in output tags *)




(** * Imports and scopes *)

Lemma startsNone_pair (a b : ascii) (t r : string) :
  JS.includes t (String a (String b EmptyString)) = false ->
  JS.head r <> Some b ->
  startsNone (String a (String b EmptyString)) (String.length t) (t ++ r) = true.
Proof.
  intros H Hr. assert (N := no_occurrence _ _ H). clear H.
  apply startsNone_intro.
  induction t as [|c t IH]; intros k Hk; [cbn in Hk; lia|].
  destruct k as [|k].
  - assert (N0 := N 0%nat). cbn [JS.drop append] in *.
    rewrite prefix_cons in *.
    destruct (Ascii.eqb a c); [|reflexivity]. cbn [andb] in *.
    destruct t as [|c' t]; cbn [append].
    + destruct r as [|c' r]; [reflexivity|].
      rewrite prefix_cons.
      destruct (Ascii.eqb_spec b c') as [<-|]; [|reflexivity].
      now contradiction Hr.
    + rewrite prefix_cons in *.
      destruct (Ascii.eqb b c'); [|reflexivity].
      rewrite prefix_empty in N0. discriminate N0.
  - cbn [JS.drop append]. apply IH; [|cbn in Hk; lia].
    intros j. exact (N (S j)).
Qed.

Lemma search_after (pat t r : string) (e : nat) :
  startsNone pat (String.length t) (t ++ r) = true ->
  JS.search pat r 0 = Some e ->
  JS.search pat (t ++ r) 0 = Some (String.length t + e)%nat.
Proof.
  intros Hn Hs. destruct (search_some _ _ _ Hs) as (Hlen & Hat & Hbefore).
  apply search_found.
  - rewrite drop_append_r by lia.
    replace (String.length t + e - String.length t)%nat with e by lia. exact Hat.
  - rewrite length_append. lia.
  - intros k Hk. destruct (Nat.lt_ge_cases k (String.length t)) as [Hl|Hg].
    + now apply (startsNone_spec pat (String.length t)).
    + rewrite drop_append_r by exact Hg. apply Hbefore. lia.
Qed.

Section Segments.

Variable loadFile : Loader.

Let opts := handleOptions loadFile None.

Lemma parseTemplate_segments (f fuel : nat) (l : list segment) :
  wellFormed f opts l ->
  (String.length (templateText (Options.delimiters opts) l) + f < fuel)%nat ->
  parseTemplate fuel (templateText (Options.delimiters opts) l) opts
  = Ok (HEADER ++ templateCode l ++ FOOTER).
Proof.
  intros Hwf Hfuel. unfold parseTemplate.
  assert (P := parseFrom_segments opts f l Hwf EmptyString HEADER fuel).
  cbn [append] in P. change (JS.len EmptyString) with 0 in P.
  now apply P.
Qed.

Lemma getTemplate_segments (f fuel : nat) (l : list segment) (name : string) :
  loadFile name = Ok (templateText (Options.delimiters opts) l) ->
  wellFormed f opts l ->
  (String.length (templateText (Options.delimiters opts) l) + f < fuel)%nat ->
  getTemplate (S fuel) opts name = Ok (HEADER ++ templateCode l ++ FOOTER).
Proof.
  intros Hload Hwf Hfuel. cbn [getTemplate].
  change (Options.loadFile opts) with loadFile. rewrite Hload. cbn [bind].
  now apply (parseTemplate_segments f fuel l).
Qed.

Variables pre post : string.

Hypothesis Hpre : JS.includes pre "<%" = false.
Hypothesis Hpost : JS.includes post "<%" = false.

Lemma writing_wellFormed : wellFormed 0 opts (writing pre post).
Proof.
  unfold writing. cbn [wellFormed].
  repeat split; try reflexivity; try discriminate;
    try (apply startsNone_default; [assumption | cbn; discriminate]).
Qed.

Lemma assigning_wellFormed : wellFormed 0 opts (assigning pre post).
Proof.
  unfold assigning. cbn [wellFormed].
  repeat split; try reflexivity; try discriminate;
    try (apply startsNone_default; [assumption | cbn; discriminate]).
Qed.

End Segments.

Section ImportScopes.

Variable loadFile : Loader.
Variables pre name mid post cpre cpost : string.

Let opts := handleOptions loadFile None.

Hypothesis Hpre : JS.includes pre "<%" = false.
Hypothesis Hmid : JS.includes mid "<%" = false.
Hypothesis Hpost : JS.includes post "<%" = false.
Hypothesis Hcpre : JS.includes cpre "<%" = false.
Hypothesis Hcpost : JS.includes cpost "<%" = false.
Hypothesis Hpipe : mentions "|" name = false.
Hypothesis Hname : JS.includes name "%>" = false.

Let scopedChild := cpre ++ "<%- x %>" ++ cpost.
Let sharingChild := cpre ++ "<% x = 'new' %>" ++ cpost.
Let scopedText := pre ++ "<%+" ++ name ++ "| {x: y} %>" ++ mid ++ "<%- x %>" ++ post.
Let sharedText := pre ++ "<%+" ++ name ++ "%>" ++ mid ++ "<%- x %>" ++ post.

Let scopedSegments :=
  importingThenWriting pre (name ++ "| {x: y} ")
    (HEADER ++ templateCode (writing cpre cpost) ++ FOOTER) mid post.

Let sharedSegments :=
  importingThenWriting pre name
    (HEADER ++ templateCode (assigning cpre cpost) ++ FOOTER) mid post.

Lemma scoped_text : templateText (Options.delimiters opts) scopedSegments = scopedText.
Proof.
  unfold scopedText, scopedSegments, importingThenWriting. cbn [templateText segmentText].
  cbn. rewrite ?append_assoc. cbn. rewrite ?append_empty_r. reflexivity.
Qed.

Lemma shared_text : templateText (Options.delimiters opts) sharedSegments = sharedText.
Proof.
  unfold sharedText, sharedSegments, importingThenWriting. cbn [templateText segmentText].
  cbn. rewrite ?append_assoc. cbn. rewrite ?append_empty_r. reflexivity.
Qed.

Lemma scoped_wellFormed :
  loadFile (JS.trim name) = Ok scopedChild ->
  wellFormed (S (S (String.length scopedChild))) opts scopedSegments.
Proof.
  intros Hload. unfold scopedSegments, importingThenWriting. cbn [wellFormed].
  split; [apply startsNone_default; [assumption | cbn; discriminate]|].
  split; [reflexivity|].
  split.
  { change (closeMarker (Options.delimiters opts) KImport) with "%>".
    rewrite append_assoc.
    rewrite (search_after "%>" name ("| {x: y} " ++ "%>") 9).
    - rewrite length_append. reflexivity.
    - apply startsNone_pair; [exact Hname | discriminate].
    - reflexivity. }
  split; [discriminate|].
  split.
  { intros _.
    destruct (import_pieces name " {x: y} " Hpipe eq_refl) as (-> & _).
    apply (getTemplate_segments loadFile 0 _ (writing cpre cpost)).
    - rewrite Hload. unfold scopedChild. cbn. now rewrite append_empty_r.
    - now apply writing_wellFormed.
    - unfold scopedChild. cbn [writing templateText segmentText]. cbn.
      rewrite ?append_empty_r. lia. }
  split; [apply startsNone_default; [assumption | cbn; discriminate]|].
  split; [reflexivity|]. split; [reflexivity|]. split; [discriminate|].
  split; [discriminate|].
  split; [apply startsNone_default; [assumption | cbn; discriminate]|].
  exact I.
Qed.

Lemma shared_wellFormed :
  loadFile (JS.trim name) = Ok sharingChild ->
  wellFormed (S (S (String.length sharingChild))) opts sharedSegments.
Proof.
  intros Hload. unfold sharedSegments, importingThenWriting. cbn [wellFormed].
  split; [apply startsNone_default; [assumption | cbn; discriminate]|].
  split; [reflexivity|].
  split.
  { change (closeMarker (Options.delimiters opts) KImport) with "%>".
    rewrite <- (Nat.add_0_r (String.length name)).
    apply search_after; [|reflexivity].
    apply startsNone_pair; [exact Hname | discriminate]. }
  split; [discriminate|].
  split.
  { intros _.
    destruct (import_pieces name EmptyString Hpipe eq_refl) as (_ & _ & -> & _).
    apply (getTemplate_segments loadFile 0 _ (assigning cpre cpost)).
    - rewrite Hload. unfold sharingChild. cbn. now rewrite append_empty_r.
    - now apply assigning_wellFormed.
    - unfold sharingChild. cbn [assigning templateText segmentText]. cbn.
      rewrite ?append_empty_r. lia. }
  split; [apply startsNone_default; [assumption | cbn; discriminate]|].
  split; [reflexivity|]. split; [reflexivity|]. split; [discriminate|].
  split; [discriminate|].
  split; [apply startsNone_default; [assumption | cbn; discriminate]|].
  exact I.
Qed.

Lemma scoped_code :
  wrap (HEADER ++ templateCode scopedSegments ++ FOOTER)
  = BEFORE ++ escapeLiteral pre
      ++ String "`" ((",``);(function($buffer,$locals){" ++ HEADER)
                       ++ escapeLiteral cpre
      ++ String "`" (",( x ),`" ++ escapeLiteral cpost
      ++ String "`" (");}})($buffer,{x: y});$buffer.push(`" ++ escapeLiteral mid
      ++ String "`" (",( x ),`" ++ escapeLiteral post
      ++ String "`" AFTER)))).
Proof.
  unfold wrap, scopedSegments, importingThenWriting, writing, BEFORE, AFTER, HEADER, FOOTER.
  cbn [templateCode segmentCode tagCode].
  destruct (import_pieces name " {x: y} " Hpipe eq_refl) as (_ & -> & _).
  evaluate (JS.trim " {x: y} "). cbn [String.eqb Ascii.eqb Bool.eqb].
  rewrite ?append_assoc. cbn [append]. rewrite ?append_assoc.
  cbn [append]. rewrite ?append_assoc. reflexivity.
Qed.

Lemma shared_code :
  wrap (HEADER ++ templateCode sharedSegments ++ FOOTER)
  = BEFORE ++ escapeLiteral pre
      ++ String "`" ((",``);(function($buffer,$locals){" ++ HEADER)
                       ++ escapeLiteral cpre
      ++ String "`" ("); x = 'new' ;$buffer.push(`" ++ escapeLiteral cpost
      ++ String "`" (");}})($buffer,$locals);$buffer.push(`" ++ escapeLiteral mid
      ++ String "`" (",( x ),`" ++ escapeLiteral post
      ++ String "`" AFTER)))).
Proof.
  unfold wrap, sharedSegments, importingThenWriting, assigning, BEFORE, AFTER, HEADER, FOOTER.
  cbn [templateCode segmentCode tagCode].
  destruct (import_pieces name EmptyString Hpipe eq_refl) as (_ & _ & _ & ->).
  rewrite ?append_assoc. cbn [append]. rewrite ?append_assoc.
  cbn [append]. rewrite ?append_assoc. reflexivity.
Qed.

(** The function compiled from the importer with a locals expression. *)
Lemma scoped_body :
  mentions CR (pre ++ mid ++ post ++ cpre ++ cpost) = false ->
  parseFunctionBody (wrap (HEADER ++ templateCode scopedSegments ++ FOOTER))
  = Some (wrapped
            [ push [EStr pre; EStr EmptyString];
              SExpr (ECall (scoped [push [EStr cpre; EIdent "x"; EStr cpost]])
                       [EIdent "$buffer"; EObject [("x", EIdent "y")]]);
              push [EStr mid; EIdent "x"; EStr post] ]).
Proof.
  intros Hcr.
  rewrite !mentions_append in Hcr. repeat (apply orb_false_iff in Hcr as [? Hcr]).
  unfold parseFunctionBody. rewrite scoped_code.
  lex_code BEFORE pre.
  lex_code (",``);(function($buffer,$locals){" ++ HEADER) cpre.
  lex_code ",( x ),`" cpost.
  lex_code ");}})($buffer,{x: y});$buffer.push(`" mid.
  lex_code ",( x ),`" post.
  rewrite !cooked_without_CR by assumption.
  evaluate (lex LNormal AFTER). cbn [option_map].
  vm_compute. reflexivity.
Qed.

Lemma shared_body :
  mentions CR (pre ++ mid ++ post ++ cpre ++ cpost) = false ->
  parseFunctionBody (wrap (HEADER ++ templateCode sharedSegments ++ FOOTER))
  = Some (wrapped
            [ push [EStr pre; EStr EmptyString];
              SExpr (ECall (scoped [ push [EStr cpre];
                                     SExpr (EAssign (EIdent "x") (EStr "new"));
                                     push [EStr cpost] ])
                       [EIdent "$buffer"; EIdent "$locals"]);
              push [EStr mid; EIdent "x"; EStr post] ]).
Proof.
  intros Hcr.
  rewrite !mentions_append in Hcr. repeat (apply orb_false_iff in Hcr as [? Hcr]).
  unfold parseFunctionBody. rewrite shared_code.
  lex_code BEFORE pre.
  lex_code (",``);(function($buffer,$locals){" ++ HEADER) cpre.
  lex_code "); x = 'new' ;$buffer.push(`" cpost.
  lex_code ");}})($buffer,$locals);$buffer.push(`" mid.
  lex_code ",( x ),`" post.
  rewrite !cooked_without_CR by assumption.
  evaluate (lex LNormal AFTER). cbn [option_map].
  vm_compute. reflexivity.
Qed.

Lemma scoped_compiles (fuel : nat) :
  loadFile (JS.trim name) = Ok scopedChild ->
  mentions CR (pre ++ mid ++ post ++ cpre ++ cpost) = false ->
  (String.length scopedText + String.length scopedChild + 2 < fuel)%nat ->
  compileTemplate loadFile fuel scopedText None
  = Ok (mkTemplate ["$xml"; "$locals"]
          (wrap (HEADER ++ templateCode scopedSegments ++ FOOTER))
          (wrapped
             [ push [EStr pre; EStr EmptyString];
               SExpr (ECall (scoped [push [EStr cpre; EIdent "x"; EStr cpost]])
                        [EIdent "$buffer"; EObject [("x", EIdent "y")]]);
               push [EStr mid; EIdent "x"; EStr post] ])).
Proof.
  intros Hload Hcr Hfuel. unfold compileTemplate.
  rewrite <- scoped_text. unfold opts.
  rewrite (parseTemplate_segments loadFile _ fuel _ (scoped_wellFormed Hload))
    by (fold opts; rewrite scoped_text; lia).
  cbn [bind]. unfold newFunction. now rewrite scoped_body.
Qed.

Lemma shared_compiles (fuel : nat) :
  loadFile (JS.trim name) = Ok sharingChild ->
  mentions CR (pre ++ mid ++ post ++ cpre ++ cpost) = false ->
  (String.length sharedText + String.length sharingChild + 2 < fuel)%nat ->
  compileTemplate loadFile fuel sharedText None
  = Ok (mkTemplate ["$xml"; "$locals"]
          (wrap (HEADER ++ templateCode sharedSegments ++ FOOTER))
          (wrapped
             [ push [EStr pre; EStr EmptyString];
               SExpr (ECall (scoped [ push [EStr cpre];
                                      SExpr (EAssign (EIdent "x") (EStr "new"));
                                      push [EStr cpost] ])
                        [EIdent "$buffer"; EIdent "$locals"]);
               push [EStr mid; EIdent "x"; EStr post] ])).
Proof.
  intros Hload Hcr Hfuel. unfold compileTemplate.
  rewrite <- shared_text. unfold opts.
  rewrite (parseTemplate_segments loadFile _ fuel _ (shared_wellFormed Hload))
    by (fold opts; rewrite shared_text; lia).
  cbn [bind]. unfold newFunction. now rewrite shared_body.
Qed.

End ImportScopes.

Lemma nth_error_replaceNth (cells : list cell) (n : nat) (c c' : cell) :
  nth_error cells n = Some c -> nth_error (replaceNth cells n c') n = Some c'.
Proof.
  revert n. induction cells as [|x cells IH]; intros [|n] H; try discriminate H.
  - reflexivity.
  - cbn [replaceNth nth_error]. now apply IH.
Qed.

Lemma getProp_setProp (props : list (string * value)) (x : string) (v : value) :
  getProp (setProp props x v) x = Some v.
Proof.
  induction props as [|[y w] props IH]; cbn [setProp getProp].
  - now rewrite String.eqb_refl.
  - destruct (String.eqb x y) eqn:E; cbn [getProp]; rewrite E; [reflexivity | exact IH].
Qed.

Lemma getProp_setProp_other (props : list (string * value)) (x y : string) (v : value) :
  String.eqb y x = false ->
  getProp (setProp props x v) y = getProp props y.
Proof.
  intros H. induction props as [|[z w] props IH]; cbn [setProp getProp].
  - now rewrite H.
  - destruct (String.eqb x z) eqn:E; cbn [getProp].
    + apply String.eqb_eq in E. subst z. now rewrite H.
    + now rewrite IH.
Qed.

(** C6 (where the code departs from it, see the last part).  An import tag
    compiles to a call, made inside the [with] block of the importer, of a
    function whose body is the code of the imported template and whose
    parameter [$locals] receives the value of the locals expression, or the
    locals of the importer when the tag gives none.

    With the locals expression [{x: y}], whatever the texts around the tags
    and whatever the locals hold: the imported template writes for [x] the
    value the importer has for [y], and the importer, after the tag, writes
    for [x] its own value, or fails with a [ReferenceError] when it has
    none.  The locals need not bind [$buffer] nor [$locals], which the
    generated code reads inside the [with] block.

    Without a locals expression, an assignment to [x] made by the imported
    template changes the locals object of the importer, which writes the new
    value after the tag.

    In both cases the output of the imported template stands between the
    text before the tag and the text after it.

    A locals expression is cut at its first pipe: with [a || b], [a] being
    [null] and [b] an object that binds [x], the imported template is given
    [a] and fails to find [x], where with [b] it writes the [x] of [b]. *)
Theorem C6_import_scopes
    (loadFile : Loader) (pre name mid post cpre cpost sname spre spost : string)
    (fuel : nat) (cells : list cell) (n : nat) (props : list (string * value))
    (v : value) (shown : string) :
  let scopedChild := cpre ++ "<%- x %>" ++ cpost in
  let sharingChild := spre ++ "<% x = 'new' %>" ++ spost in
  let scopedText :=
    pre ++ "<%+" ++ name ++ "| {x: y} %>" ++ mid ++ "<%- x %>" ++ post in
  let sharedText := pre ++ "<%+" ++ sname ++ "%>" ++ mid ++ "<%- x %>" ++ post in
  JS.includes pre "<%" = false ->
  JS.includes mid "<%" = false ->
  JS.includes post "<%" = false ->
  JS.includes cpre "<%" = false ->
  JS.includes cpost "<%" = false ->
  JS.includes spre "<%" = false ->
  JS.includes spost "<%" = false ->
  mentions "|" name = false ->
  JS.includes name "%>" = false ->
  mentions "|" sname = false ->
  JS.includes sname "%>" = false ->
  mentions CR (pre ++ mid ++ post ++ cpre ++ cpost) = false ->
  mentions CR (spre ++ spost) = false ->
  loadFile (JS.trim name) = Ok scopedChild ->
  loadFile (JS.trim sname) = Ok sharingChild ->
  (String.length scopedText + String.length scopedChild + 2 < fuel)%nat ->
  (String.length sharedText + String.length sharingChild + 2 < fuel)%nat ->
  nth_error cells n = Some (CObject props) ->
  getProp props "$buffer" = None ->
  getProp props "$locals" = None ->
  getProp props "y" = Some v ->
  joinElement v = Some shown ->
  (exists template,
     compileTemplate loadFile fuel scopedText None = Ok template
     /\ (forall (w : value) (own : string),
           getProp props "x" = Some w ->
           joinElement w = Some own ->
           render template (VRef (Given n)) (mkStore cells [])
           = Ok (pre ++ cpre ++ shown ++ cpost ++ mid ++ own ++ post))
     /\ (forall globals : list (string * value),
           getProp props "x" = None ->
           nth_error cells 0 = Some (CObject globals) ->
           getProp globals "x" = None ->
           render template (VRef (Given n)) (mkStore cells [])
           = Throw "x is not defined"))
  /\ (exists template,
        compileTemplate loadFile fuel sharedText None = Ok template
        /\ forall w : value,
             getProp props "x" = Some w ->
             exists added,
               callTemplate template (VRef (Given n)) (mkStore cells [])
               = Ok (VStr (pre ++ spre ++ spost ++ mid ++ "new" ++ post),
                     mkStore
                       (replaceNth cells n (CObject (setProp props "x" (VStr "new"))))
                       added))
  /\ (exists cut whole,
        compileTemplate exampleLoader 100 "<%+ child | a || b %>" None = Ok cut
        /\ compileTemplate exampleLoader 100 "<%+ child | b %>" None = Ok whole
        /\ render cut (VRef (Given 1)) pipeStore = Throw "x is not defined"
        /\ render whole (VRef (Given 1)) pipeStore = Ok "[1]").
Proof.
  intros scopedChild sharingChild scopedText sharedText
    Hpre Hmid Hpost Hcpre Hcpost Hspre Hspost Hpipe Hname Hspipe Hsname Hcr Hscr
    Hload Hsload Hfuel Hsfuel Hcell Hbuf Hloc Hy Hv.
  split; [|split].
  - eexists. split; [|split].
    + apply (scoped_compiles loadFile pre name mid post cpre cpost
               Hpre Hmid Hpost Hcpre Hcpost Hpipe Hname fuel Hload Hcr Hfuel).
    + intros w own Hx Hw. unfold render, callTemplate, callFunction.
      run_store. rewrite Hv, Hw. cbn. rewrite ?append_empty_r. reflexivity.
    + intros globals Hx Hg Hgx. unfold render, callTemplate, callFunction.
      destruct cells as [|g cells']; [discriminate Hg|].
      injection Hg as ->.
      run_store. reflexivity.
  - assert (Hcr' : mentions CR (pre ++ mid ++ post ++ spre ++ spost) = false).
    { rewrite !mentions_append in *.
      repeat (apply orb_false_iff in Hcr as [? Hcr]).
      apply orb_false_iff in Hscr as [? ?].
      repeat (apply orb_false_iff; split); assumption. }
    eexists. split.
    + apply (shared_compiles loadFile pre sname mid post spre spost
               Hpre Hmid Hpost Hspre Hspost Hspipe Hsname fuel Hsload Hcr' Hsfuel).
    + intros w Hx. unfold callTemplate, callFunction.
      assert (Hcell' := nth_error_replaceNth cells n _
                          (CObject (setProp props "x" (VStr "new"))) Hcell).
      assert (Hx' := getProp_setProp props "x" (VStr "new")).
      assert (Hbuf' : getProp (setProp props "x" (VStr "new")) "$buffer" = None)
        by (rewrite getProp_setProp_other; [exact Hbuf | reflexivity]).
      run_store. rewrite ?append_empty_r. eexists. reflexivity.
  - eexists. eexists.
    split; [vm_compute; reflexivity|].
    split; [vm_compute; reflexivity|].
    split; vm_compute; reflexivity.
Qed.

Lemma C6_import_scopes_witness :
  (exists template,
     compileTemplate exampleLoader 200 "Hello <%+ child | {x: y} %>!<%- x %>?" None
     = Ok template
     /\ render template (VRef (Given 1))
          (mkStore [CObject []; CObject [("x", VStr "mine"); ("y", VNum 1)]] [])
        = Ok "Hello [1]!mine?")
  /\ (exists template added,
        compileTemplate exampleLoader 200 "Hello <%+ rename %>!<%- x %>?" None
        = Ok template
        /\ callTemplate template (VRef (Given 1))
             (mkStore [CObject []; CObject [("x", VStr "mine"); ("y", VNum 1)]] [])
           = Ok (VStr "Hello !new?",
                 mkStore [CObject []; CObject [("x", VStr "new"); ("y", VNum 1)]] added)).
Proof.
  destruct (C6_import_scopes exampleLoader "Hello " " child " "!" "?" "[" "]"
              " rename " EmptyString EmptyString 200
              [CObject []; CObject [("x", VStr "mine"); ("y", VNum 1)]] 1
              [("x", VStr "mine"); ("y", VNum 1)] (VNum 1) "1")
    as ((scoped' & Hc & Hown & _) & (shared' & Hs & Hnew) & _);
    try reflexivity; try (simpl; lia).
  split.
  - exists scoped'. split; [exact Hc|].
    apply (Hown (VStr "mine") "mine"); reflexivity.
  - destruct (Hnew (VStr "mine") eq_refl) as [added Hadded].
    exists shared', added. split; [exact Hs | exact Hadded].
Defined.
